(** * grmpy workflow: alignment and genotyping over a pool of worker threads

    A shallow embedding of [src/c++/lib/grmpy/Workflow.cpp] and of the option
    post-processing and [main] of [src/c++/main/grmpy.cpp].

    The two worker functions ([Workflow::alignSamples],
    [Workflow::genotypeGraphs]) hold [mutex_] except while a collaborator
    ([alignSingleSample], [countAndGenotype]) runs.  A worker is therefore a
    small state machine whose transitions are the critical sections of the
    source and the completions of its collaborator calls; a run of the pool
    is an interleaving of such transitions, chosen by a schedule (the list of
    the thread numbers that move next).  A collaborator call takes effect in
    the move that completes it: while it runs, nothing else touches the slot
    it rewrites or the row it reads.  What the workers log is left out; what
    they call and do not define is a parameter of the development. *)

From Stdlib Require Import String Ascii ZArith Lia.
From stdpp Require Import base option list strings.

Set Default Proof Using "Type".

(** ** Counting with a boolean test *)

Fixpoint count {A : Type} (p : A → bool) (l : list A) : nat :=
  match l with
  | [] => 0
  | x :: l' => (if p x then 1 else 0) + count p l'
  end.

(** [join sep l]: the strings of [l] with [sep] before each but the first. *)
Fixpoint join (sep : string) (l : list string) : string :=
  match l with
  | [] => EmptyString
  | [x] => x
  | x :: l' => x +:+ sep +:+ join sep l'
  end.

Section Grmpy.

(** ** Collaborators and data model *)

(** [Json::Value]: the workflow only tests it for null and serialises it. *)
Context {Json : Type}.

(** [genotyping::SampleInfo], with the accessors the workflow uses. *)
Record SampleInfo : Type := mkSampleInfo {
  sample_name : string;
  filename : string;
  index_filename : string;
  get_alignment_data : Json;
}.

(** [genotyping::Samples] is [std::vector<SampleInfo>]. *)
Abbreviation Samples := (list SampleInfo).

(** What the workflow calls and does not define.

    - [isNull], [writeJson]: [Json::Value::isNull] and [common::writeJson].
    - [openReader filename index referencePath]: does the constructor of
      [common::BamReader] return ([true]) or throw?
    - [alignSingleSample(parameters, graphPath, referencePath, reader, sample)]
      rewrites the sample it is handed by reference: the result is the new
      content of that slot and whether the call returned ([true]) or threw.
    - [countAndGenotype(graphPath, referencePath, parameterPath, samples)]:
      [None] when it throws.
    - [canOpen]: can this path be opened for writing ([is_open()] of the
      sink)?  [path_filename], [path_append]: [boost::filesystem::path]'s
      [filename()] and [operator/].
    - [NDEBUG]: whether [assert] is compiled out.
    - [fileExists], [is_directory]: the file system as the option checks see
      it; [create_directory]: does [boost::filesystem::create_directory]
      return, the directory being there afterwards ([true]), or throw?
      [loadManifest]: [genotyping::loadManifest], [None] when it throws. *)
Class Collaborators : Type := {
  isNull : Json → bool;
  writeJson : Json → string;
  openReader : string → string → string → bool;
  alignSingleSample : string → string → SampleInfo → SampleInfo * bool;
  countAndGenotype : string → string → string → Samples → option Json;
  canOpen : string → bool;
  path_filename : string → string;
  path_append : string → string → string;
  NDEBUG : bool;
  fileExists : string → bool;
  is_directory : string → bool;
  create_directory : string → bool;
  loadManifest : string → option Samples;
}.

Context {collaborators : Collaborators}.

(** [grmpy::Parameters]; the workflow itself reads only [threads()], the
    other settings go to the aligner unread. *)
Record Parameters : Type := mkParameters {
  threads : nat;
}.

(** [Workflow::UnalignedSample]: the iterator [unprocessedGraphs_] into
    [graphSpecPaths_] is its offset from [begin()]; [end()] is the length. *)
Record UnalignedSample : Type := mkUnalignedSample {
  sample_ : SampleInfo;
  unprocessedGraphs_ : nat;
}.

(** The members of [Workflow] that the constructor copies from its
    arguments and that nothing assigns afterwards. *)
Record Settings : Type := mkSettings {
  graphSpecPaths_ : list string;
  genotypingParameterPath_ : string;
  manifest_ : Samples;
  outputFilePath_ : string;
  outputFolderPath_ : string;
  gzipOutput_ : bool;
  parameters_ : Parameters;
  referencePath_ : string;
  progress_ : bool;
}.

(** The [Workflow] object: its settings and the members the workers share
    under [mutex_]. *)
Record Workflow : Type := mkWorkflow {
  settings : Settings;
  unalignedSamples_ : list UnalignedSample;
  alignedSamples_ : list Samples;
  terminate_ : bool;
  firstPrinted_ : bool;
}.

Definition set_unalignedSamples (w : Workflow) (us : list UnalignedSample) : Workflow :=
  mkWorkflow (settings w) us (alignedSamples_ w) (terminate_ w) (firstPrinted_ w).

Definition set_alignedSamples (w : Workflow) (al : list Samples) : Workflow :=
  mkWorkflow (settings w) (unalignedSamples_ w) al (terminate_ w) (firstPrinted_ w).

Definition set_terminate (w : Workflow) (b : bool) : Workflow :=
  mkWorkflow (settings w) (unalignedSamples_ w) (alignedSamples_ w) b (firstPrinted_ w).

Definition set_firstPrinted (w : Workflow) (b : bool) : Workflow :=
  mkWorkflow (settings w) (unalignedSamples_ w) (alignedSamples_ w) (terminate_ w) b.

(** [graphSpecPaths_.end()] as an offset. *)
Definition graphs_end (w : Workflow) : nat := length (graphSpecPaths_ (settings w)).

(** ** The constructor *)

(** [assert(c)]: aborts the process unless [c] holds or [NDEBUG] is set. *)
Definition assert (c : bool) : option unit :=
  if NDEBUG || c then Some () else None.

(** [for (i = 0; i < n; ++i) alignedSamples_[i].push_back(sample);] *)
Fixpoint push_back_rows (n : nat) (sample : SampleInfo) (al : list Samples) : list Samples :=
  match n with
  | 0 => al
  | S k => alter (λ row, row ++ [sample]) k (push_back_rows k sample al)
  end.

(** The cursor the constructor gives a sample: [begin()] when it has no
    alignment data, [end()] otherwise. *)
Definition initial_cursor (graphs : list string) (sample : SampleInfo) : nat :=
  if isNull (get_alignment_data sample) then 0 else length graphs.

Definition initial_unaligned (graphs : list string) (sample : SampleInfo) : UnalignedSample :=
  mkUnalignedSample sample (initial_cursor graphs sample).

(** The body of the constructor's loop over the manifest; [None] when the
    assertion of the no-graph branch fails. *)
Fixpoint construct_loop (graphs : list string) (manifest : Samples)
    (us : list UnalignedSample) (al : list Samples)
    : option (list UnalignedSample * list Samples) :=
  match manifest with
  | [] => Some (us, al)
  | sample :: rest =>
      let us' := us ++ [initial_unaligned graphs sample] in
      if negb (length graphs =? 0) then
        construct_loop graphs rest us' (push_back_rows (length graphs) sample al)
      else
        match assert (negb (isNull (get_alignment_data sample))) with
        | Some _ => construct_loop graphs rest us' (alter (λ row, row ++ [sample]) 0 al)
        | None => None
        end
  end.

(** [Workflow::Workflow]: [alignedSamples_.resize(max(1, size))], then the
    loop.  [terminate_] and [firstPrinted_] start out [false]. *)
Definition Workflow_new (s : Settings) : option Workflow :=
  match construct_loop (graphSpecPaths_ s) (manifest_ s) []
          (replicate (Nat.max 1 (length (graphSpecPaths_ s))) []) with
  | Some (us, al) => Some (mkWorkflow s us al false false)
  | None => None
  end.

(** ** Events

    What a run does, newest event first.  [t] is the worker thread, [i] the
    position of the sample in the manifest, [g] the graph index.  The call
    of a collaborator and its return (or throw) are logged together, by the
    move that completes the call. *)
Inductive event : Type :=
  | EvAlignClaim (t i g : nat)
      (* [input.unprocessedGraphs_++] handed graph [g] of sample [i] out *)
  | EvAlignCall (t i g : nat) (graphPath : string) (slot : SampleInfo)
  | EvAlignReturn (t i g : nat)
  | EvAlignThrow (t i g : nat)
  | EvReaderThrow (t i : nat)
      (* the [BamReader] of sample [i] could not be constructed *)
  | EvGenoClaim (t g : nat)
      (* [ungenotypedSamples++] handed row [g] out *)
  | EvGenoCall (t g : nat) (graphPath : string) (samples : Samples)
  | EvGenoReturn (t g : nat)
  | EvGenoThrow (t g : nat)
  | EvWrite (t g : nat) (output : Json)
      (* the record of graph [g] was appended to the combined stream *).

(** ** The blocks of the workers *)

(** Modelled from the spec: [ASYNC_BLOCK_WITH_CLEANUP(cleanup)], a macro of
    common/Threads.hh, which is not at hand.  The block that follows it runs
    as written, a [break] in it leaving the loop around it; when the block
    is left, [cleanup(failure)] is called, [failure] telling whether it is
    left by an exception, and the exception goes on to the caller: a worker
    that catches a failure of a collaborator sets the termination flag
    before the failure propagates.  Both workers pass the cleanup
    [terminate_ |= failure]; [block_exit failure w] is [w] after it. *)
Definition block_exit (failure : bool) (w : Workflow) : Workflow :=
  set_terminate w (terminate_ w || failure).

(** ** [Workflow::alignSamples] *)

(** Where a worker of the alignment phase stands. *)
Inductive align_pc : Type :=
  | ALoop (i : nat) (reader : bool)
      (* waiting for [mutex_] at sample [i]: about to enter the body of the
         [for] loop ([reader = false]; at entry, with [i = 0]), or back from
         the aligner with the [reader] of the sample in hand, about to test
         its [while] again ([reader = true]) *)
  | ACall (i g : nat)
      (* [mutex_] released, [alignSingleSample] running for sample [i], graph [g] *)
  | AReturned
  | AThrown.

(** How a critical section of [alignSamples] ends. *)
Inductive claim_result : Type :=
  | Claimed (i g : nat)
      (* graph [g] of sample [i] goes to the aligner, [mutex_] is released *)
  | NothingLeft
      (* the [for] loop came to its end *)
  | ReaderThrew
      (* the constructor of a [BamReader] threw: outside the block, so the
         cleanup is not run *).

(** The loops of [alignSamples] from sample [i] on, run with [mutex_] held,
    up to the next release: [us] holds the samples from [i] on, [reader]
    tells whether the reader of sample [i] is open already.  The body of the
    [for] loop opens the reader of its sample, whether or not the sample has
    graphs left.  In the [while] the cursor is advanced first and
    [terminate_] is looked at next; [break] leaves the [while] of the
    current sample only, the block being left without a failure, which
    leaves [terminate_] as it is.  Returns the samples, how the section
    ends, and the events. *)
Fixpoint claimFrom (E : nat) (terminate : bool) (referencePath : string) (t i : nat)
    (reader : bool) (us : list UnalignedSample)
    : list UnalignedSample * claim_result * list event :=
  match us with
  | [] => ([], NothingLeft, [])
  | u :: rest =>
      if reader || openReader (filename (sample_ u)) (index_filename (sample_ u)) referencePath
      then
        if unprocessedGraphs_ u =? E then
          let '(rest', r, evs) := claimFrom E terminate referencePath t (S i) false rest in
          (u :: rest', r, evs)
        else
          let ourGraph := unprocessedGraphs_ u in
          let u' := mkUnalignedSample (sample_ u) (S ourGraph) in
          if terminate then
            let '(rest', r, evs) := claimFrom E terminate referencePath t (S i) false rest in
            (u' :: rest', r, evs ++ [EvAlignClaim t i ourGraph])
          else
            (u' :: rest, Claimed i ourGraph, [EvAlignClaim t i ourGraph])
      else (u :: rest, ReaderThrew, [EvReaderThrow t i])
  end.

(** One critical section of [alignSamples], entered at sample [i]. *)
Definition alignSamples_locked (t i : nat) (reader : bool) (w : Workflow)
    : Workflow * align_pc * list event :=
  let us := unalignedSamples_ w in
  let '(rest', r, evs) :=
    claimFrom (graphs_end w) (terminate_ w) (referencePath_ (settings w)) t i reader
      (drop i us) in
  (set_unalignedSamples w (take i us ++ rest'),
   match r with
   | Claimed j g => ACall j g
   | NothingLeft => AReturned
   | ReaderThrew => AThrown
   end,
   evs).

(** The body of the block of [alignSamples] once the mutex is released: the
    two bounds-checked [at] calls, the aligner on the slot, and on the way
    out, after [unlock_guard] took the mutex back, the cleanup. *)
Definition alignSamples_unlocked (t i g : nat) (w : Workflow)
    : Workflow * align_pc * list event :=
  let thrown := (block_exit true w, AThrown, [EvAlignThrow t i g]) in
  match alignedSamples_ w !! g with
  | None => thrown
  | Some row =>
      match row !! i with
      | None => thrown
      | Some slot =>
          let graphPath := default EmptyString (graphSpecPaths_ (settings w) !! g) in
          let '(slot', ok) := alignSingleSample graphPath (referencePath_ (settings w)) slot in
          let w' := set_alignedSamples w (<[g := <[i := slot']> row]> (alignedSamples_ w)) in
          if ok then
            (block_exit false w', ALoop i true,
             [EvAlignReturn t i g; EvAlignCall t i g graphPath slot])
          else
            (block_exit true w', AThrown,
             [EvAlignThrow t i g; EvAlignCall t i g graphPath slot])
      end
  end.

(** A move of worker [t] of the alignment phase. *)
Definition align_step (t : nat) (pc : align_pc) (w : Workflow)
    : Workflow * align_pc * list event :=
  match pc with
  | ALoop i reader => alignSamples_locked t i reader w
  | ACall i g => alignSamples_unlocked t i g w
  | AReturned => (w, AReturned, [])
  | AThrown => (w, AThrown, [])
  end.

(** ** [Workflow::genotypeGraphs] and [Workflow::run] *)

(** Where a worker of the genotyping phase stands. *)
Inductive geno_pc : Type :=
  | GLoop (pending : option (nat * Json))
      (* waiting for [mutex_]: at entry ([None]), or at the end of the block
         for row [g], holding its [output], before the write to the stream *)
  | GCall (g : nat)
      (* [mutex_] released, [countAndGenotype] running for row [g] *)
  | GReturned
  | GThrown.

(** The pool of [run]: which phase runs with which workers, or how [run]
    ended ([Failed]: left by an exception). *)
Inductive pool_state : Type :=
  | Aligning (ths : list align_pc)
  | Genotyping (ths : list geno_pc)
  | Finished
  | Failed.

(** The state of a run: the [Workflow] object, the locals of [run] ([fos]:
    the characters written to the combined stream so far;
    [ungenotypedSamples]: the iterator into [alignedSamples_], as an
    offset), the files [makeOutputFile] wrote (newest first), and the
    events so far (newest first). *)
Record RunState : Type := mkRunState {
  workflow : Workflow;
  fos : string;
  ungenotypedSamples : nat;
  outputFiles : list (string * string);
  pool : pool_state;
  trace : list event;
}.

Definition set_pool (st : RunState) (p : pool_state) : RunState :=
  mkRunState (workflow st) (fos st) (ungenotypedSamples st) (outputFiles st) p (trace st).

(** [!outputFilePath_.empty()] *)
Definition has_outputFile (s : Settings) : bool :=
  negb (String.eqb (outputFilePath_ s) EmptyString).

(** [!outputFilePath_.empty() && 1 < graphSpecPaths_.size()] *)
Definition framed (s : Settings) : bool :=
  has_outputFile s && (1 <? length (graphSpecPaths_ s)).

(** The tail of an iteration of [genotypeGraphs], after the block: the
    record goes to the combined stream, after a comma unless it is the first
    one. *)
Definition write_pending (t : nat) (pending : option (nat * Json)) (st : RunState)
    : RunState :=
  match pending with
  | None => st
  | Some (g, output) =>
      let w := workflow st in
      if has_outputFile (settings w) then
        mkRunState (set_firstPrinted w true)
          (fos st +:+ (if firstPrinted_ w then "," else EmptyString) +:+ writeJson output)
          (ungenotypedSamples st) (outputFiles st) (pool st)
          (EvWrite t g output :: trace st)
      else st
  end.

(** One critical section of [genotypeGraphs]: the tail of the previous
    iteration if there was one, then the [while] test, the claim
    [ungenotypedSamples++], and the look at [terminate_]; [break] leaves
    the loop and the function, the block being left without a failure. *)
Definition genotypeGraphs_locked (t : nat) (pending : option (nat * Json)) (st : RunState)
    : RunState * geno_pc :=
  let st1 := write_pending t pending st in
  let w := workflow st1 in
  if ungenotypedSamples st1 =? length (alignedSamples_ w) then
    (st1, GReturned)
  else
    let graphIndex := ungenotypedSamples st1 in
    let st2 := mkRunState w (fos st1) (S graphIndex) (outputFiles st1) (pool st1)
                 (EvGenoClaim t graphIndex :: trace st1) in
    if terminate_ w then (st2, GReturned) else (st2, GCall graphIndex).

(** [Workflow::makeOutputFile]: the path of the file of a graph. *)
Definition outputPath (s : Settings) (graphSpecPath : string) : string :=
  path_append (outputFolderPath_ s) (path_filename graphSpecPath)
    +:+ (if gzipOutput_ s then ".gz" else EmptyString).

(** A worker of the genotyping phase leaves its block by an exception: the
    cleanup sets [terminate_]. *)
Definition geno_thrown (t g : nat) (evs : list event) (st : RunState) : RunState * geno_pc :=
  (mkRunState (block_exit true (workflow st)) (fos st) (ungenotypedSamples st)
     (outputFiles st) (pool st) (EvGenoThrow t g :: evs ++ trace st),
   GThrown).

(** [graphSpecPaths_.empty() ? std::string() : graphSpecPaths_.at(graphIndex)];
    [None] when [at] throws. *)
Definition graphSpecPath_of (s : Settings) (graphIndex : nat) : option string :=
  if length (graphSpecPaths_ s) =? 0 then Some EmptyString
  else graphSpecPaths_ s !! graphIndex.

(** The body of the [ASYNC_BLOCK_WITH_CLEANUP] of [genotypeGraphs] once the
    mutex is released. *)
Definition genotypeGraphs_unlocked (t g : nat) (st : RunState) : RunState * geno_pc :=
  let w := workflow st in
  let s := settings w in
  match graphSpecPath_of s g with
  | None => geno_thrown t g [] st
  | Some graphSpecPath =>
      let samples := default [] (alignedSamples_ w !! g) in
      let call := EvGenoCall t g graphSpecPath samples in
      match countAndGenotype graphSpecPath (referencePath_ s)
              (genotypingParameterPath_ s) samples with
      | None => geno_thrown t g [call] st
      | Some output =>
          let done files :=
            (mkRunState (block_exit false w) (fos st) (ungenotypedSamples st) files (pool st)
               (EvGenoReturn t g :: call :: trace st),
             GLoop (Some (g, output))) in
          if negb (String.eqb (outputFolderPath_ s) EmptyString) then
            if canOpen (outputPath s graphSpecPath) then
              done ((outputPath s graphSpecPath, writeJson output) :: outputFiles st)
            else geno_thrown t g [call] st
          else done (outputFiles st)
      end
  end.

(** A move of worker [t] of the genotyping phase. *)
Definition geno_step (t : nat) (pc : geno_pc) (st : RunState) : RunState * geno_pc :=
  match pc with
  | GLoop pending => genotypeGraphs_locked t pending st
  | GCall g => genotypeGraphs_unlocked t g st
  | GReturned => (st, GReturned)
  | GThrown => (st, GThrown)
  end.

Definition align_terminal (pc : align_pc) : bool :=
  match pc with AReturned | AThrown => true | _ => false end.

Definition align_thrown (pc : align_pc) : bool :=
  match pc with AThrown => true | _ => false end.

Definition geno_terminal (pc : geno_pc) : bool :=
  match pc with GReturned | GThrown => true | _ => false end.

Definition geno_thrown_pc (pc : geno_pc) : bool :=
  match pc with GThrown => true | _ => false end.

(** Modelled from the spec: [common::CPU_THREADS(n).execute(task)], whose
    source (common/Threads.hh) is not at hand.  It runs [n] workers, each
    running the task to completion, and blocks the caller until all of them
    have returned; a failure inside one worker does not abort the pool, it
    is surfaced to the caller after the join.  The spec has it surfaced by
    a look at the termination flag; the pool knows nothing of the flag of
    the workflow and [run] never reads it, so the pool is taken to hand on
    the exception that a worker was left by, which comes to the same for
    every failure inside a block ([pool_failure_is_flag] below).
    [execute_joined] is the join condition,
    [execute_failed] whether the pool hands a failure on. *)
Definition execute_joined {pc : Type} (terminal : pc → bool) (ths : list pc) : bool :=
  forallb terminal ths.

Definition execute_failed {pc : Type} (thrown : pc → bool) (ths : list pc) : bool :=
  existsb thrown ths.

(** [Workflow::run] up to the first [execute]: the sink is opened (a file
    that cannot be opened is an [error]), the opening bracket is written,
    and the alignment pool starts. *)
Definition run_start (w : Workflow) : RunState :=
  let s := settings w in
  let n := threads (parameters_ s) in
  if has_outputFile s && negb (String.eqb (outputFilePath_ s) "-")
     && negb (canOpen (outputFilePath_ s)) then
    mkRunState w EmptyString 0 [] Failed []
  else
    mkRunState w (if framed s then "[" else EmptyString) 0 []
      (Aligning (replicate n (ALoop 0 false))) [].

(** One move of the run, [t] being the thread the scheduler picks.  While a
    pool has unfinished workers, worker [t] moves.  Once all workers of a
    pool are done, [run] goes on: from the alignment pool to the genotyping
    pool ([ungenotypedSamples = alignedSamples_.begin()]), from the
    genotyping pool to the closing bracket and the end. *)
Definition tick (t : nat) (st : RunState) : RunState :=
  let s := settings (workflow st) in
  match pool st with
  | Aligning ths =>
      if execute_joined align_terminal ths then
        if execute_failed align_thrown ths then set_pool st Failed
        else mkRunState (workflow st) (fos st) 0 (outputFiles st)
               (Genotyping (replicate (threads (parameters_ s)) (GLoop None))) (trace st)
      else
        match ths !! t with
        | None => st
        | Some pc =>
            let '(w', pc', evs) := align_step t pc (workflow st) in
            mkRunState w' (fos st) (ungenotypedSamples st) (outputFiles st)
              (Aligning (<[t := pc']> ths)) (evs ++ trace st)
        end
  | Genotyping ths =>
      if execute_joined geno_terminal ths then
        if execute_failed geno_thrown_pc ths then set_pool st Failed
        else mkRunState (workflow st)
               (fos st +:+ (if framed s then "]" +:+ String "010"%char EmptyString else EmptyString))
               (ungenotypedSamples st) (outputFiles st) Finished (trace st)
      else
        match ths !! t with
        | None => st
        | Some pc =>
            let '(st', pc') := geno_step t pc st in
            set_pool st' (Genotyping (<[t := pc']> ths))
        end
  | Finished => st
  | Failed => st
  end.

(** The run under a schedule. *)
Definition exec (sched : list nat) (st : RunState) : RunState :=
  foldl (λ st t, tick t st) st sched.

(** The states a run of [w] goes through. *)
Definition reachable (w : Workflow) (st : RunState) : Prop :=
  ∃ sched, st = exec sched (run_start w).

(** ** [grmpy.cpp]: options, [runGrmpy], [main] *)

(** The [variables_map] after parsing: what was given on the command line
    ([None]: [vm.count(...) == 0]) or takes its default. *)
Record VariablesMap : Type := mkVariablesMap {
  vm_reference : option string;
  vm_graph_spec : option (list string);
  vm_genotyping_parameters : option string;
  vm_manifest : option string;
  vm_output_file : option string;
  vm_output_folder : option string;
  vm_alignment_output_folder : string;
  vm_sample_threads : nat;
  vm_gzip_output : bool;
  vm_progress : bool;
}.

(** The members of [Options] that [runGrmpy] hands to the workflow. *)
Record Options : Type := mkOptions {
  reference_path : string;
  graph_spec_paths : list string;
  output_file_path : string;
  output_folder_path : string;
  manifest : Samples;
  genotyping_parameter_path : string;
  sample_threads : nat;
  alignment_output_path : string;
  gzip_output : bool;
  progress : bool;
}.

(** The ways [postProcess] ends in [error(...)], in a failed check or in an
    exception of the file system. *)
Inductive OptionError : Type :=
  | ReferenceMissing
  | FileNotFound (path : string)
  | FileNamesNotUnique
  | AlignmentOutputExists (path : string)
  | DirectoryNotCreated (path : string)
  | ManifestNotLoaded (path : string)
  | NoGraphsAndEmptyParagraphColumn (name : string)
  | PreAlignedWithSeveralGraphs (graphs : nat)
  | ManifestMissing.

(** Modelled from the spec: [error(format, ...)] of common/Error.hh, which
    is not at hand.  It raises an exception with the formatted message: an
    input error and a sink error are fatal.  [inr e]: the function is left
    by the exception. *)
Definition error {A : Type} (e : OptionError) : A + OptionError := inr e.

(** Modelled from the spec: [assertFileExists], [assertFilesExist] and
    [assertFileNamesUnique], declared in a header that is not at hand.  As
    input checks they are fatal when they fail: [Some e] is the error
    raised when the file does not exist, resp. one of the files does not
    exist, resp. two of the paths have the same file name. *)
Definition assertFileExists (path : string) : option OptionError :=
  if fileExists path then None else Some (FileNotFound path).

Fixpoint assertFilesExist (paths : list string) : option OptionError :=
  match paths with
  | [] => None
  | path :: rest =>
      match assertFileExists path with
      | Some e => Some e
      | None => assertFilesExist rest
      end
  end.

Fixpoint names_unique (names : list string) : bool :=
  match names with
  | [] => true
  | name :: rest => negb (existsb (String.eqb name) rest) && names_unique rest
  end.

Definition assertFileNamesUnique (paths : list string) : option OptionError :=
  if names_unique (path_filename <$> paths) then None else Some FileNamesNotUnique.

(** The first sample of the manifest with (resp. without) alignment data. *)
Definition first_unaligned (m : Samples) : option SampleInfo :=
  List.find (λ sample, isNull (get_alignment_data sample)) m.

Definition first_prealigned (m : Samples) : option SampleInfo :=
  List.find (λ sample, negb (isNull (get_alignment_data sample))) m.

(** The manifest branch of [postProcess]: the two loops over the samples,
    each calling [error] at the first sample it objects to. *)
Definition check_manifest (graphs : list string) (m : Samples) : unit + OptionError :=
  if length graphs =? 0 then
    match first_unaligned m with
    | Some sample => error (NoGraphsAndEmptyParagraphColumn (sample_name sample))
    | None => inl ()
    end
  else if 1 <? length graphs then
    match first_prealigned m with
    | Some _ => error (PreAlignedWithSeveralGraphs (length graphs))
    | None => inl ()
    end
  else inl ().

(** The alignment output folder: a leading ['!'] forces the use of an
    existing directory and is dropped from the path; a directory that is
    not there yet is created, which can throw. *)
Definition check_alignment_output (path : string) : string + OptionError :=
  match path with
  | EmptyString => inl path
  | String c rest =>
      let force := Ascii.eqb c "!"%char in
      let path' := if force then rest else path in
      let dir_already_exists := is_directory path' in
      if negb force && dir_already_exists then error (AlignmentOutputExists path')
      else if negb dir_already_exists && negb (create_directory path') then
        inr (DirectoryNotCreated path')
      else inl path'
  end.

(** [Options::postProcess].  [inr e]: left by the exception [e], of
    [error], of a failed check, of [create_directory] or of
    [loadManifest]. *)
Definition postProcess (vm : VariablesMap) : Options + OptionError :=
  match vm_reference vm with
  | None => error ReferenceMissing
  | Some reference =>
  match assertFileExists reference with
  | Some e => inr e
  | None =>
  let graphs := default [] (vm_graph_spec vm) in
  match (match vm_graph_spec vm with
         | None => None
         | Some paths =>
             match assertFilesExist paths with
             | Some e => Some e
             | None =>
                 match vm_output_folder vm with
                 | Some _ => assertFileNamesUnique paths
                 | None => None
                 end
             end
         end) with
  | Some e => inr e
  | None =>
  let output_file := default EmptyString (vm_output_file vm) in
  let output_file :=
    if String.eqb output_file EmptyString && negb (bool_decide (is_Some (vm_output_folder vm)))
    then "-"%string else output_file in
  let output_folder := default EmptyString (vm_output_folder vm) in
  if negb (String.eqb output_folder EmptyString) && negb (create_directory output_folder)
  then inr (DirectoryNotCreated output_folder) else
  match check_alignment_output (vm_alignment_output_folder vm) with
  | inr e => inr e
  | inl alignment_output =>
  match vm_manifest vm with
  | None => error ManifestMissing
  | Some manifest_path =>
  match assertFileExists manifest_path with
  | Some e => inr e
  | None =>
  match loadManifest manifest_path with
  | None => inr (ManifestNotLoaded manifest_path)
  | Some m =>
  match check_manifest graphs m with
  | inr e => inr e
  | inl _ =>
      inl (mkOptions reference graphs output_file
             (default EmptyString (vm_output_folder vm)) m
             (default EmptyString (vm_genotyping_parameters vm))
             (vm_sample_threads vm) alignment_output
             (vm_gzip_output vm) (vm_progress vm))
  end end end end end end end end.

(** The arguments [runGrmpy] constructs the [Workflow] from. *)
Definition workflow_settings (o : Options) : Settings :=
  mkSettings (graph_spec_paths o) (genotyping_parameter_path o) (manifest o)
    (output_file_path o) (output_folder_path o) (gzip_output o)
    (mkParameters (sample_threads o)) (reference_path o) (progress o).

(** How a call of [runGrmpy] stands under a schedule: the pool still has
    work, or [run] returned, or [run] was left by an exception, or the
    constructor's assertion aborted the process. *)
Inductive RunResult : Type :=
  | StillRunning (st : RunState)
  | Returned (st : RunState)
  | Thrown (st : RunState)
  | Aborted.

(** [runGrmpy]: construct the workflow and [run] it (the line it writes to
    [std::cerr] before is left out). *)
Definition runGrmpy (o : Options) (sched : list nat) : RunResult :=
  match Workflow_new (workflow_settings o) with
  | None => Aborted
  | Some w =>
      let st := exec sched (run_start w) in
      match pool st with
      | Finished => Returned st
      | Failed => Thrown st
      | _ => StillRunning st
      end
  end.

(** The completion status of the process; only whether it is zero matters. *)
Inductive ExitStatus : Type :=
  | StatusZero
  | StatusNonZero.

(** How the process stands under a schedule; [final] is the state the
    workflow was left in, if one was constructed. *)
Inductive Outcome : Type :=
  | NotExited (st : RunState)
  | Exited (status : ExitStatus) (final : option RunState).

(** Modelled from the spec: [common::run(callback, name, argc, argv)], whose
    source (common/Program.hh) is not at hand.  It parses and post-processes
    the options and, if that went through, calls the callback; an input
    error is fatal, and a failure that the callback surfaces makes the
    completion status non-zero.  [inl]: it returned to [main]. *)
Definition common_run (vm : VariablesMap) (sched : list nat) : RunState + Outcome :=
  match postProcess vm with
  | inr _ => inr (Exited StatusNonZero None)
  | inl o =>
      match runGrmpy o sched with
      | StillRunning st => inr (NotExited st)
      | Returned st => inl st
      | Thrown st => inr (Exited StatusNonZero (Some st))
      | Aborted => inr (Exited StatusNonZero None)
      end
  end.

(** [main]: [common::run(runGrmpy, ...); return 0;] *)
Definition main (vm : VariablesMap) (sched : list nat) : Outcome :=
  match common_run vm sched with
  | inl st => Exited StatusZero (Some st)
  | inr out => out
  end.

(** * Vocabulary of the properties *)

(** Events of the alignment phase, events of the genotyping phase. *)
Definition is_align_event (e : event) : bool :=
  match e with
  | EvAlignClaim _ _ _ | EvAlignCall _ _ _ _ _ | EvAlignReturn _ _ _ | EvAlignThrow _ _ _
  | EvReaderThrow _ _ => true
  | _ => false
  end.

Definition is_geno_event (e : event) : bool := negb (is_align_event e).

Definition is_align_claim (i g : nat) (e : event) : bool :=
  match e with
  | EvAlignClaim _ i' g' => (i' =? i) && (g' =? g)
  | _ => false
  end.

Definition is_align_call (i g : nat) (e : event) : bool :=
  match e with
  | EvAlignCall _ i' g' _ _ => (i' =? i) && (g' =? g)
  | _ => false
  end.

Definition is_align_return (i g : nat) (e : event) : bool :=
  match e with
  | EvAlignReturn _ i' g' => (i' =? i) && (g' =? g)
  | _ => false
  end.

(** An aligner call failed; a reader could not be opened; either of them: a
    failure in the alignment phase. *)
Definition is_align_throw (e : event) : bool :=
  match e with
  | EvAlignThrow _ _ _ => true
  | _ => false
  end.

Definition is_reader_throw (e : event) : bool :=
  match e with
  | EvReaderThrow _ _ => true
  | _ => false
  end.

Definition is_align_failure (e : event) : bool := is_align_throw e || is_reader_throw e.

Definition is_geno_call (e : event) : bool :=
  match e with
  | EvGenoCall _ _ _ _ => true
  | _ => false
  end.

Definition is_geno_throw (e : event) : bool :=
  match e with
  | EvGenoThrow _ _ => true
  | _ => false
  end.

Definition is_write (e : event) : bool :=
  match e with
  | EvWrite _ _ _ => true
  | _ => false
  end.

(** A failure of a collaborator in either phase. *)
Definition is_throw (e : event) : bool := is_align_failure e || is_geno_throw e.

(** The worker is inside [alignSingleSample] for sample [i], graph [g]. *)
Definition align_in_flight (i g : nat) (pc : align_pc) : bool :=
  match pc with
  | ACall i' g' => (i' =? i) && (g' =? g)
  | _ => false
  end.

(** Does sample [i] of the manifest need aligning against graph [g]? *)
Definition needs_alignment (s : Settings) (i g : nat) : bool :=
  match manifest_ s !! i with
  | Some sample => isNull (get_alignment_data sample) && (g <? length (graphSpecPaths_ s))
  | None => false
  end.

(** The cursor of sample [i], where it started, and whether graph [g] of
    sample [i] has been handed out. *)
Definition cursor_at (w : Workflow) (i : nat) : option nat :=
  unprocessedGraphs_ <$> unalignedSamples_ w !! i.

Definition start_at (s : Settings) (i : nat) : option nat :=
  initial_cursor (graphSpecPaths_ s) <$> manifest_ s !! i.

Definition claimed (s : Settings) (w : Workflow) (i g : nat) : bool :=
  match start_at s i, cursor_at w i with
  | Some c0, Some c => (c0 <=? g) && (g <? c)
  | _, _ => false
  end.

(** The records written to the combined stream, oldest first: the graph
    index and the output. *)
Fixpoint written_newest_first (tr : list event) : list (nat * Json) :=
  match tr with
  | [] => []
  | EvWrite _ g output :: tr' => (g, output) :: written_newest_first tr'
  | _ :: tr' => written_newest_first tr'
  end.

Definition written (tr : list event) : list (nat * Json) :=
  rev (written_newest_first tr).

(** The brackets [run] puts around the records. *)
Definition frame_open (s : Settings) : string :=
  if framed s then "[" else EmptyString.

Definition frame_close (s : Settings) : string :=
  if framed s then "]" +:+ String "010"%char EmptyString else EmptyString.

(** What the genotyper makes of row [g] of the table of [w]. *)
Definition genotype_of (w : Workflow) (g : nat) : option Json :=
  match graphSpecPath_of (settings w) g with
  | Some graphSpecPath =>
      countAndGenotype graphSpecPath (referencePath_ (settings w))
        (genotypingParameterPath_ (settings w)) (default [] (alignedSamples_ w !! g))
  | None => None
  end.

(** The worker holds row [g]: in the genotyper, or with its output in hand. *)
Definition geno_busy (pc : geno_pc) : bool :=
  match pc with
  | GCall _ | GLoop (Some _) => true
  | _ => false
  end.

Definition geno_in_call (pc : geno_pc) : bool :=
  match pc with
  | GCall _ => true
  | _ => false
  end.

(** Advancing a cursor: [input.unprocessedGraphs_++]. *)
Definition advance (u : UnalignedSample) : UnalignedSample :=
  mkUnalignedSample (sample_ u) (S (unprocessedGraphs_ u)).

(** The slot of sample [i] in the row of graph [g]. *)
Definition slot_at (w : Workflow) (g i : nat) : option SampleInfo :=
  alignedSamples_ w !! g ≫= (.!! i).

(** Every cursor below sample [i] is at the end. *)
Definition cursors_done_below (w : Workflow) (i : nat) : Prop :=
  ∀ j u, j < i → unalignedSamples_ w !! j = Some u → unprocessedGraphs_ u = graphs_end w.

(** What a worker knows where it stands (as long as nothing was thrown): a
    worker at sample [i] has seen the cursors below [i] at the end, a worker
    that returned has seen all of them at the end. *)
Definition align_pc_ok (w : Workflow) (pc : align_pc) : Prop :=
  match pc with
  | ALoop i _ | ACall i _ => cursors_done_below w i
  | AReturned => cursors_done_below w (length (unalignedSamples_ w))
  | AThrown => False
  end.

(** The alignment phase while nothing has been thrown: the cursors lie
    between their start and the end, the claims in the trace are the graphs
    the cursors went over, each once, every claim is either returned or in
    flight, and calls and returns pair up. *)
Definition align_facts (s : Settings) (w : Workflow) (ths : list align_pc)
    (tr : list event) : Prop :=
  terminate_ w = false
  ∧ Forall (align_pc_ok w) ths
  ∧ (∀ i u, unalignedSamples_ w !! i = Some u →
       ∃ sample, manifest_ s !! i = Some sample
         ∧ initial_cursor (graphSpecPaths_ s) sample ≤ unprocessedGraphs_ u
         ∧ unprocessedGraphs_ u ≤ length (graphSpecPaths_ s))
  ∧ (∀ i g, count (is_align_claim i g) tr = Nat.b2n (claimed s w i g)
          ∧ count (is_align_return i g) tr + count (align_in_flight i g) ths
            = count (is_align_claim i g) tr
          ∧ count (is_align_call i g) tr = count (is_align_return i g) tr).

(** The alignment phase is over and went through: nothing was thrown,
    every claim was called and has returned, and with at least one worker
    each pair that needed it was claimed once. *)
Definition settled (s : Settings) (tr : list event) : Prop :=
  count is_align_failure tr = 0
  ∧ ∀ i g, count (is_align_call i g) tr = count (is_align_claim i g) tr
         ∧ count (is_align_return i g) tr = count (is_align_claim i g) tr
         ∧ (1 ≤ threads (parameters_ s) →
            count (is_align_claim i g) tr = Nat.b2n (needs_alignment s i g)).

Definition align_inv (s : Settings) (st : RunState) : Prop :=
  match pool st with
  | Aligning ths =>
      length ths = threads (parameters_ s)
      ∧ Forall (λ e, is_align_event e = true) (trace st)
      ∧ (0 < count is_align_failure (trace st) → 0 < count align_thrown ths)
      ∧ (count is_align_failure (trace st) = 0 → align_facts s (workflow st) ths (trace st))
  | Genotyping _ | Finished => settled s (trace st)
  | Failed => 0 < count is_geno_event (trace st) → settled s (trace st)
  end.

(** The alignment phase is over: the pool of [run] is past it, and if [run]
    failed, it failed in the genotyping phase. *)
Definition alignment_over (st : RunState) : Prop :=
  match pool st with
  | Aligning _ => False
  | Failed => 0 < count is_geno_event (trace st)
  | _ => True
  end.

(** The trace is the events of the genotyping phase on top of those of the
    alignment phase, and the former start only once the alignment pool is
    joined. *)
Definition phase_inv (st : RunState) : Prop :=
  ∃ gpart apart,
    trace st = gpart ++ apart
    ∧ Forall (λ e, is_geno_event e = true) gpart
    ∧ Forall (λ e, is_align_event e = true) apart
    ∧ match pool st with Aligning _ => gpart = [] | _ => True end.

(** The serialised records of the stream, oldest first. *)
Definition records (tr : list event) : list string :=
  (λ r, writeJson r.2) <$> written tr.

Definition nonempty {A : Type} (l : list A) : bool :=
  match l with [] => false | _ => true end.

(** A record is the genotyper's output for its row. *)
Definition record_ok (w : Workflow) (r : nat * Json) : Prop :=
  genotype_of w r.1 = Some r.2.

(** What holds of a worker of the genotyping phase where it stands. *)
Definition geno_pc_ok (st : RunState) (pc : geno_pc) : Prop :=
  match pc with
  | GLoop (Some r) => record_ok (workflow st) r
  | GReturned =>
      terminate_ (workflow st) = false →
      ungenotypedSamples st = length (alignedSamples_ (workflow st))
  | _ => True
  end.

(** The genotyping phase: the stream is the opening bracket and the records
    written so far, comma-separated; [firstPrinted_] tells whether there is
    one; each record is the genotyper's output for its row; a set
    [terminate_] or a logged throw comes with a thrown worker; and as long
    as nothing was thrown, every row the cursor went over is written or
    held by a worker. *)
Definition geno_facts (s : Settings) (st : RunState) (ths : list geno_pc) : Prop :=
  fos st = frame_open s +:+ join "," (records (trace st))
  ∧ firstPrinted_ (workflow st) = nonempty (written (trace st))
  ∧ Forall (record_ok (workflow st)) (written (trace st))
  ∧ Forall (geno_pc_ok st) ths
  ∧ (terminate_ (workflow st) = true ∨ 0 < count is_geno_throw (trace st) →
     0 < count geno_thrown_pc ths)
  ∧ (has_outputFile s = false → written (trace st) = [])
  ∧ (terminate_ (workflow st) = false →
     ungenotypedSamples st ≤ length (alignedSamples_ (workflow st))
     ∧ (has_outputFile s = true →
        length (written (trace st)) + count geno_busy ths = ungenotypedSamples st)).

Definition geno_inv (s : Settings) (st : RunState) : Prop :=
  match pool st with
  | Aligning _ =>
      fos st = frame_open s ∧ firstPrinted_ (workflow st) = false
      ∧ Forall (λ e, is_align_event e = true) (trace st)
  | Genotyping ths =>
      length ths = threads (parameters_ s) ∧ geno_facts s st ths
  | Finished =>
      fos st = frame_open s +:+ join "," (records (trace st)) +:+ frame_close s
      ∧ Forall (record_ok (workflow st)) (written (trace st))
      ∧ terminate_ (workflow st) = false
      ∧ count is_geno_throw (trace st) = 0
      ∧ (has_outputFile s = false → written (trace st) = [])
      ∧ (1 ≤ threads (parameters_ s) → has_outputFile s = true →
         length (written (trace st)) = length (alignedSamples_ (workflow st)))
  | Failed => True
  end.

(** A pre-aligned sample at position [i] of the manifest: its cursor is at
    the end, no claim and no aligner call was logged for it, no worker is
    in the aligner for it, and its slot in every row still holds it. *)
Definition prealigned_inv (s : Settings) (i : nat) (sample : SampleInfo)
    (st : RunState) : Prop :=
  unalignedSamples_ (workflow st) !! i
  = Some (mkUnalignedSample sample (length (graphSpecPaths_ s)))
  ∧ (∀ g, count (is_align_claim i g) (trace st) = 0
          ∧ count (is_align_call i g) (trace st) = 0)
  ∧ (∀ g, g < Nat.max 1 (length (graphSpecPaths_ s)) →
          slot_at (workflow st) g i = Some sample)
  ∧ match pool st with
    | Aligning ths => Forall (λ pc, ∀ g, pc ≠ ACall i g) ths
    | _ => True
    end.

(** With one worker and a combined stream: the rows written so far are
    [0 .. k-1] in this order, and the worker is at row [k]. *)
Definition single_pc_ok (st : RunState) (k : nat) (pc : geno_pc) : Prop :=
  match pc with
  | GLoop None => ungenotypedSamples st = k
  | GLoop (Some r) => r.1 = k ∧ ungenotypedSamples st = S k
  | GCall g => g = k ∧ ungenotypedSamples st = S k
  | _ => True
  end.

Definition single_inv (s : Settings) (st : RunState) : Prop :=
  match pool st with
  | Aligning _ => written (trace st) = []
  | Genotyping ths =>
      ∃ k, (fst <$> written (trace st)) = seq 0 k
           ∧ (has_outputFile s = true → ∀ pc, ths = [pc] → single_pc_ok st k pc)
  | _ => ∃ k, (fst <$> written (trace st)) = seq 0 k
  end.

(** The genotyper calls of a run without graph specs: row 0, the empty
    path, the manifest. *)
Definition no_graph_call (s : Settings) (e : event) : Prop :=
  ∀ t g path samples,
    e = EvGenoCall t g path samples → g = 0 ∧ path = EmptyString ∧ samples = manifest_ s.

(** Every reader of the manifest can be opened. *)
Definition readers_open (s : Settings) : Prop :=
  Forall (λ sample, openReader (filename sample) (index_filename sample) (referencePath_ s)
                    = true)
    (manifest_ s).

(** The samples of the cursors are those of the manifest, in its order, and
    no reader fails when every reader of the manifest can be opened. *)
Definition readers_inv (s : Settings) (st : RunState) : Prop :=
  sample_ <$> unalignedSamples_ (workflow st) = manifest_ s
  ∧ (readers_open s → count is_reader_throw (trace st) = 0).

(** A run without graph specs: no cursor ever moves and no worker ever is in
    the aligner; a worker of the alignment phase can only fail at a reader
    that does not open. *)
Definition no_graph_inv (s : Settings) (w : Workflow) (st : RunState) : Prop :=
  alignedSamples_ (workflow st) = [manifest_ s]
  ∧ unalignedSamples_ (workflow st) = initial_unaligned [] <$> manifest_ s
  ∧ Forall (no_graph_call s) (trace st)
  ∧ count is_geno_call (trace st) ≤ 1
  ∧ match pool st with
    | Aligning ths =>
        Forall (λ e, is_align_event e = true) (trace st)
        ∧ terminate_ (workflow st) = false
        ∧ Forall (λ pc, match pc with
                        | ACall _ _ => False
                        | AThrown => ¬ readers_open s
                        | _ => True
                        end) ths
    | Genotyping ths =>
        length ths = threads (parameters_ s)
        ∧ Forall (λ pc, ∀ g, pc = GCall g → g = 0) ths
        ∧ ((ungenotypedSamples st = 0 ∧ count is_geno_call (trace st) = 0
            ∧ terminate_ (workflow st) = false ∧ Forall (λ pc, pc = GLoop None) ths)
           ∨ (ungenotypedSamples st = 1
              ∧ count is_geno_call (trace st) + count geno_in_call ths = 1))
    | Finished => 1 ≤ threads (parameters_ s) → count is_geno_call (trace st) = 1
    | Failed =>
        (0 < count is_geno_event (trace st) → count is_geno_call (trace st) = 1)
        ∧ (readers_open s → pool (run_start w) ≠ Failed →
           0 < count is_geno_event (trace st))
    end.

(** [run] gets its sink: no output file is asked for, or it is the standard
    output, or the file can be opened. *)
Definition sink_opens (s : Settings) : bool :=
  negb (has_outputFile s && negb (String.eqb (outputFilePath_ s) "-")
        && negb (canOpen (outputFilePath_ s))).

(** A worker that has thrown has logged a failure, and [run] fails only for
    a sink that does not open or after a failure that a worker logged. *)
Definition failure_inv (s : Settings) (st : RunState) : Prop :=
  match pool st with
  | Aligning ths => 0 < count align_thrown ths → 0 < count is_align_failure (trace st)
  | Genotyping ths => 0 < count geno_thrown_pc ths → 0 < count is_geno_throw (trace st)
  | Finished => True
  | Failed => sink_opens s = false ∨ 0 < count is_throw (trace st)
  end.

(** The termination flag is set once a collaborator call has failed. *)
Definition flag_inv (st : RunState) : Prop :=
  0 < count is_align_throw (trace st) + count is_geno_throw (trace st) →
  terminate_ (workflow st) = true.

(** [run] is over. *)
Definition run_over (st : RunState) : bool :=
  match pool st with
  | Finished | Failed => true
  | _ => false
  end.

Fixpoint total {A : Type} (f : A → nat) (l : list A) : nat :=
  match l with
  | [] => 0
  | x :: l' => f x + total f l'
  end.

(** What is left to do: the graphs the cursors have not gone over, and what
    each worker has before it. *)
Definition graphs_left (w : Workflow) : nat :=
  total (λ u, graphs_end w - unprocessedGraphs_ u) (unalignedSamples_ w).

Definition align_weight (pc : align_pc) : nat :=
  match pc with
  | ALoop _ _ => 1
  | ACall _ _ => 2
  | _ => 0
  end.

Definition geno_weight (pc : geno_pc) : nat :=
  match pc with
  | GLoop _ => 1
  | GCall _ => 2
  | _ => 0
  end.

Definition work_left (st : RunState) : nat :=
  let rows := length (alignedSamples_ (workflow st)) in
  match pool st with
  | Aligning ths =>
      2 + 3 * rows + threads (parameters_ (settings (workflow st)))
      + 3 * graphs_left (workflow st) + total align_weight ths
  | Genotyping ths =>
      1 + 3 * (rows - ungenotypedSamples st) + total geno_weight ths
  | _ => 0
  end.

(** The cursors never pass the end. *)
Definition bounds_inv (st : RunState) : Prop :=
  Forall (λ u, unprocessedGraphs_ u ≤ graphs_end (workflow st))
    (unalignedSamples_ (workflow st))
  ∧ match pool st with
    | Genotyping _ => ungenotypedSamples st ≤ length (alignedSamples_ (workflow st))
    | _ => True
    end.

(** A move of thread [t] changes the state: [run] goes on past a pool that
    is joined, or worker [t] of the pool has not finished. *)
Definition can_move (t : nat) (st : RunState) : bool :=
  match pool st with
  | Aligning ths =>
      execute_joined align_terminal ths
      || match ths !! t with Some pc => negb (align_terminal pc) | None => false end
  | Genotyping ths =>
      execute_joined geno_terminal ths
      || match ths !! t with Some pc => negb (geno_terminal pc) | None => false end
  | _ => false
  end.

(** The scheduler: a schedule in rounds, each of which lets every one of
    the [n] workers move at least once, in any order and as often as it
    likes. *)
Definition covers (n : nat) (round : list nat) : bool :=
  forallb (λ t, existsb (Nat.eqb t) round) (seq 0 n).

Definition fair (n : nat) (rounds : list (list nat)) : bool :=
  forallb (covers n) rounds.

(** ** Sentences of the specification as they are worded *)

(** "Once the flag is set no further cursor claims occur": no move of a run
    whose termination flag is set advances a cursor. *)
Definition stops_claiming_once_terminated : Prop :=
  ∀ s w st t,
    Workflow_new s = Some w → reachable w st →
    terminate_ (workflow st) = true →
    ungenotypedSamples (tick t st) = ungenotypedSamples st
    ∧ unprocessedGraphs_ <$> unalignedSamples_ (workflow (tick t st))
      = unprocessedGraphs_ <$> unalignedSamples_ (workflow st).

(** "The stream is exactly ['['], the records separated by single commas,
    [']']", when the frame is written. *)
Definition framed_by_bare_brackets : Prop :=
  ∀ s w st,
    Workflow_new s = Some w → reachable w st → pool st = Finished →
    framed s = true →
    fos st = "[" +:+ join "," (records (trace st)) +:+ "]".

(** "A sample with a non-null alignment payload is never enqueued into the
    UnalignedSample sequence." *)
Definition prealigned_not_enqueued : Prop :=
  ∀ s w sample,
    Workflow_new s = Some w → sample ∈ manifest_ s →
    isNull (get_alignment_data sample) = false →
    sample ∉ sample_ <$> unalignedSamples_ w.

(** "For every run with N >= 1 worker threads in which no aligner call
    fails, every (sample, graph) pair that needs alignment is aligned
    exactly once", of the runs that came to their end. *)
Definition aligned_whenever_no_aligner_call_fails : Prop :=
  ∀ s w st,
    Workflow_new s = Some w → 1 ≤ threads (parameters_ s) →
    reachable w st → run_over st = true →
    count is_align_throw (trace st) = 0 →
    ∀ i g, needs_alignment s i g = true → count (is_align_call i g) (trace st) = 1.

(** "When the graph-spec list is empty, the genotyper is invoked exactly
    once", of the runs with a worker thread that came to their end. *)
Definition genotyper_called_once_without_graphs : Prop :=
  ∀ s w st,
    Workflow_new s = Some w → graphSpecPaths_ s = [] →
    1 ≤ threads (parameters_ s) →
    reachable w st → run_over st = true →
    count is_geno_call (trace st) = 1.

(** ** Rows, files and the table after the alignment *)

(** The number of rows of the table: [max(1, graphSpecPaths_.size())]. *)
Definition table_rows (s : Settings) : nat := Nat.max 1 (length (graphSpecPaths_ s)).

(** What the alignment phase makes of a sample of the manifest in the row of
    graph [g]: the aligner's rewriting of it if the pair needs alignment,
    the sample as it is otherwise. *)
Definition aligned_sample (s : Settings) (g : nat) (sample : SampleInfo) : SampleInfo :=
  if isNull (get_alignment_data sample) && (g <? length (graphSpecPaths_ s)) then
    (alignSingleSample (default EmptyString (graphSpecPaths_ s !! g)) (referencePath_ s)
       sample).1
  else sample.

Definition expected_row (s : Settings) (g : nat) : Samples :=
  aligned_sample s g <$> manifest_ s.

Definition expected_table (s : Settings) : list Samples :=
  expected_row s <$> seq 0 (table_rows s).

(** What the genotyper makes of such a row, and the file that
    [makeOutputFile] writes for it: its path and its content. *)
Definition expected_output (s : Settings) (g : nat) : option Json :=
  match graphSpecPath_of s g with
  | Some graphSpecPath =>
      countAndGenotype graphSpecPath (referencePath_ s) (genotypingParameterPath_ s)
        (expected_row s g)
  | None => None
  end.

Definition expected_file (s : Settings) (g : nat) : option (string * string) :=
  match graphSpecPath_of s g, expected_output s g with
  | Some graphSpecPath, Some output => Some (outputPath s graphSpecPath, writeJson output)
  | _, _ => None
  end.

(** Events of the alignment phase, whatever the pair. *)
Definition is_align_call_any (e : event) : bool :=
  match e with
  | EvAlignCall _ _ _ _ _ => true
  | _ => false
  end.

Definition is_align_return_any (e : event) : bool :=
  match e with
  | EvAlignReturn _ _ _ => true
  | _ => false
  end.

(** Events of the genotyping phase, for row [g] or whatever the row. *)
Definition is_geno_return (e : event) : bool :=
  match e with
  | EvGenoReturn _ _ => true
  | _ => false
  end.

Definition is_geno_claim_of (g : nat) (e : event) : bool :=
  match e with
  | EvGenoClaim _ g' => g' =? g
  | _ => false
  end.

Definition is_geno_call_of (g : nat) (e : event) : bool :=
  match e with
  | EvGenoCall _ g' _ _ => g' =? g
  | _ => false
  end.

Definition is_geno_return_of (g : nat) (e : event) : bool :=
  match e with
  | EvGenoReturn _ g' => g' =? g
  | _ => false
  end.

Definition is_write_of (g : nat) (e : event) : bool :=
  match e with
  | EvWrite _ g' _ => g' =? g
  | _ => false
  end.

(** The rows handed out by [ungenotypedSamples++], and the rows whose
    genotyper call returned, newest first. *)
Definition claimed_row (e : event) : option nat :=
  match e with
  | EvGenoClaim _ g => Some g
  | _ => None
  end.

Definition returned_row (e : event) : option nat :=
  match e with
  | EvGenoReturn _ g => Some g
  | _ => None
  end.

(** The worker is in the genotyper for row [g]; the worker holds the output
    of row [g], not yet written. *)
Definition geno_calling (g : nat) (pc : geno_pc) : bool :=
  match pc with
  | GCall g' => g' =? g
  | _ => false
  end.

Definition geno_pending (g : nat) (pc : geno_pc) : bool :=
  match pc with
  | GLoop (Some (g', _)) => g' =? g
  | _ => false
  end.

(** The workers of the genotyping pool, if it is the one that runs. *)
Definition pool_genos (p : pool_state) : list geno_pc :=
  match p with
  | Genotyping ths => ths
  | _ => []
  end.

(** The combined stream as long as [run] has not closed it: the opening
    frame and the records written so far. *)
Definition stream_inv (s : Settings) (st : RunState) : Prop :=
  match pool st with
  | Finished => True
  | _ => sink_opens s = true → fos st = frame_open s +:+ join "," (records (trace st))
  end.

(** The termination flag is set only after a collaborator call has failed. *)
Definition flag_origin_inv (st : RunState) : Prop :=
  terminate_ (workflow st) = true →
  0 < count is_align_throw (trace st) + count is_geno_throw (trace st).

(** The cursor of the genotyping phase stays within the table, a worker in a
    collaborator call holds a pair, resp. a row, that exists, and every call
    that was logged has returned or thrown. *)
Definition calls_inv (s : Settings) (st : RunState) : Prop :=
  ungenotypedSamples st ≤ length (alignedSamples_ (workflow st))
  ∧ count is_align_call_any (trace st)
    = count is_align_return_any (trace st) + count is_align_throw (trace st)
  ∧ count is_geno_call (trace st)
    = count is_geno_return (trace st) + count is_geno_throw (trace st)
  ∧ match pool st with
    | Aligning ths =>
        Forall (λ pc, ∀ i g, pc = ACall i g →
                  i < length (manifest_ s) ∧ g < length (graphSpecPaths_ s)) ths
    | Genotyping ths =>
        Forall (λ pc, ∀ g, pc = GCall g → g < ungenotypedSamples st) ths
    | _ => True
    end.

(** The rows are handed out in ascending order, one at a time. *)
Definition claim_order_inv (st : RunState) : Prop :=
  omap claimed_row (trace st) = rev (seq 0 (ungenotypedSamples st))
  ∧ match pool st with
    | Aligning _ => ungenotypedSamples st = 0
    | _ => True
    end.

(** Row [g] in the genotyping phase: it is handed out once the cursor has
    gone over it, and not again; the genotyper is called for it at most once
    and returns at most once; the output of a call that returned is written
    to the combined stream or held by the worker; and as long as the
    termination flag is unset, a row handed out is in the genotyper or has
    come back from it. *)
Definition geno_row_facts (s : Settings) (st : RunState) (ths : list geno_pc) (g : nat)
    : Prop :=
  count (is_geno_claim_of g) (trace st) = Nat.b2n (g <? ungenotypedSamples st)
  ∧ count (is_geno_call_of g) (trace st) + count (geno_calling g) ths
    ≤ count (is_geno_claim_of g) (trace st)
  ∧ count (is_geno_return_of g) (trace st) ≤ count (is_geno_call_of g) (trace st)
  ∧ (has_outputFile s = true →
     count (is_write_of g) (trace st) + count (geno_pending g) ths
     = count (is_geno_return_of g) (trace st))
  ∧ (terminate_ (workflow st) = false →
     count (is_geno_return_of g) (trace st) + count (geno_calling g) ths
     = count (is_geno_claim_of g) (trace st)).

Definition geno_rows_inv (s : Settings) (st : RunState) : Prop :=
  (∀ g, geno_row_facts s st (pool_genos (pool st)) g)
  ∧ match pool st with
    | Finished =>
        terminate_ (workflow st) = false
        ∧ (1 ≤ threads (parameters_ s) →
           ungenotypedSamples st = length (alignedSamples_ (workflow st)))
    | _ => True
    end.

(** The table as long as nothing has failed in the alignment phase: a slot
    holds the manifest's sample until the aligner call of its pair returns,
    and what the aligner made of the manifest's sample from then on; and the
    aligner was only ever called on a graph spec of the list and on the
    manifest's sample. *)
Definition align_call_ok (s : Settings) (e : event) : Prop :=
  ∀ t i g path slot,
    e = EvAlignCall t i g path slot →
    graphSpecPaths_ s !! g = Some path ∧ manifest_ s !! i = Some slot.

Definition table_inv (s : Settings) (st : RunState) : Prop :=
  count is_align_failure (trace st) = 0 →
  (∀ g i sample, manifest_ s !! i = Some sample → g < table_rows s →
     slot_at (workflow st) g i
     = Some (if 0 <? count (is_align_return i g) (trace st)
             then (alignSingleSample (default EmptyString (graphSpecPaths_ s !! g))
                     (referencePath_ s) sample).1
             else sample))
  ∧ Forall (align_call_ok s) (trace st).

(** A genotyper call as logged: for a row of the table, with the graph spec
    of the row (the empty path without graph specs) and the row as the
    table holds it. *)
Definition geno_call_ok (s : Settings) (w : Workflow) (e : event) : Prop :=
  ∀ t g path samples,
    e = EvGenoCall t g path samples →
    g < table_rows s ∧ graphSpecPath_of s g = Some path
    ∧ alignedSamples_ w !! g = Some samples.

(** The file that [makeOutputFile] writes for row [g] of the table of [w]. *)
Definition genotype_file (w : Workflow) (g : nat) : option (string * string) :=
  match graphSpecPath_of (settings w) g, genotype_of w g with
  | Some graphSpecPath, Some output =>
      Some (outputPath (settings w) graphSpecPath, writeJson output)
  | _, _ => None
  end.

(** The files written so far are those of the rows whose genotyper call
    returned, newest first; without an output folder there is none. *)
Definition files_inv (s : Settings) (st : RunState) : Prop :=
  (if String.eqb (outputFolderPath_ s) EmptyString then outputFiles st = []
   else Some <$> outputFiles st = genotype_file (workflow st) <$> omap returned_row (trace st))
  ∧ match pool st with
    | Aligning _ => outputFiles st = []
    | _ => True
    end.

(** The genotyper calls logged so far were made on the table as it stands,
    and there is no event of the genotyping phase without a worker. *)
Definition geno_calls_inv (s : Settings) (st : RunState) : Prop :=
  Forall (geno_call_ok s (workflow st)) (trace st)
  ∧ (0 < count is_geno_event (trace st) → 1 ≤ threads (parameters_ s)).

End Grmpy.

(** * Concrete runs *)

Module Example.

(** A [Json::Value] that is null or holds a text. *)
Definition null_json (j : option string) : bool :=
  match j with None => true | Some _ => false end.

Definition text_of (j : option string) : string := default "null" j.

Definition sample (name : string) (data : option string) : SampleInfo :=
  mkSampleInfo name (name +:+ ".bam") (name +:+ ".bai") data.

Definition the_manifest (path : string) : option (list SampleInfo) :=
  if String.eqb path "manifest.txt" then Some [sample "a" None; sample "b" None; sample "c" None]
  else if String.eqb path "prealigned.txt" then Some [sample "a" None; sample "p" (Some "done")]
  else None.

(** Collaborators that always succeed: the aligner notes the graph in the
    sample, the genotyper lists what it was given. *)
Definition working : Collaborators := {|
  isNull := null_json;
  writeJson := text_of;
  openReader _ _ _ := true;
  alignSingleSample graphPath _ s :=
    (mkSampleInfo (sample_name s) (filename s) (index_filename s)
       (Some (sample_name s +:+ "@" +:+ graphPath)), true);
  countAndGenotype graphPath _ _ samples :=
    Some (Some ("{" +:+ graphPath +:+ ":"
                +:+ join "+" ((λ s, text_of (get_alignment_data s)) <$> samples) +:+ "}"));
  canOpen _ := true;
  path_filename p := p;
  path_append a b := a +:+ "/" +:+ b;
  NDEBUG := false;
  fileExists _ := true;
  is_directory _ := false;
  create_directory _ := true;
  loadManifest := the_manifest;
|}.

(** The same, but the aligner throws on the graph [bad] and the genotyper
    on the graph [g0]. *)
Definition failing : Collaborators := {|
  isNull := null_json;
  writeJson := text_of;
  openReader _ _ _ := true;
  alignSingleSample graphPath _ s :=
    (mkSampleInfo (sample_name s) (filename s) (index_filename s)
       (Some (sample_name s +:+ "@" +:+ graphPath)), negb (String.eqb graphPath "bad"));
  countAndGenotype graphPath _ _ samples :=
    if String.eqb graphPath "g0" then None
    else Some (Some ("{" +:+ graphPath +:+ "}"));
  canOpen _ := true;
  path_filename p := p;
  path_append a b := a +:+ "/" +:+ b;
  NDEBUG := false;
  fileExists _ := true;
  is_directory _ := false;
  create_directory _ := true;
  loadManifest := the_manifest;
|}.

(** Three samples, two graphs, two threads, a combined stream. *)
Definition settings32 : Settings :=
  mkSettings ["g0"; "g1"] "params" [sample "a" None; sample "b" None; sample "c" None]
    "out.json" EmptyString false (mkParameters 2) "ref.fa" true.

(** Thread 0 and thread 1 in turn, long enough for any of the runs below. *)
Definition round_robin : list nat := concat (replicate 40 [0; 1]).

Definition workflow_of (c : @Collaborators (option string)) (s : Settings) : Workflow :=
  match Workflow_new (collaborators := c) s with
  | Some w => w
  | None => mkWorkflow s [] [] false false
  end.

Definition workflow32 : Workflow := Eval vm_compute in workflow_of working settings32.

Definition finished32 : RunState :=
  exec (collaborators := working) round_robin (run_start (collaborators := working) workflow32).

(** The genotyper call for graph 1 in the trace of that run, what came
    after it and what came before. *)
Definition later32 : list event :=
  Eval vm_compute in take 3 (trace finished32).

Definition earlier32 : list event :=
  Eval vm_compute in drop 4 (trace finished32).

Definition row32 : list SampleInfo :=
  Eval vm_compute in default [] (alignedSamples_ (workflow finished32) !! 1).

(** One sample, three graphs, two threads; with the failing collaborators
    the genotyper throws on the first graph. *)
Definition settings13 : Settings :=
  mkSettings ["g0"; "g1"; "g2"] "params" [sample "a" None]
    "out.json" EmptyString false (mkParameters 2) "ref.fa" true.

Definition workflow13 : Workflow := Eval vm_compute in workflow_of failing settings13.

(** Thread 0 aligns the sample against the three graphs and returns, thread
    1 returns, the pool is joined; thread 0 claims graph 0 and its genotyper
    call throws.  Thread 1 has not moved yet in the genotyping phase. *)
Definition terminated13 : RunState :=
  exec (collaborators := failing) [0; 0; 0; 0; 0; 0; 0; 1; 0; 0; 0]
    (run_start (collaborators := failing) workflow13).

(** Three samples, two graphs, one thread. *)
Definition settings32_single : Settings :=
  mkSettings ["g0"; "g1"] "params" [sample "a" None; sample "b" None; sample "c" None]
    "out.json" EmptyString false (mkParameters 1) "ref.fa" true.

Definition workflow32_single : Workflow :=
  Eval vm_compute in workflow_of working settings32_single.

Definition finished32_single : RunState :=
  exec (collaborators := working) (replicate 40 0)
    (run_start (collaborators := working) workflow32_single).

(** A sample to align and a pre-aligned one, one graph. *)
Definition settings_prealigned : Settings :=
  mkSettings ["g0"] "params" [sample "a" None; sample "p" (Some "done")]
    "out.json" EmptyString false (mkParameters 2) "ref.fa" true.

Definition workflow_prealigned : Workflow :=
  Eval vm_compute in workflow_of working settings_prealigned.

(** Two pre-aligned samples, no graph. *)
Definition settings_no_graph : Settings :=
  mkSettings [] "params" [sample "p" (Some "done"); sample "q" (Some "done too")]
    "out.json" EmptyString false (mkParameters 2) "ref.fa" true.

Definition workflow_no_graph : Workflow :=
  Eval vm_compute in workflow_of working settings_no_graph.

(** Command lines: three samples against two graphs; a manifest with a
    pre-aligned sample against two graphs. *)
Definition command_line32 : VariablesMap :=
  mkVariablesMap (Some "ref.fa") (Some ["g0"; "g1"]) (Some "params") (Some "manifest.txt")
    (Some "out.json") None EmptyString 2 false true.

Definition command_line_prealigned : VariablesMap :=
  mkVariablesMap (Some "ref.fa") (Some ["g0"; "g1"]) (Some "params") (Some "prealigned.txt")
    (Some "out.json") None EmptyString 2 false true.


(** What [postProcess] makes of the first command line. *)
Definition options32 : Options :=
  mkOptions "ref.fa" ["g0"; "g1"] "out.json" EmptyString
    [sample "a" None; sample "b" None; sample "c" None] "params" 2 EmptyString false true.

(** A command line without output file and output folder, and the options
    [postProcess] makes of it. *)
Definition command_line_stdout : VariablesMap :=
  mkVariablesMap (Some "ref.fa") (Some ["g0"]) (Some "params") (Some "manifest.txt")
    None None EmptyString 2 false true.

Definition options_stdout : Options :=
  mkOptions "ref.fa" ["g0"] "-" EmptyString
    [sample "a" None; sample "b" None; sample "c" None] "params" 2 EmptyString false true.

(** A command line with a forced alignment output folder. *)
Definition command_line_forced : VariablesMap :=
  mkVariablesMap (Some "ref.fa") (Some ["g0"]) (Some "params") (Some "manifest.txt")
    (Some "out.json") None "!aligned" 2 false true.

Definition options_forced : Options :=
  mkOptions "ref.fa" ["g0"] "out.json" EmptyString
    [sample "a" None; sample "b" None; sample "c" None] "params" 2 "aligned" false true.

(** The run of three samples against two graphs, three moves in. *)
Definition started32 : RunState :=
  exec (collaborators := working) [0; 1; 0] (run_start (collaborators := working) workflow32).

(** Three samples, two graphs, two threads, an output folder with gzipped
    files and no combined stream. *)
Definition settings_folder : Settings :=
  mkSettings ["g0"; "g1"] "params" [sample "a" None; sample "b" None; sample "c" None]
    EmptyString "out" true (mkParameters 2) "ref.fa" true.

Definition workflow_folder : Workflow := Eval vm_compute in workflow_of working settings_folder.

Definition finished_folder : RunState :=
  exec (collaborators := working) round_robin
    (run_start (collaborators := working) workflow_folder).

(** One sample, two graphs, two threads; with the failing collaborators the
    aligner throws on the second graph. *)
Definition settings_bad : Settings :=
  mkSettings ["g1"; "bad"] "params" [sample "a" None]
    "out.json" EmptyString false (mkParameters 2) "ref.fa" true.

Definition workflow_bad : Workflow := Eval vm_compute in workflow_of failing settings_bad.

Definition failed_alignment : RunState :=
  exec (collaborators := failing) round_robin
    (run_start (collaborators := failing) workflow_bad).

(** The run of one sample against three graphs to its end: the genotyper
    throws on the first graph. *)
Definition failed13 : RunState :=
  exec (collaborators := failing) round_robin
    (run_start (collaborators := failing) workflow13).

(** The working collaborators, but the file of sample [b] cannot be read. *)
Definition unreadable : Collaborators := {|
  isNull := null_json;
  writeJson := text_of;
  openReader fn _ _ := negb (String.eqb fn "b.bam");
  alignSingleSample graphPath _ s :=
    (mkSampleInfo (sample_name s) (filename s) (index_filename s)
       (Some (sample_name s +:+ "@" +:+ graphPath)), true);
  countAndGenotype graphPath _ _ samples :=
    Some (Some ("{" +:+ graphPath +:+ ":"
                +:+ join "+" ((λ s, text_of (get_alignment_data s)) <$> samples) +:+ "}"));
  canOpen _ := true;
  path_filename p := p;
  path_append a b := a +:+ "/" +:+ b;
  NDEBUG := false;
  fileExists _ := true;
  is_directory _ := false;
  create_directory _ := true;
  loadManifest := the_manifest;
|}.

(** The run of three samples against two graphs when the file of the second
    sample cannot be read. *)
Definition unread32 : RunState :=
  exec (collaborators := unreadable) round_robin
    (run_start (collaborators := unreadable) workflow32).

(** Two pre-aligned samples, the second one in the file that cannot be
    read, no graph. *)
Definition settings_no_graph_b : Settings :=
  mkSettings [] "params" [sample "p" (Some "done"); sample "b" (Some "done too")]
    "out.json" EmptyString false (mkParameters 2) "ref.fa" true.

Definition workflow_no_graph_b : Workflow :=
  Eval vm_compute in workflow_of unreadable settings_no_graph_b.

Definition unread_no_graph : RunState :=
  exec (collaborators := unreadable) round_robin
    (run_start (collaborators := unreadable) workflow_no_graph_b).

(** The run of two pre-aligned samples without a graph. *)
Definition finished_no_graph : RunState :=
  exec (collaborators := working) round_robin
    (run_start (collaborators := working) workflow_no_graph).

End Example.

(** * Properties *)

Section Properties.

Context {Json : Type} {collaborators : @Collaborators Json}.

Local Abbreviation Samples := (list (@SampleInfo Json)).

(** Case analysis of a move of the run. *)
Ltac tick_cases t st :=
  unfold tick;
  let ths := fresh "ths" in
  destruct (pool st) as [ths|ths| |] eqn:Hpool;
  [ destruct (execute_joined align_terminal ths) eqn:Hjoined;
    [ destruct (execute_failed align_thrown ths) eqn:Hfailed
    | destruct (ths !! t) as [pc|] eqn:Hpc;
      [ destruct (align_step t pc (workflow st)) as [[w' pc'] evs] eqn:Hstep | ] ]
  | destruct (execute_joined geno_terminal ths) eqn:Hjoined;
    [ destruct (execute_failed geno_thrown_pc ths) eqn:Hfailed
    | destruct (ths !! t) as [pc|] eqn:Hpc;
      [ destruct (geno_step t pc st) as [st' pc'] eqn:Hstep | ] ]
  | | ].

(** ** Lists, counting, strings *)

Lemma count_app {A : Type} (p : A → bool) (l1 l2 : list A) :
  count p (l1 ++ l2) = count p l1 + count p l2.
Proof. induction l1 as [|x l1 IH]; simpl; [done|]. rewrite IH. lia. Qed.

Lemma count_insert {A : Type} (p : A → bool) (l : list A) (i : nat) (x y : A) :
  l !! i = Some x →
  count p (<[i := y]> l) + Nat.b2n (p x) = count p l + Nat.b2n (p y).
Proof.
  revert i. induction l as [|z l IH]; intros [|i] Hi; simpl in *; try done.
  - injection Hi as ->. destruct (p x), (p y); simpl; lia.
  - specialize (IH i Hi). lia.
Qed.

Lemma count_none {A : Type} (p : A → bool) (l : list A) :
  Forall (λ x, p x = false) l → count p l = 0.
Proof. induction 1 as [|x l Hx _ IH]; simpl; [done|]. by rewrite Hx, IH. Qed.

Lemma forallb_Forall {A : Type} (p : A → bool) (l : list A) :
  forallb p l = true ↔ Forall (λ x, p x = true) l.
Proof.
  induction l as [|x l IH]; simpl.
  - split; [constructor|done].
  - rewrite andb_true_iff, IH. split.
    + intros [? ?]. by constructor.
    + inversion 1. done.
Qed.

Lemma existsb_count {A : Type} (p : A → bool) (l : list A) :
  existsb p l = negb (count p l =? 0).
Proof. induction l as [|x l IH]; simpl; [done|]. rewrite IH. by destruct (p x). Qed.

Lemma count_replicate {A : Type} (p : A → bool) (n : nat) (x : A) :
  count p (replicate n x) = n * Nat.b2n (p x).
Proof. induction n as [|n IH]; simpl; [done|]. rewrite IH. destruct (p x); simpl; lia. Qed.

Lemma count_le {A : Type} (p q : A → bool) (l : list A) :
  (∀ x, p x = true → q x = true) → count p l ≤ count q l.
Proof.
  intros Hpq. induction l as [|x l IH]; simpl; [done|].
  destruct (p x) eqn:Hp; [rewrite (Hpq x Hp)|]; lia.
Qed.

Lemma string_app_assoc (a b c : string) : (a +:+ b) +:+ c = a +:+ (b +:+ c).
Proof.
  induction a as [|x a IH]; [done|].
  change (String x ((a +:+ b) +:+ c) = String x (a +:+ b +:+ c)). by rewrite IH.
Qed.

Lemma string_app_nil_r (a : string) : a +:+ EmptyString = a.
Proof.
  induction a as [|x a IH]; [done|].
  change (String x (a +:+ EmptyString) = String x a). by rewrite IH.
Qed.

Lemma join_snoc (sep : string) (l : list string) (x : string) :
  join sep (l ++ [x])
  = match l with [] => x | _ => join sep l +:+ sep +:+ x end.
Proof.
  induction l as [|y l IH]; [done|].
  destruct l as [|z l]; [done|].
  change (join sep ((y :: z :: l) ++ [x])) with (y +:+ sep +:+ join sep ((z :: l) ++ [x])).
  rewrite IH.
  change (join sep (y :: z :: l)) with (y +:+ sep +:+ join sep (z :: l)).
  by rewrite !string_app_assoc.
Qed.

(** ** Runs *)

Lemma exec_snoc (sched : list nat) (t : nat) (st : RunState) :
  exec (sched ++ [t]) st = tick t (exec sched st).
Proof. unfold exec. by rewrite foldl_snoc. Qed.

Lemma reachable_start (w : Workflow) : reachable w (run_start w).
Proof. by exists []. Qed.

Lemma reachable_tick (w : Workflow) (t : nat) (st : RunState) :
  reachable w st → reachable w (tick t st).
Proof. intros [sched ->]. exists (sched ++ [t]). by rewrite exec_snoc. Qed.

(** Invariants: what holds at the start and is kept by every move holds in
    every state of the run. *)
Lemma reachable_ind (w : Workflow) (P : RunState → Prop) :
  P (run_start w) →
  (∀ t st, reachable w st → P st → P (tick t st)) →
  ∀ st, reachable w st → P st.
Proof.
  intros Hstart Hstep st [sched ->].
  induction sched as [|t sched IH] using rev_ind; [done|].
  rewrite exec_snoc. apply Hstep; [by exists sched|done].
Qed.

(** ** The constructor *)

Lemma push_back_rows_prefix (k : nat) (sample : SampleInfo) (al : list Samples) :
  k ≤ length al →
  push_back_rows k sample al
  = ((λ row, row ++ [sample]) <$> take k al) ++ drop k al.
Proof.
  induction k as [|k IH]; intros Hk; simpl.
  - by rewrite drop_0.
  - rewrite IH by lia.
    destruct (lookup_lt_is_Some_2 al k) as [row Hrow]; [lia|].
    rewrite (take_S_r _ _ _ Hrow), (drop_S _ _ _ Hrow), fmap_app. simpl.
    rewrite <- (assoc_L (++)). simpl.
    replace k with (length ((λ row0, row0 ++ [sample]) <$> take k al) + 0) at 1
      by (rewrite length_fmap, length_take; lia).
    by rewrite alter_app_r.
Qed.

Lemma push_back_rows_all (sample : SampleInfo) (al : list Samples) :
  push_back_rows (length al) sample al = (λ row, row ++ [sample]) <$> al.
Proof.
  rewrite push_back_rows_prefix by lia.
  by rewrite firstn_all, drop_all, app_nil_r.
Qed.

Lemma construct_loop_graphs (graphs : list string) (manifest : Samples)
    (us : list UnalignedSample) (al : list Samples) :
  graphs ≠ [] → length al = length graphs →
  construct_loop graphs manifest us al
  = Some (us ++ (initial_unaligned graphs <$> manifest), (λ row, row ++ manifest) <$> al).
Proof.
  intros Hne. revert us al.
  induction manifest as [|sample rest IH]; intros us al Hlen; simpl.
  - rewrite app_nil_r. f_equal. f_equal. clear Hlen.
    induction al as [|row al' IHal]; simpl; [done|].
    rewrite app_nil_r. f_equal. apply IHal.
  - destruct graphs as [|g gs]; [done|]. simpl Nat.eqb. cbn [negb].
    rewrite <- Hlen, push_back_rows_all.
    rewrite IH by (rewrite length_fmap; done).
    rewrite <- (assoc_L (++)). simpl. f_equal. f_equal.
    rewrite <- list_fmap_compose. apply list_fmap_ext. intros _ row _. simpl.
    by rewrite <- (assoc_L (++)).
Qed.

Lemma construct_loop_no_graphs (manifest : Samples)
    (us us' : list UnalignedSample) (row : Samples) (al' : list Samples) :
  construct_loop [] manifest us [row] = Some (us', al') →
  us' = us ++ (initial_unaligned [] <$> manifest) ∧ al' = [row ++ manifest]
  ∧ (NDEBUG = false → Forall (λ sample, isNull (get_alignment_data sample) = false) manifest).
Proof.
  revert us row.
  induction manifest as [|sample rest IH]; intros us row; simpl.
  - intros [= <- <-]. by rewrite !app_nil_r.
  - unfold assert. destruct (NDEBUG || negb (isNull (get_alignment_data sample))) eqn:Ha; [|done].
    intros H. apply IH in H as (-> & -> & Hall). clear IH.
    split; [|split].
    + by rewrite <- (assoc_L (++)).
    + by rewrite <- (assoc_L (++)).
    + intros Hnd. constructor; [|auto].
      rewrite Hnd in Ha. simpl in Ha. by destruct (isNull _).
Qed.

(** What a successful construction yields: one cursor per manifest sample,
    and [max(1, #graphs)] rows, each the manifest itself. *)
Lemma Workflow_new_Some (s : Settings) (w : Workflow) :
  Workflow_new s = Some w →
  settings w = s
  ∧ unalignedSamples_ w = initial_unaligned (graphSpecPaths_ s) <$> manifest_ s
  ∧ alignedSamples_ w = replicate (Nat.max 1 (length (graphSpecPaths_ s))) (manifest_ s)
  ∧ terminate_ w = false ∧ firstPrinted_ w = false.
Proof.
  unfold Workflow_new. intros H.
  destruct (graphSpecPaths_ s) as [|g gs] eqn:Hg.
  - simpl in H.
    destruct (construct_loop [] (manifest_ s) [] [[]]) as [[us al]|] eqn:Hc; [|done].
    apply construct_loop_no_graphs in Hc as (-> & -> & _).
    injection H as <-. simpl. done.
  - rewrite construct_loop_graphs in H; [|done|].
    + injection H as <-. cbn [settings unalignedSamples_ alignedSamples_ terminate_ firstPrinted_].
      split; [done|]. split; [done|]. split; [|done].
      by rewrite fmap_replicate.
    + rewrite length_replicate. simpl. lia.
Qed.

(** With graphs the construction always succeeds; without, it succeeds when
    the assertion holds for every sample or is compiled out. *)
Lemma Workflow_new_is_Some (s : Settings) :
  (graphSpecPaths_ s ≠ [] ∨ NDEBUG = true
   ∨ Forall (λ sample, isNull (get_alignment_data sample) = false) (manifest_ s)) →
  is_Some (Workflow_new s).
Proof.
  unfold Workflow_new. intros H.
  destruct (graphSpecPaths_ s) as [|g gs] eqn:Hg.
  - assert (Hok : ∀ m us row, (NDEBUG = true
        ∨ Forall (λ sample, isNull (get_alignment_data sample) = false) m) →
        is_Some (construct_loop [] m us [row])).
    { induction m as [|sample rest IH]; intros us row Hm; simpl; [done|].
      unfold assert.
      assert (NDEBUG || negb (isNull (get_alignment_data sample)) = true) as ->.
      { destruct Hm as [->|Hm]; [done|]. inversion Hm as [|? ? Hx]. rewrite Hx.
        by destruct NDEBUG. }
      apply IH. destruct Hm as [?|Hm]; [by left|]. right. by inversion Hm. }
    destruct H as [?|H]; [done|].
    destruct (Hok (manifest_ s) [] [] H) as [[us al] Heq]. simpl. by rewrite Heq.
  - rewrite construct_loop_graphs; [done|done|].
    rewrite length_replicate. simpl. lia.
Qed.

(** ** The critical section of [alignSamples] *)

Lemma block_exit_false (w : @Workflow Json) : block_exit false w = w.
Proof. destruct w. unfold block_exit, set_terminate. simpl. by rewrite orb_false_r. Qed.

Lemma block_exit_true (w : @Workflow Json) : block_exit true w = set_terminate w true.
Proof. unfold block_exit. by rewrite orb_true_r. Qed.

Lemma claimFrom_length (E : nat) (b : bool) (ref : string) (t i : nat) (rd : bool)
    (us : list (@UnalignedSample Json)) :
  length (claimFrom E b ref t i rd us).1.1 = length us.
Proof.
  revert i rd. induction us as [|u rest IH]; intros i rd; simpl; [done|].
  specialize (IH (S i) false).
  destruct (claimFrom E b ref t (S i) false rest) as [[rest' r] evs]. simpl in IH.
  destruct (rd || openReader _ _ _); simpl; [|done].
  destruct (unprocessedGraphs_ u =? E); simpl; [by rewrite IH|].
  destruct b; simpl; by rewrite ?IH.
Qed.

(** With [terminate_] unset the critical section hands out the first
    graph that is left, if any, and stops there, unless a reader on its way
    does not open. *)
Lemma claimFrom_false (E : nat) (ref : string) (t i : nat) (rd : bool)
    (us rest' : list (@UnalignedSample Json)) (r : claim_result) (evs : list (@event Json)) :
  claimFrom E false ref t i rd us = (rest', r, evs) →
  match r with
  | NothingLeft =>
      rest' = us ∧ evs = [] ∧ Forall (λ u, unprocessedGraphs_ u = E) us
  | Claimed j g =>
      ∃ k u, j = i + k ∧ us !! k = Some u ∧ unprocessedGraphs_ u = g ∧ g ≠ E
             ∧ rest' = <[k := advance u]> us ∧ evs = [EvAlignClaim t j g]
             ∧ Forall (λ u, unprocessedGraphs_ u = E) (take k us)
  | ReaderThrew =>
      rest' = us ∧ ∃ j, evs = [EvReaderThrow t j]
  end.
Proof.
  revert i rd rest' r evs. induction us as [|u rest IH]; intros i rd rest' r evs; simpl.
  - intros [= <- <- <-]. done.
  - destruct (rd || openReader _ _ _).
    2:{ intros [= <- <- <-]. split; [done|]. by exists i. }
    destruct (unprocessedGraphs_ u =? E) eqn:Hu.
    + apply Nat.eqb_eq in Hu.
      destruct (claimFrom E false ref t (S i) false rest) as [[rest1 r1] evs1] eqn:Hc.
      intros [= <- <- <-]. apply IH in Hc.
      destruct r1 as [j g| |].
      * destruct Hc as (k & u' & -> & Hk & Hg & Hne & -> & -> & Hall).
        exists (S k), u'. repeat split; try done; try lia.
        simpl. by constructor.
      * destruct Hc as (-> & -> & Hall). repeat split; try done. by constructor.
      * destruct Hc as (-> & j & ->). split; [done|]. by exists j.
    + apply Nat.eqb_neq in Hu. intros [= <- <- <-].
      exists 0, u. rewrite Nat.add_0_r. repeat split; done.
Qed.

(** With [terminate_] set it starts no call; when it gets to the end of the
    loop it has advanced by one the cursor of every sample that had graphs
    left. *)
Lemma claimFrom_true (E : nat) (ref : string) (t i : nat) (rd : bool)
    (us rest' : list (@UnalignedSample Json)) (r : claim_result) (evs : list (@event Json)) :
  claimFrom E true ref t i rd us = (rest', r, evs) →
  (r = NothingLeft ∨ r = ReaderThrew)
  ∧ (r = NothingLeft →
     rest' = (λ u, if unprocessedGraphs_ u =? E then u else advance u) <$> us).
Proof.
  revert i rd rest' r evs. induction us as [|u rest IH]; intros i rd rest' r evs; simpl.
  - intros [= <- <- <-]. split; [by left|done].
  - destruct (rd || openReader _ _ _).
    2:{ intros [= <- <- <-]. split; [by right|done]. }
    destruct (claimFrom E true ref t (S i) false rest) as [[rest1 r1] evs1] eqn:Hc.
    apply IH in Hc as (Hr & Hrest).
    destruct (unprocessedGraphs_ u =? E) eqn:Hu; intros [= <- <- <-].
    + split; [done|]. intros Hn. by rewrite (Hrest Hn).
    + split; [done|]. intros Hn. by rewrite (Hrest Hn).
Qed.

(** What a critical section logs: claims, and at most the failure of one
    reader, with which it ends. *)
Lemma claimFrom_events (E : nat) (b : bool) (ref : string) (t i : nat) (rd : bool)
    (us rest' : list (@UnalignedSample Json)) (r : claim_result) (evs : list (@event Json)) :
  claimFrom E b ref t i rd us = (rest', r, evs) →
  Forall (λ e, (∃ j g, e = EvAlignClaim t j g) ∨ ∃ j, e = EvReaderThrow t j) evs
  ∧ count is_align_failure evs = match r with ReaderThrew => 1 | _ => 0 end.
Proof.
  revert i rd rest' r evs. induction us as [|u us IH]; intros i rd rest' r evs; simpl.
  - intros [= <- <- <-]. done.
  - destruct (rd || openReader _ _ _).
    2:{ intros [= <- <- <-]. split; [|done]. constructor; [|done]. right. by exists i. }
    destruct (claimFrom E b ref t (S i) false us) as [[rest1 r1] evs1] eqn:Hc.
    apply IH in Hc as (Hall & Hcount).
    destruct (_ =? E); [|destruct b]; intros [= <- <- <-]; try done.
    + split.
      * apply Forall_app. split; [done|]. constructor; [|done]. left. eauto.
      * rewrite count_app, Hcount. simpl. lia.
    + split; [|done]. constructor; [|done]. left. eauto.
Qed.

(** What a critical section of [alignSamples] leaves alone. *)
Lemma alignSamples_locked_frame (t i : nat) (rd : bool) (w w' : @Workflow Json)
    (pc : align_pc) (evs : list (@event Json)) :
  alignSamples_locked t i rd w = (w', pc, evs) →
  settings w' = settings w ∧ alignedSamples_ w' = alignedSamples_ w
  ∧ terminate_ w' = terminate_ w ∧ firstPrinted_ w' = firstPrinted_ w
  ∧ length (unalignedSamples_ w') = length (unalignedSamples_ w).
Proof.
  unfold alignSamples_locked.
  pose proof (claimFrom_length (graphs_end w) (terminate_ w) (referencePath_ (settings w))
                t i rd (drop i (unalignedSamples_ w))) as Hlen.
  destruct (claimFrom _ _ _ _ _ _ _) as [[rest' r] evs']. simpl in Hlen.
  intros [= <- <- <-]. simpl. repeat split; try done.
  rewrite length_app, Hlen, <- length_app. by rewrite take_drop.
Qed.

(** What a critical section of [alignSamples] logs, and that it ends in
    [AThrown] exactly when it logs a failure. *)
Lemma alignSamples_locked_events (t i : nat) (rd : bool) (w w' : @Workflow Json)
    (pc : align_pc) (evs : list (@event Json)) :
  alignSamples_locked t i rd w = (w', pc, evs) →
  Forall (λ e, (∃ j g, e = EvAlignClaim t j g) ∨ ∃ j, e = EvReaderThrow t j) evs
  ∧ count is_align_failure evs = (if align_thrown pc then 1 else 0).
Proof.
  unfold alignSamples_locked.
  destruct (claimFrom _ _ _ _ _ _ _) as [[rest' r] evs'] eqn:Hc.
  apply claimFrom_events in Hc as (Hall & Hcount). intros [= <- <- <-].
  split; [done|]. rewrite Hcount. by destruct r.
Qed.

(** With [terminate_] unset a critical section either finds every cursor
    from sample [i] on at the end and returns, or hands out the first graph
    left and goes on to the aligner, or fails at a reader. *)
Lemma alignSamples_locked_false (t i : nat) (rd : bool) (w w' : @Workflow Json)
    (pc : align_pc) (evs : list (@event Json)) :
  terminate_ w = false →
  alignSamples_locked t i rd w = (w', pc, evs) →
  (pc = AReturned ∧ unalignedSamples_ w' = unalignedSamples_ w ∧ evs = []
   ∧ ∀ j u, i ≤ j → unalignedSamples_ w !! j = Some u → unprocessedGraphs_ u = graphs_end w)
  ∨ (∃ j g u, pc = ACall j g ∧ i ≤ j ∧ unalignedSamples_ w !! j = Some u
       ∧ unprocessedGraphs_ u = g ∧ g ≠ graphs_end w
       ∧ unalignedSamples_ w' = <[j := advance u]> (unalignedSamples_ w)
       ∧ evs = [EvAlignClaim t j g]
       ∧ ∀ j' u', i ≤ j' → j' < j → unalignedSamples_ w !! j' = Some u' →
           unprocessedGraphs_ u' = graphs_end w)
  ∨ (pc = AThrown ∧ unalignedSamples_ w' = unalignedSamples_ w
     ∧ ∃ j, evs = [EvReaderThrow t j]).
Proof.
  intros Hterm. unfold alignSamples_locked. rewrite Hterm.
  destruct (claimFrom _ _ _ _ _ _ _) as [[rest' r] evs'] eqn:Hc.
  apply claimFrom_false in Hc. intros [= <- <- <-]. simpl.
  destruct r as [j g| |].
  - right. left. destruct Hc as (k & u & -> & Hk & Hg & Hne & -> & -> & Hall).
    rewrite lookup_drop in Hk.
    assert (i + k < length (unalignedSamples_ w)) as Hlt by by eapply lookup_lt_Some.
    exists (i + k), g, u. repeat split; try done; try lia.
    + rewrite <- (take_drop i (unalignedSamples_ w)) at 3.
      rewrite insert_app_r_alt by (rewrite length_take; lia).
      rewrite length_take. do 2 f_equal. lia.
    + intros j' u' H1 H2 Hj'.
      refine (Forall_lookup_1 (λ u, unprocessedGraphs_ u = graphs_end w) _ (j' - i) u' Hall _).
      rewrite lookup_take_lt by lia. rewrite lookup_drop.
      replace (i + (j' - i)) with j' by lia. done.
  - left. destruct Hc as (-> & -> & Hall). rewrite take_drop. repeat split; try done.
    intros j u Hij Hj.
    refine (Forall_lookup_1 (λ u, unprocessedGraphs_ u = graphs_end w) _ (j - i) u Hall _).
    rewrite lookup_drop. replace (i + (j - i)) with j by lia. done.
  - right. right. destruct Hc as (-> & j & ->). rewrite take_drop. eauto.
Qed.

(** With [terminate_] set a critical section starts no call: the worker
    returns, having advanced by one the cursor of each sample from [i] on
    that had graphs left, unless it fails at a reader on its way. *)
Lemma alignSamples_locked_true (t i : nat) (rd : bool) (w w' : @Workflow Json)
    (pc : align_pc) (evs : list (@event Json)) :
  terminate_ w = true →
  alignSamples_locked t i rd w = (w', pc, evs) →
  (pc = AReturned ∨ pc = AThrown)
  ∧ (pc = AReturned →
     unalignedSamples_ w'
     = take i (unalignedSamples_ w)
       ++ ((λ u, if unprocessedGraphs_ u =? graphs_end w then u else advance u)
             <$> drop i (unalignedSamples_ w))).
Proof.
  intros Hterm. unfold alignSamples_locked. rewrite Hterm.
  destruct (claimFrom _ _ _ _ _ _ _) as [[rest' r] evs'] eqn:Hc.
  apply claimFrom_true in Hc as (Hr & Hrest). intros [= <- <- <-]. simpl.
  destruct Hr as [->| ->].
  - split; [by left|]. intros _. by rewrite Hrest.
  - split; [by right|]. done.
Qed.

(** The unlocked part of [alignSamples]: it rewrites at most the slot it
    was handed, in place, and either returns to the loop or throws and sets
    [terminate_]. *)
Lemma alignSamples_unlocked_cases (t i g : nat) (w w' : Workflow) (pc : align_pc)
    (evs : list event) :
  alignSamples_unlocked t i g w = (w', pc, evs) →
  settings w' = settings w ∧ unalignedSamples_ w' = unalignedSamples_ w
  ∧ firstPrinted_ w' = firstPrinted_ w
  ∧ length <$> alignedSamples_ w' = length <$> alignedSamples_ w
  ∧ (∀ g' i', (g', i') ≠ (g, i) → slot_at w' g' i' = slot_at w g' i')
  ∧ ((pc = ALoop i true ∧ terminate_ w' = terminate_ w
      ∧ ∃ path slot, evs = [EvAlignReturn t i g; EvAlignCall t i g path slot])
     ∨ (pc = AThrown ∧ terminate_ w' = true
        ∧ ∃ evs', evs = EvAlignThrow t i g :: evs'
                  ∧ (evs' = [] ∨ ∃ path slot, evs' = [EvAlignCall t i g path slot]))).
Proof.
  unfold alignSamples_unlocked. rewrite block_exit_true.
  destruct (alignedSamples_ w !! g) as [row|] eqn:Hrow.
  2:{ intros [= <- <- <-]. simpl. repeat split; try done. right. repeat split; try done.
      exists []. auto. }
  destruct (row !! i) as [slot|] eqn:Hslot.
  2:{ intros [= <- <- <-]. simpl. repeat split; try done. right. repeat split; try done.
      exists []. auto. }
  destruct (alignSingleSample _ _ slot) as [slot' ok].
  assert (Hshape : length <$> <[g := <[i := slot']> row]> (alignedSamples_ w)
                   = length <$> alignedSamples_ w).
  { rewrite list_fmap_insert, length_insert. apply list_insert_id.
    by rewrite list_lookup_fmap, Hrow. }
  assert (Hother : ∀ g' i', (g', i') ≠ (g, i) →
            <[g := <[i := slot']> row]> (alignedSamples_ w) !! g' ≫= (.!! i')
            = alignedSamples_ w !! g' ≫= (.!! i')).
  { intros g' i' Hne. destruct (decide (g' = g)) as [->|Hg].
    - rewrite list_lookup_insert_eq by by eapply lookup_lt_Some.
      rewrite Hrow. simpl. apply list_lookup_insert_ne. congruence.
    - by rewrite list_lookup_insert_ne. }
  rewrite block_exit_false, block_exit_true.
  destruct ok; intros [= <- <- <-]; simpl; unfold slot_at; simpl.
  - repeat split; try done. left. repeat split; try done. eauto.
  - repeat split; try done. right. repeat split; try done.
    eexists. split; [done|]. right. eauto.
Qed.

(** ** The steps of [genotypeGraphs] *)

Lemma write_pending_frame (t : nat) (pending : option (nat * Json)) (st : RunState) :
  let st' := write_pending t pending st in
  settings (workflow st') = settings (workflow st)
  ∧ unalignedSamples_ (workflow st') = unalignedSamples_ (workflow st)
  ∧ alignedSamples_ (workflow st') = alignedSamples_ (workflow st)
  ∧ terminate_ (workflow st') = terminate_ (workflow st)
  ∧ ungenotypedSamples st' = ungenotypedSamples st
  ∧ outputFiles st' = outputFiles st
  ∧ pool st' = pool st.
Proof.
  unfold write_pending. destruct pending as [[g output]|]; [|done].
  destruct (has_outputFile _); done.
Qed.

(** What a step of a genotyping worker leaves alone, and that it adds
    events of the genotyping phase only. *)
Lemma geno_step_frame (t : nat) (pc pc' : geno_pc) (st st' : RunState) :
  geno_step t pc st = (st', pc') →
  settings (workflow st') = settings (workflow st)
  ∧ unalignedSamples_ (workflow st') = unalignedSamples_ (workflow st)
  ∧ alignedSamples_ (workflow st') = alignedSamples_ (workflow st)
  ∧ ∃ evs, trace st' = evs ++ trace st ∧ Forall (λ e, is_geno_event e = true) evs.
Proof.
  destruct pc as [pending|g| |]; simpl.
  - unfold genotypeGraphs_locked.
    destruct (write_pending_frame t pending st) as (Hs & Hu & Ha & _).
    assert (∃ evs, trace (write_pending t pending st) = evs ++ trace st
                   ∧ Forall (λ e, is_geno_event e = true) evs) as (evs & Hevs & Hall).
    { unfold write_pending. destruct pending as [[g output]|]; [|by exists []].
      destruct (has_outputFile _); [|by exists []].
      eexists [_]. split; [done|]. by constructor. }
    destruct (_ =? _).
    + intros [= <- <-]. repeat split; try done. eauto.
    + destruct (terminate_ _); intros [= <- <-]; simpl; repeat split; try done;
        (eexists (_ :: evs); rewrite Hevs; split; [done|by constructor]).
  - unfold genotypeGraphs_unlocked, geno_thrown. rewrite block_exit_false, block_exit_true.
    destruct (graphSpecPath_of _ _) as [path|].
    2:{ intros [= <- <-]. simpl. repeat split; try done.
        eexists [_]. split; [done|]. by constructor. }
    destruct (countAndGenotype _ _ _ _) as [output|].
    2:{ intros [= <- <-]. simpl. repeat split; try done.
        eexists [_; _]. split; [done|]. by repeat constructor. }
    destruct (negb _); [destruct (canOpen _)|]; intros [= <- <-]; simpl;
      repeat split; try done;
      (eexists [_; _]; split; [done|by repeat constructor]).
  - intros [= <- <-]. repeat split; try done. by exists [].
  - intros [= <- <-]. repeat split; try done. by exists [].
Qed.

Lemma write_pending_cases (t : nat) (pending : option (nat * Json)) (st : RunState) :
  (write_pending t pending st = st
   ∧ (pending = None ∨ has_outputFile (settings (workflow st)) = false))
  ∨ (∃ g output, pending = Some (g, output)
       ∧ has_outputFile (settings (workflow st)) = true
       ∧ workflow (write_pending t pending st) = set_firstPrinted (workflow st) true
       ∧ fos (write_pending t pending st)
         = fos st +:+ (if firstPrinted_ (workflow st) then "," else EmptyString)
             +:+ writeJson output
       ∧ trace (write_pending t pending st) = EvWrite t g output :: trace st).
Proof.
  unfold write_pending. destruct pending as [[g output]|]; [|by left; auto].
  destruct (has_outputFile _) eqn:Hout; [|by left; auto].
  right. exists g, output. done.
Qed.

Lemma genotypeGraphs_locked_cases (t : nat) (pending : option (nat * Json))
    (st st' : RunState) (pc' : geno_pc) :
  genotypeGraphs_locked t pending st = (st', pc') →
  let st1 := write_pending t pending st in
  workflow st' = workflow st1 ∧ fos st' = fos st1 ∧ outputFiles st' = outputFiles st
  ∧ ((ungenotypedSamples st = length (alignedSamples_ (workflow st))
      ∧ pc' = GReturned ∧ ungenotypedSamples st' = ungenotypedSamples st
      ∧ trace st' = trace st1)
     ∨ (ungenotypedSamples st ≠ length (alignedSamples_ (workflow st))
        ∧ ungenotypedSamples st' = S (ungenotypedSamples st)
        ∧ trace st' = EvGenoClaim t (ungenotypedSamples st) :: trace st1
        ∧ pc' = if terminate_ (workflow st) then GReturned
                else GCall (ungenotypedSamples st))).
Proof.
  unfold genotypeGraphs_locked. cbv zeta.
  destruct (write_pending_frame t pending st) as (_ & _ & Ha & Ht & Hc & Hf & _).
  rewrite Hc, Ha, Ht.
  destruct (_ =? _) eqn:Heq.
  - apply Nat.eqb_eq in Heq. intros [= <- <-]. simpl. repeat split; try done. by left.
  - apply Nat.eqb_neq in Heq.
    destruct (terminate_ (workflow st)); intros Heq'; injection Heq' as <- <-; simpl;
      repeat split; try done; by right.
Qed.

Lemma genotypeGraphs_unlocked_cases (t g : nat) (st st' : RunState) (pc' : geno_pc) :
  genotypeGraphs_unlocked t g st = (st', pc') →
  fos st' = fos st ∧ ungenotypedSamples st' = ungenotypedSamples st
  ∧ firstPrinted_ (workflow st') = firstPrinted_ (workflow st)
  ∧ ((pc' = GThrown ∧ terminate_ (workflow st') = true
      ∧ ∃ evs, trace st' = EvGenoThrow t g :: evs ++ trace st
               ∧ (evs = [] ∧ graphSpecPath_of (settings (workflow st)) g = None
                  ∨ ∃ path, graphSpecPath_of (settings (workflow st)) g = Some path
                     ∧ evs = [EvGenoCall t g path
                                (default [] (alignedSamples_ (workflow st) !! g))]))
     ∨ (∃ path output, pc' = GLoop (Some (g, output)) ∧ workflow st' = workflow st
          ∧ graphSpecPath_of (settings (workflow st)) g = Some path
          ∧ genotype_of (workflow st) g = Some output
          ∧ trace st' = EvGenoReturn t g
                        :: EvGenoCall t g path (default [] (alignedSamples_ (workflow st) !! g))
                        :: trace st)).
Proof.
  unfold genotypeGraphs_unlocked, geno_thrown, genotype_of.
  rewrite block_exit_false, block_exit_true.
  destruct (graphSpecPath_of _ _) as [path|] eqn:Hpath.
  2:{ intros [= <- <-]. simpl. repeat split; try done. left. repeat split; try done.
      exists []. auto. }
  destruct (countAndGenotype _ _ _ _) as [output|] eqn:Hout.
  2:{ intros [= <- <-]. simpl. repeat split; try done. left. repeat split; try done.
      eexists [_]. split; [done|]. right. eauto. }
  destruct (negb _); [destruct (canOpen _)|]; intros [= <- <-]; simpl;
    repeat split; try done.
  - right. exists path, output. done.
  - left. repeat split; try done. eexists [_]. split; [done|]. right. eauto.
  - right. exists path, output. done.
Qed.

(** A step of an alignment worker adds events of the alignment phase only,
    and keeps the settings and the shape of the tables. *)
Lemma align_step_frame (t : nat) (pc pc' : align_pc) (w w' : Workflow) (evs : list event) :
  align_step t pc w = (w', pc', evs) →
  settings w' = settings w
  ∧ length (unalignedSamples_ w') = length (unalignedSamples_ w)
  ∧ length <$> alignedSamples_ w' = length <$> alignedSamples_ w
  ∧ firstPrinted_ w' = firstPrinted_ w
  ∧ Forall (λ e, is_align_event e = true) evs.
Proof.
  destruct pc as [i rd|i g| |]; simpl.
  - intros Hstep.
    pose proof (alignSamples_locked_frame _ _ _ _ _ _ _ Hstep) as (Hs & Ha & Ht & Hf & Hl).
    repeat split; try done; [by rewrite Ha|].
    apply alignSamples_locked_events in Hstep as (Hall & _).
    eapply Forall_impl; [exact Hall|]. by intros e [(j & g & ->)|(j & ->)].
  - intros Hstep. apply alignSamples_unlocked_cases in Hstep as (Hs & Hu & Hf & Hl & _ & Hcase).
    repeat split; try done; [by rewrite Hu|].
    destruct Hcase as [(_ & _ & path & slot & ->)|(_ & _ & evs' & -> & Hall)].
    + by repeat constructor.
    + constructor; [done|]. destruct Hall as [->|(path & slot & ->)]; by repeat constructor.
  - intros [= <- <- <-]. repeat split; try done.
  - intros [= <- <- <-]. repeat split; try done.
Qed.

(** ** Shape of the tables *)

(** The settings never change, and the tables keep their shape: one cursor
    per manifest sample, and rows of unchanged lengths. *)
Lemma tick_shape (t : nat) (st : RunState) :
  settings (workflow (tick t st)) = settings (workflow st)
  ∧ length (unalignedSamples_ (workflow (tick t st))) = length (unalignedSamples_ (workflow st))
  ∧ length <$> alignedSamples_ (workflow (tick t st))
    = length <$> alignedSamples_ (workflow st).
Proof.
  tick_cases t st; simpl; try done.
  - by apply align_step_frame in Hstep as (? & ? & ? & _).
  - apply geno_step_frame in Hstep as (? & Hu & Ha & _). by rewrite Hu, Ha.
Qed.

Lemma run_start_workflow (w : Workflow) : workflow (run_start w) = w.
Proof. unfold run_start. by destruct (_ && _). Qed.

Lemma run_start_trace (w : Workflow) : trace (run_start w) = [].
Proof. unfold run_start. by destruct (_ && _). Qed.

Lemma reachable_shape (s : Settings) (w : Workflow) (st : RunState) :
  Workflow_new s = Some w → reachable w st →
  settings (workflow st) = s
  ∧ length (unalignedSamples_ (workflow st)) = length (manifest_ s)
  ∧ length <$> alignedSamples_ (workflow st)
    = replicate (Nat.max 1 (length (graphSpecPaths_ s))) (length (manifest_ s)).
Proof.
  intros Hnew. apply Workflow_new_Some in Hnew as (Hs & Hu & Ha & _).
  revert st. apply reachable_ind.
  - rewrite run_start_workflow, Hu, Ha, length_fmap, fmap_replicate. done.
  - intros t st _ (IH1 & IH2 & IH3).
    destruct (tick_shape t st) as (-> & -> & ->). done.
Qed.

(** ** Failures *)

Lemma count_geno_align (p : (@event Json) → bool) (evs tr : list (@event Json)) :
  (∀ e, is_geno_event e = true → p e = false) →
  Forall (λ e, is_geno_event e = true) evs →
  count p (evs ++ tr) = count p tr.
Proof.
  intros Hp Hall. rewrite count_app, count_none; [done|].
  eapply Forall_impl; [exact Hall|]. done.
Qed.

Lemma count_is_throw (tr : list (@event Json)) :
  count is_throw tr = count is_align_failure tr + count is_geno_throw tr.
Proof.
  induction tr as [|e tr IH]; simpl; [done|]. rewrite IH. unfold is_throw.
  destruct e; simpl; lia.
Qed.

(** A worker ends up thrown only by logging a failure. *)
Lemma align_step_throws (t : nat) (pc pc' : align_pc) (w w' : Workflow) (evs : list event) :
  align_step t pc w = (w', pc', evs) →
  align_thrown pc' = true → align_thrown pc = true ∨ 0 < count is_align_failure evs.
Proof.
  destruct pc as [i rd|i g| |]; simpl; intros Hstep Hthrown.
  - right. apply alignSamples_locked_events in Hstep as (_ & ->). rewrite Hthrown. lia.
  - right. apply alignSamples_unlocked_cases in Hstep as (_ & _ & _ & _ & _ & Hcase).
    destruct Hcase as [(-> & _)|(_ & _ & evs' & -> & _)]; [done|]. simpl. lia.
  - injection Hstep as <- <- <-. done.
  - by left.
Qed.

Lemma geno_step_throws (t : nat) (pc pc' : geno_pc) (st st' : RunState) :
  geno_step t pc st = (st', pc') →
  count is_geno_throw (trace st) ≤ count is_geno_throw (trace st')
  ∧ (geno_thrown_pc pc' = true →
     geno_thrown_pc pc = true ∨ 0 < count is_geno_throw (trace st')).
Proof.
  intros Hstep. split.
  - apply geno_step_frame in Hstep as (_ & _ & _ & evs & -> & _). rewrite count_app. lia.
  - destruct pc as [pending|g| |]; simpl in Hstep; intros Hthrown.
    + apply genotypeGraphs_locked_cases in Hstep as (_ & _ & _ & Hcase).
      destruct Hcase as [(_ & -> & _)|(_ & _ & _ & ->)]; [done|].
      by destruct (terminate_ _).
    + right. apply genotypeGraphs_unlocked_cases in Hstep as (_ & _ & _ & Hcase).
      destruct Hcase as [(_ & _ & evs & -> & _)|(path & output & -> & _)]; [simpl; lia|done].
    + injection Hstep as <- <-. done.
    + by left.
Qed.

Lemma reachable_failure_inv (s : Settings) (w : Workflow) (st : RunState) :
  Workflow_new s = Some w → reachable w st → failure_inv s st.
Proof.
  intros Hnew. pose proof Hnew as (Hs & _)%Workflow_new_Some.
  revert st. apply reachable_ind.
  - unfold failure_inv, run_start, sink_opens. rewrite Hs.
    destruct (_ && _); simpl; [by left|]. rewrite count_replicate. simpl. lia.
  - intros t st Hreach IH. unfold failure_inv in *. revert IH.
    tick_cases t st; simpl; rewrite ?Hpool; try done.
    + (* the alignment pool hands a failure on *)
      intros IH. right. rewrite count_is_throw.
      unfold execute_failed in Hfailed. rewrite existsb_count in Hfailed.
      apply negb_true_iff, Nat.eqb_neq in Hfailed.
      assert (0 < count is_align_failure (trace st)) by (apply IH; lia). lia.
    + intros _. rewrite count_replicate. simpl. lia.
    + (* a worker of the alignment pool moves *)
      intros IH Hpos. rewrite count_app.
      pose proof (count_insert align_thrown ths t _ pc' Hpc) as Hins.
      pose proof (align_step_throws _ _ _ _ _ _ Hstep) as Hthr.
      destruct (align_thrown pc') eqn:Hpc'.
      * destruct (Hthr eq_refl) as [Hold|Hnew']; [|lia].
        rewrite Hold in Hins. simpl in Hins.
        assert (0 < count is_align_failure (trace st)) by (apply IH; lia). lia.
      * assert (0 < count is_align_failure (trace st)); [|lia].
        apply IH. destruct (align_thrown pc); simpl in Hins; lia.
    + (* the genotyping pool hands a failure on *)
      intros IH. right. rewrite count_is_throw.
      unfold execute_failed in Hfailed. rewrite existsb_count in Hfailed.
      apply negb_true_iff, Nat.eqb_neq in Hfailed.
      assert (0 < count is_geno_throw (trace st)) by (apply IH; lia). lia.
    + (* a worker of the genotyping pool moves *)
      intros IH Hpos.
      pose proof (count_insert geno_thrown_pc ths t _ pc' Hpc) as Hins.
      pose proof (geno_step_throws _ _ _ _ _ Hstep) as (Hmono & Hthr).
      destruct st' as [w1 f1 c1 o1 p1 tr1]. simpl in *.
      destruct (geno_thrown_pc pc') eqn:Hpc'.
      * destruct (Hthr eq_refl) as [Hold|Hnew']; [|lia].
        rewrite Hold in Hins. simpl in Hins.
        assert (0 < count is_geno_throw (trace st)) by (apply IH; lia). lia.
      * assert (0 < count is_geno_throw (trace st)); [|lia].
        apply IH. destruct (geno_thrown_pc pc); simpl in Hins; lia.
Qed.

Lemma count_is_align_failure (tr : list (@event Json)) :
  count is_align_failure tr = count is_align_throw tr + count is_reader_throw tr.
Proof.
  induction tr as [|e tr IH]; simpl; [done|]. rewrite IH. unfold is_align_failure.
  destruct e; simpl; lia.
Qed.

(** A critical section leaves the samples of the cursors alone, and fails at
    no reader if each can be opened. *)
Lemma claimFrom_samples (E : nat) (b : bool) (ref : string) (t i : nat) (rd : bool)
    (us rest' : list (@UnalignedSample Json)) (r : claim_result) (evs : list (@event Json)) :
  claimFrom E b ref t i rd us = (rest', r, evs) →
  sample_ <$> rest' = sample_ <$> us.
Proof.
  revert i rd rest' r evs. induction us as [|u us IH]; intros i rd rest' r evs; simpl.
  - by intros [= <- <- <-].
  - destruct (rd || openReader _ _ _); [|by intros [= <- <- <-]].
    destruct (claimFrom E b ref t (S i) false us) as [[rest1 r1] evs1] eqn:Hc.
    apply IH in Hc.
    destruct (_ =? E); [|destruct b]; intros [= <- <- <-]; simpl; try done;
      f_equal; exact Hc.
Qed.

Lemma claimFrom_readers (E : nat) (b : bool) (ref : string) (t i : nat) (rd : bool)
    (us rest' : list (@UnalignedSample Json)) (r : claim_result) (evs : list (@event Json)) :
  Forall (λ sample, openReader (filename sample) (index_filename sample) ref = true)
    (sample_ <$> us) →
  claimFrom E b ref t i rd us = (rest', r, evs) →
  r ≠ ReaderThrew.
Proof.
  revert i rd rest' r evs. induction us as [|u us IH]; intros i rd rest' r evs; simpl.
  - by intros _ [= <- <- <-].
  - intros Hall. apply Forall_cons in Hall as [Hu Hall]. rewrite Hu, orb_true_r.
    destruct (claimFrom E b ref t (S i) false us) as [[rest1 r1] evs1] eqn:Hc.
    apply IH in Hc; [|done].
    destruct (_ =? E); [|destruct b]; intros [= <- <- <-]; done.
Qed.

Lemma reachable_readers_inv (s : Settings) (w : Workflow) (st : RunState) :
  Workflow_new s = Some w → reachable w st → readers_inv s st.
Proof.
  intros Hnew. pose proof Hnew as (Hs & Hu & _)%Workflow_new_Some.
  revert st. apply reachable_ind.
  - unfold readers_inv. rewrite run_start_workflow, run_start_trace, Hu. split; [|done].
    rewrite <- list_fmap_compose. apply list_fmap_id.
  - intros t st Hreach (Hsam & Hrd).
    destruct (reachable_shape s w st Hnew Hreach) as (Hset & _).
    unfold readers_inv. tick_cases t st; simpl; try done.
    + (* a worker of the alignment pool moves *)
      destruct pc as [i rd|i g| |]; simpl in Hstep.
      * pose proof (alignSamples_locked_events _ _ _ _ _ _ _ Hstep) as (_ & Hcount).
        unfold alignSamples_locked in Hstep.
        destruct (claimFrom _ _ _ _ _ _ _) as [[rest' r] evs'] eqn:Hc.
        injection Hstep as <- <- <-. simpl.
        pose proof (claimFrom_samples _ _ _ _ _ _ _ _ _ _ Hc) as Hsam'.
        split.
        -- by rewrite fmap_app, Hsam', <- fmap_app, take_drop.
        -- intros Hopen. rewrite count_app, (Hrd Hopen).
           apply claimFrom_readers in Hc.
           ++ pose proof (count_is_align_failure evs') as Hsum.
              destruct r; simpl in Hcount; try done; lia.
           ++ rewrite Hset, fmap_drop, Hsam. by apply Forall_drop.
      * apply alignSamples_unlocked_cases in Hstep as (_ & Hu' & _ & _ & _ & Hcase).
        rewrite Hu'. split; [done|]. intros Hopen. rewrite count_app, (Hrd Hopen).
        by destruct Hcase as [(_ & _ & path & slot & ->)
                             |(_ & _ & evs' & -> & [->|(path & slot & ->)])].
      * by injection Hstep as <- <- <-.
      * by injection Hstep as <- <- <-.
    + (* a worker of the genotyping pool moves *)
      apply geno_step_frame in Hstep as (_ & Hu' & _ & evs & Htr & Hevs).
      destruct st' as [w1 f1 c1 o1 p1 tr1]. simpl in *. subst tr1. rewrite Hu'.
      split; [done|]. intros Hopen.
      rewrite count_geno_align; [by apply Hrd|by intros []|done].
Qed.

(** ** Exactly-once claiming in the alignment phase *)

Lemma claimed_done (s : Settings) (w : Workflow) (i g : nat) :
  graphs_end w = length (graphSpecPaths_ s) →
  length (unalignedSamples_ w) = length (manifest_ s) →
  cursors_done_below w (length (unalignedSamples_ w)) →
  claimed s w i g = needs_alignment s i g.
Proof.
  intros HE Hlen Hdone. unfold claimed, needs_alignment, start_at, cursor_at.
  destruct (manifest_ s !! i) as [sample|] eqn:Hi; simpl; [|done].
  destruct (lookup_lt_is_Some_2 (unalignedSamples_ w) i) as [u Hu].
  { rewrite Hlen. by eapply lookup_lt_Some. }
  rewrite Hu. simpl. rewrite (Hdone i u); [|by eapply lookup_lt_Some|done].
  rewrite HE. unfold initial_cursor. destruct (isNull _); simpl; [done|].
  destruct (_ <=? g) eqn:H1; [|done]. destruct (g <? _) eqn:H2; [|done].
  apply Nat.leb_le in H1. apply Nat.ltb_lt in H2. lia.
Qed.

Lemma claimed_advance (s : Settings) (w w' : Workflow) (j : nat) (u : UnalignedSample)
    (sample : SampleInfo) (i g : nat) :
  unalignedSamples_ w !! j = Some u →
  unalignedSamples_ w' = <[j := advance u]> (unalignedSamples_ w) →
  manifest_ s !! j = Some sample →
  initial_cursor (graphSpecPaths_ s) sample ≤ unprocessedGraphs_ u →
  Nat.b2n (claimed s w' i g)
  = Nat.b2n (claimed s w i g) + Nat.b2n ((i =? j) && (g =? unprocessedGraphs_ u)).
Proof.
  intros Hu Hw' Hs Hle. unfold claimed, start_at, cursor_at. rewrite Hw'.
  destruct (decide (i = j)) as [->|Hne].
  - rewrite list_lookup_insert_eq by by eapply lookup_lt_Some.
    rewrite Hu, Hs. simpl. rewrite Nat.eqb_refl. simpl.
    destruct (Nat.leb_spec (initial_cursor (graphSpecPaths_ s) sample) g),
      (Nat.ltb_spec g (S (unprocessedGraphs_ u))), (Nat.ltb_spec g (unprocessedGraphs_ u)),
      (Nat.eqb_spec g (unprocessedGraphs_ u)); simpl; lia.
  - rewrite list_lookup_insert_ne by done.
    apply Nat.eqb_neq in Hne. rewrite Hne. simpl. lia.
Qed.

Lemma align_pc_ok_ext (w w' : @Workflow Json) (pc : align_pc) :
  unalignedSamples_ w' = unalignedSamples_ w → graphs_end w' = graphs_end w →
  align_pc_ok w pc → align_pc_ok w' pc.
Proof.
  intros Hu HE. destruct pc; simpl; unfold cursors_done_below; rewrite ?Hu, ?HE; done.
Qed.

(** Advancing a cursor that is not at the end upsets no worker. *)
Lemma align_pc_ok_advance (w w' : @Workflow Json) (j : nat) (u : @UnalignedSample Json) (pc : align_pc) :
  unalignedSamples_ w !! j = Some u →
  unprocessedGraphs_ u ≠ graphs_end w →
  unalignedSamples_ w' = <[j := advance u]> (unalignedSamples_ w) →
  graphs_end w' = graphs_end w →
  align_pc_ok w pc → align_pc_ok w' pc.
Proof.
  intros Hu Hne Hw' HE.
  assert (Hstep : ∀ i, cursors_done_below w i → j < i → False).
  { intros i Hi Hj. apply Hne. by apply (Hi j u). }
  assert (Hkeep : ∀ i, cursors_done_below w i → cursors_done_below w' i).
  { intros i Hi j' u' Hj' Hl. rewrite Hw' in Hl. rewrite HE.
    destruct (decide (j' = j)) as [->|Hn]; [by destruct (Hstep i)|].
    rewrite list_lookup_insert_ne in Hl by done. by apply (Hi j'). }
  destruct pc; simpl; try (by apply Hkeep); [|done].
  intros Hi. destruct (Hstep _ Hi). by eapply lookup_lt_Some.
Qed.

(** A move of an alignment worker that throws nothing keeps the facts. *)
Lemma align_facts_step (s : Settings) (w w' : Workflow) (ths : list align_pc)
    (tr evs : list event) (t : nat) (pc pc' : align_pc) :
  settings w = s →
  align_facts s w ths tr →
  ths !! t = Some pc →
  align_step t pc w = (w', pc', evs) →
  count is_align_failure evs = 0 →
  align_facts s w' (<[t := pc']> ths) (evs ++ tr).
Proof.
  intros Hs (Hterm & Hths & Hcur & Hcount) Hpc Hstep Hnothrow.
  assert (HE : graphs_end w = length (graphSpecPaths_ s)) by (by unfold graphs_end; rewrite Hs).
  pose proof (Forall_lookup_1 _ _ _ _ Hths Hpc) as Hok.
  destruct pc as [i0 rd|i0 g0| |]; simpl in Hstep, Hok.
  - (* a critical section *)
    pose proof (alignSamples_locked_frame _ _ _ _ _ _ _ Hstep) as (Hs' & _ & Ht' & _ & _).
    assert (HE' : graphs_end w' = graphs_end w) by (by unfold graphs_end; rewrite Hs').
    apply alignSamples_locked_false in Hstep; [|done].
    destruct Hstep as [(-> & Hu' & -> & Hrest)
                      |[(j & g & u & -> & Hij & Hu & Hg & Hne & Hu' & -> & Hbetween)
                       |(_ & _ & j & ->)]]; [| |done].
    + (* every cursor is at the end: the worker returns *)
      split; [congruence|]. split; [|split].
      * apply Forall_insert.
        -- eapply Forall_impl; [exact Hths|]. intros pc. by apply align_pc_ok_ext.
        -- simpl. intros j u Hj Hl. rewrite Hu' in Hl. rewrite HE'.
           destruct (decide (j < i0)); [by apply (Hok j)|]. apply (Hrest j); [lia|done].
      * intros i u. rewrite Hu'. apply Hcur.
      * intros i g. destruct (Hcount i g) as (H1 & H2 & H3). simpl.
        pose proof (count_insert (align_in_flight i g) ths t _ AReturned Hpc) as Hins.
        simpl in Hins. repeat split; try lia.
        rewrite H1. unfold claimed, cursor_at. by rewrite Hu'.
    + (* graph [g] of sample [j] is handed out *)
      destruct (Hcur j u Hu) as (sample & Hsample & Hlo & Hhi). subst g.
      split; [congruence|]. split; [|split].
      * apply Forall_insert.
        -- eapply Forall_impl; [exact Hths|]. intros pc.
           by apply (align_pc_ok_advance w w' j u).
        -- simpl. intros j' u' Hj' Hl. rewrite Hu' in Hl. rewrite HE'.
           rewrite list_lookup_insert_ne in Hl by lia.
           destruct (decide (j' < i0)); [by apply (Hok j')|]. apply (Hbetween j'); [lia|done|done].
      * intros i u0. rewrite Hu'. intros Hl.
        destruct (decide (i = j)) as [->|Hn].
        -- rewrite list_lookup_insert_eq in Hl by by eapply lookup_lt_Some.
           injection Hl as <-. exists sample. simpl. split; [done|]. lia.
        -- rewrite list_lookup_insert_ne in Hl by done. by apply Hcur.
      * intros i g'. destruct (Hcount i g') as (H1 & H2 & H3).
        pose proof (count_insert (align_in_flight i g') ths t _
                      (ACall j (unprocessedGraphs_ u)) Hpc) as Hins.
        pose proof (claimed_advance s w w' j u sample i g' Hu Hu' Hsample Hlo) as Hadv.
        simpl in Hins |- *.
        rewrite (Nat.eqb_sym i j), (Nat.eqb_sym g' (unprocessedGraphs_ u)) in Hadv.
        destruct ((j =? i) && (unprocessedGraphs_ u =? g')); simpl in *; repeat split; lia.
  - (* the aligner comes back *)
    apply alignSamples_unlocked_cases in Hstep as (Hs' & Hu' & _ & _ & _ & Hcase).
    assert (HE' : graphs_end w' = graphs_end w) by (by unfold graphs_end; rewrite Hs').
    destruct Hcase as [(-> & Ht' & path & slot & ->)|(_ & _ & evs' & -> & _)]; [|done].
    split; [congruence|]. split; [|split].
    + apply Forall_insert.
      * eapply Forall_impl; [exact Hths|]. intros pc. by apply align_pc_ok_ext.
      * by apply (align_pc_ok_ext w w' (ACall i0 g0)).
    + intros i u. rewrite Hu'. apply Hcur.
    + intros i g. destruct (Hcount i g) as (H1 & H2 & H3).
      pose proof (count_insert (align_in_flight i g) ths t _ (ALoop i0 true) Hpc) as Hins.
      simpl in Hins |- *.
      destruct ((i0 =? i) && (g0 =? g)); simpl in *; repeat split; try lia;
        rewrite H1; unfold claimed, cursor_at; by rewrite Hu'.
  - injection Hstep as <- <- <-. by rewrite list_insert_id.
  - done.
Qed.

Lemma count_lookup_le {A : Type} (p : A → bool) (l : list A) (i : nat) (x : A) :
  l !! i = Some x → Nat.b2n (p x) ≤ count p l.
Proof.
  revert i. induction l as [|y l IH]; intros [|i] Hi; simpl in *; try done.
  - injection Hi as ->. unfold Nat.b2n. destruct (p x); lia.
  - specialize (IH i Hi). lia.
Qed.

(** Only a worker that ends up [AThrown] logs a throw, and a thrown worker
    stays thrown. *)
Lemma align_step_thrown (t : nat) (pc pc' : align_pc) (w w' : Workflow) (evs : list event) :
  align_step t pc w = (w', pc', evs) →
  (0 < count is_align_failure evs → pc' = AThrown) ∧ (pc = AThrown → pc' = AThrown).
Proof.
  destruct pc as [i rd|i g| |]; simpl; intros Hstep.
  - split; [|done]. intros Hpos.
    apply alignSamples_locked_events in Hstep as (_ & Hcount).
    destruct pc'; simpl in Hcount; try lia. done.
  - apply alignSamples_unlocked_cases in Hstep as (_ & _ & _ & _ & _ & Hcase).
    destruct Hcase as [(_ & _ & path & slot & ->)|(-> & _)]; [|done].
    split; [simpl; lia|done].
  - injection Hstep as <- <- <-. split; [simpl; lia|done].
  - injection Hstep as <- <- <-. done.
Qed.

Lemma settled_geno (s : Settings) (evs tr : list event) :
  Forall (λ e, is_geno_event e = true) evs →
  settled s tr → settled s (evs ++ tr).
Proof.
  intros Hall (Hthrow & Hcount). split.
  - rewrite count_geno_align; [done| |done]. by intros [].
  - intros i g. destruct (Hcount i g) as (H1 & H2 & H3).
    rewrite !count_geno_align; try done; by intros [].
Qed.

(** The invariant of the alignment phase. *)
Lemma reachable_align_inv (s : Settings) (w : Workflow) (st : RunState) :
  Workflow_new s = Some w → reachable w st → align_inv s st.
Proof.
  intros Hnew. pose proof Hnew as (Hs & Hu & Ha & Hterm & _)%Workflow_new_Some.
  revert st. apply reachable_ind.
  - (* the start *)
    unfold align_inv, run_start. rewrite Hs.
    destruct (_ && _); simpl; [lia|].
    split; [by rewrite length_replicate|]. split; [constructor|]. split; [lia|].
    intros _. split; [done|]. split; [|split].
    + apply Forall_replicate. simpl. intros j u Hj. lia.
    + rewrite Hu. intros i u Hl. apply list_lookup_fmap_Some_1 in Hl as (sample & -> & Hl).
      exists sample. split; [done|]. simpl. unfold initial_cursor.
      destruct (isNull _); lia.
    + intros i g. rewrite count_replicate. simpl. repeat split; try lia.
      unfold claimed, start_at, cursor_at. rewrite Hu, list_lookup_fmap.
      destruct (manifest_ s !! i) as [sample|]; simpl; [|done].
      destruct (Nat.leb_spec (initial_cursor (graphSpecPaths_ s) sample) g),
        (Nat.ltb_spec g (initial_cursor (graphSpecPaths_ s) sample)); simpl; lia.
  - (* a move *)
    intros t st Hreach IH.
    destruct (reachable_shape s w st Hnew Hreach) as (Hset & Hlen & _).
    unfold align_inv in *. revert IH. tick_cases t st; simpl; rewrite ?Hpool; try done.
    + (* the alignment pool is joined and hands a failure on *)
      intros (_ & Hall & _) Hpos. exfalso.
      rewrite count_none in Hpos; [lia|].
      eapply Forall_impl; [exact Hall|]. intros e He. unfold is_geno_event. by rewrite He.
    + (* the alignment pool is joined: on to genotyping *)
      intros (Hths & _ & Hthrown & Hfacts).
      unfold execute_failed in Hfailed. rewrite existsb_count in Hfailed.
      apply negb_false_iff, Nat.eqb_eq in Hfailed.
      assert (Hnothrow : count is_align_failure (trace st) = 0) by lia.
      destruct (Hfacts Hnothrow) as (_ & Hok & Hcur & Hcount).
      split; [done|].
      unfold execute_joined in Hjoined. apply forallb_Forall in Hjoined.
      intros i g. destruct (Hcount i g) as (H1 & H2 & H3).
      rewrite (count_none (align_in_flight i g)) in H2.
      2:{ eapply Forall_impl; [exact Hjoined|]. by intros []. }
      split; [lia|]. split; [lia|]. intros HN.
      destruct ths as [|pc0 ths]; [simpl in Hths; lia|].
      apply Forall_cons in Hok as [Hok0 _]. pose proof Hjoined as [Hterm0 _]%Forall_cons.
      destruct pc0; try done. simpl in Hok0.
      rewrite <- (claimed_done s (workflow st) i g); try done.
      unfold graphs_end. by rewrite Hset.
    + (* a worker of the alignment pool moves *)
      intros (Hths & Hall & Hthrown & Hfacts).
      pose proof (align_step_frame _ _ _ _ _ _ Hstep) as (_ & _ & _ & _ & Hevs).
      pose proof (align_step_thrown _ _ _ _ _ _ Hstep) as (Hthrow1 & Hthrow2).
      split; [by rewrite length_insert|]. split; [by apply Forall_app|]. split.
      * rewrite count_app. intros Hpos.
        pose proof (count_insert align_thrown ths t _ pc' Hpc) as Hins.
        pose proof (count_lookup_le align_thrown ths t _ Hpc) as Hle.
        destruct (decide (0 < count is_align_failure evs)) as [Hev|Hev].
        -- rewrite (Hthrow1 Hev) in *. simpl in Hins. lia.
        -- assert (0 < count align_thrown ths) as Hold by (apply Hthrown; lia).
           destruct pc; try (simpl in Hins; lia).
           rewrite Hthrow2 in * by done. simpl in Hins. lia.
      * rewrite count_app. intros Hzero.
        apply (align_facts_step s (workflow st) w' ths (trace st) evs t pc pc'); try done.
        -- apply Hfacts. lia.
        -- lia.
    + (* a worker of the genotyping pool moves *)
      intros Hsettled. apply geno_step_frame in Hstep as (_ & _ & _ & evs & -> & Hevs).
      destruct st' as [w1 f1 c1 o1 p1 tr1]. simpl in *. by apply settled_geno.
Qed.

Lemma alignment_over_settled (s : Settings) (w : Workflow) (st : RunState) :
  Workflow_new s = Some w → reachable w st → alignment_over st → settled s (trace st).
Proof.
  intros Hnew Hreach Hover. pose proof (reachable_align_inv s w st Hnew Hreach) as Hinv.
  unfold align_inv, alignment_over in *. destruct (pool st); try done. by apply Hinv.
Qed.

(** ** The phases in the trace *)

Lemma reachable_phase_inv (w : Workflow) (st : RunState) :
  reachable w st → phase_inv st.
Proof.
  revert st. apply reachable_ind.
  - exists [], []. rewrite run_start_trace. repeat split; try done. by destruct (pool _).
  - intros t st _ (gpart & apart & Htr & Hg & Ha & Hp). unfold phase_inv.
    tick_cases t st; simpl; rewrite ?Hpool; try by (exists gpart, apart).
    + subst gpart. apply align_step_frame in Hstep as (_ & _ & _ & _ & Hevs).
      exists [], (evs ++ apart). rewrite Htr. repeat split; try done. by apply Forall_app.
    + apply geno_step_frame in Hstep as (_ & _ & _ & evs & -> & Hevs).
      destruct st' as [w1 f1 c1 o1 p1 tr1]. simpl in *.
      exists (evs ++ gpart), apart. rewrite Htr, (assoc_L (++)). repeat split; try done.
      by apply Forall_app.
Qed.

(** Where an event of the genotyping phase sits in such a trace. *)
Lemma split_at_geno_event (later earlier gpart apart : list (@event Json)) (e : @event Json) :
  later ++ e :: earlier = gpart ++ apart →
  Forall (λ e, is_align_event e = true) apart →
  is_align_event e = false →
  ∃ gpart', gpart = later ++ e :: gpart' ∧ earlier = gpart' ++ apart.
Proof.
  intros Heq Ha He. revert gpart Heq.
  induction later as [|x later IH]; intros [|y gpart] Heq; simpl in *.
  - subst apart. apply Forall_cons in Ha as [Hx _]. congruence.
  - injection Heq as -> ->. by exists gpart.
  - subst apart. apply Forall_cons in Ha as [_ Ha]. apply Forall_app in Ha as [_ Ha].
    apply Forall_cons in Ha as [Hx _]. congruence.
  - injection Heq as -> Heq. destruct (IH gpart Heq) as (gpart' & -> & ->). by exists gpart'.
Qed.

(** ** The barrier between the phases *)

(** C2.  Whenever a worker of the genotyping phase does anything, be it its
    first claim and so in particular whenever the genotyper is called, for
    whatever graph, the alignment phase lies wholly in the past: no event of
    the alignment phase comes after, nothing has failed in the alignment
    phase, and every claim of the alignment phase was followed by the call
    of the aligner and by its return before. *)
Theorem genotyping_after_alignment (s : Settings) (w : Workflow) (st : RunState)
    (later earlier : list event) (e : event) :
  Workflow_new s = Some w →
  reachable w st →
  trace st = later ++ e :: earlier →
  is_geno_event e = true →
  Forall (λ e, is_align_event e = false) later
  ∧ count is_align_failure earlier = 0
  ∧ ∀ i g, count (is_align_call i g) earlier = count (is_align_claim i g) earlier
           ∧ count (is_align_return i g) earlier = count (is_align_claim i g) earlier
           ∧ count (is_align_claim i g) later = 0.
Proof.
  intros Hnew Hreach Htr He.
  assert (He' : is_align_event e = false).
  { unfold is_geno_event in He. by destruct (is_align_event e). }
  destruct (reachable_phase_inv w st Hreach) as (gpart & apart & Hsplit & Hg & Ha & Hp).
  rewrite Htr in Hsplit.
  destruct (split_at_geno_event _ _ _ _ _ Hsplit Ha He') as (gpart' & -> & ->).
  apply Forall_app in Hg as [Hlater Hg]. apply Forall_cons in Hg as [_ Hg].
  assert (Hover : alignment_over st).
  { unfold alignment_over. destruct (pool st); try done.
    - by destruct later.
    - rewrite Htr, count_app. simpl. rewrite He. lia. }
  destruct (alignment_over_settled s w st Hnew Hreach Hover) as (Hthrow & Hcount).
  rewrite Htr in Hthrow, Hcount.
  assert (Hdrop : ∀ p, (∀ e, is_geno_event e = true → p e = false) →
            count p (later ++ e :: gpart' ++ apart) = count p (gpart' ++ apart)).
  { intros p Hp'. rewrite (count_geno_align p later); [|done|done].
    apply (count_geno_align p [_]); [done|]. by constructor. }
  split; [|split].
  - eapply Forall_impl; [exact Hlater|]. intros e0. unfold is_geno_event.
    by destruct (is_align_event e0).
  - rewrite Hdrop in Hthrow; [done|]. by intros [].
  - intros i g. destruct (Hcount i g) as (H1 & H2 & _).
    rewrite !Hdrop in H1, H2 by by intros []. split; [done|]. split; [done|].
    apply count_none. eapply Forall_impl; [exact Hlater|]. by intros [].
Qed.

(** ** The genotyping phase and the combined stream *)

Lemma written_cons_write (t g : nat) (output : Json) (tr : list event) :
  written (EvWrite t g output :: tr) = written tr ++ [(g, output)].
Proof. done. Qed.

Lemma written_cons_other (e : @event Json) (tr : list (@event Json)) :
  is_write e = false → written (e :: tr) = written tr.
Proof. unfold written. by destruct e. Qed.

Lemma written_app_other (evs tr : list (@event Json)) :
  Forall (λ e, is_write e = false) evs → written (evs ++ tr) = written tr.
Proof.
  induction 1 as [|e evs He _ IH]; simpl; [done|]. by rewrite written_cons_other.
Qed.

Lemma genotype_of_ext (w w' : Workflow) (g : nat) :
  settings w' = settings w → alignedSamples_ w' = alignedSamples_ w →
  genotype_of w' g = genotype_of w g.
Proof. unfold genotype_of. by intros -> ->. Qed.

(** Appending a record to the stream the way [genotypeGraphs] does. *)
Lemma stream_append (open : string) (recs : list string) (x : string) :
  (open +:+ join "," recs) +:+ (if nonempty recs then "," else EmptyString) +:+ x
  = open +:+ join "," (recs ++ [x]).
Proof.
  rewrite join_snoc, string_app_assoc. by destruct recs.
Qed.

Lemma geno_pc_ok_ext (st st' : RunState) (pc : geno_pc) :
  settings (workflow st') = settings (workflow st) →
  alignedSamples_ (workflow st') = alignedSamples_ (workflow st) →
  terminate_ (workflow st') = terminate_ (workflow st) →
  ungenotypedSamples st' = ungenotypedSamples st →
  geno_pc_ok st pc → geno_pc_ok st' pc.
Proof.
  intros Hs Ha Ht Hc. destruct pc as [[r|]| | |]; simpl; try done.
  - unfold record_ok. by rewrite (genotype_of_ext _ _ _ Hs Ha).
  - by rewrite Ht, Hc, Ha.
Qed.

Lemma record_ok_ext (w w' : Workflow) (r : nat * Json) :
  settings w' = settings w → alignedSamples_ w' = alignedSamples_ w →
  record_ok w r → record_ok w' r.
Proof. intros Hs Ha. unfold record_ok. by rewrite (genotype_of_ext _ _ _ Hs Ha). Qed.

Lemma nonempty_fmap {A B : Type} (f : A → B) (l : list A) :
  nonempty (f <$> l) = nonempty l.
Proof. by destruct l. Qed.

(** The tail of an iteration: the pending record goes to the stream. *)
Lemma geno_facts_write (s : Settings) (st : RunState) (ths : list geno_pc) (t : nat)
    (pending : option (nat * Json)) :
  settings (workflow st) = s →
  geno_facts s st ths →
  ths !! t = Some (GLoop pending) →
  geno_facts s (write_pending t pending st) (<[t := GLoop None]> ths).
Proof.
  intros Hs (Hfos & Hfirst & Hrec & Hths & Hthrow & Hnofile & Hbusy) Hpc.
  pose proof (Forall_lookup_1 _ _ _ _ Hths Hpc) as Hok.
  pose proof (count_insert geno_thrown_pc ths t _ (GLoop None) Hpc) as Hins1.
  pose proof (count_insert geno_busy ths t _ (GLoop None) Hpc) as Hins2.
  simpl in Hins1, Hins2.
  destruct (write_pending_frame t pending st) as (Hs1 & _ & Ha1 & Ht1 & Hc1 & _).
  assert (Hths1 : Forall (geno_pc_ok (write_pending t pending st)) (<[t := GLoop None]> ths)).
  { apply Forall_insert; [|done]. eapply Forall_impl; [exact Hths|].
    intros pc. by apply geno_pc_ok_ext. }
  destruct (write_pending_cases t pending st)
    as [(Heq & Hwhy)|(g & output & -> & Hfile & Hw1 & Hfos1 & Htr1)].
  - (* nothing is written *)
    rewrite Heq in *. repeat split; try done.
    + intros H. specialize (Hthrow H). lia.
    + by apply Hbusy.
    + intros Hfile. destruct (Hbusy H) as (_ & Hb). specialize (Hb Hfile).
      destruct Hwhy as [->|Hno]; [simpl in Hins2; lia|]. congruence.
  - (* the record is appended *)
    simpl in Hins1, Hins2.
    split; [|split; [|split; [|split; [|split; [|split]]]]]; try done.
    + rewrite Hfos1, Htr1, Hfos, Hfirst. unfold records.
      rewrite written_cons_write, fmap_app. simpl.
      rewrite <- (nonempty_fmap (λ r, writeJson r.2)). apply stream_append.
    + rewrite Hw1, Htr1, written_cons_write. simpl. by destruct (written (trace st)).
    + rewrite Htr1, written_cons_write. apply Forall_app. split.
      * eapply Forall_impl; [exact Hrec|]. intros r. by apply record_ok_ext.
      * constructor; [|done]. by apply (record_ok_ext (workflow st)).
    + rewrite Ht1, Htr1. simpl. intros H. specialize (Hthrow H). lia.
    + rewrite <- Hs. congruence.
    + rewrite Ht1, Hc1, Ha1, Htr1, written_cons_write, length_app. simpl.
      intros H. destruct (Hbusy H) as (Hle & Hb). split; [done|].
      intros Hf. specialize (Hb Hf). lia.
Qed.

(** The claim of an iteration: the [while] test, [ungenotypedSamples++] and
    the look at [terminate_]. *)
Lemma geno_facts_claim (s : Settings) (st st' : RunState) (ths : list geno_pc) (t : nat)
    (pc' : geno_pc) :
  geno_facts s st ths →
  ths !! t = Some (GLoop None) →
  workflow st' = workflow st → fos st' = fos st →
  (ungenotypedSamples st = length (alignedSamples_ (workflow st))
   ∧ pc' = GReturned ∧ ungenotypedSamples st' = ungenotypedSamples st
   ∧ trace st' = trace st)
  ∨ (ungenotypedSamples st ≠ length (alignedSamples_ (workflow st))
     ∧ ungenotypedSamples st' = S (ungenotypedSamples st)
     ∧ trace st' = EvGenoClaim t (ungenotypedSamples st) :: trace st
     ∧ pc' = if terminate_ (workflow st) then GReturned
             else GCall (ungenotypedSamples st)) →
  geno_facts s st' (<[t := pc']> ths).
Proof.
  intros (Hfos & Hfirst & Hrec & Hths & Hthrow & Hnofile & Hbusy) Hpc Hw Hf Hcase.
  pose proof (count_insert geno_thrown_pc ths t _ pc' Hpc) as Hins1.
  pose proof (count_insert geno_busy ths t _ pc' Hpc) as Hins2.
  simpl in Hins1, Hins2.
  destruct Hcase as [(Hend & -> & Hc & Htr)|(Hnotend & Hc & Htr & ->)].
  - (* no row left *)
    unfold geno_facts. rewrite Hw, Hf, Hc, Htr. simpl in Hins1, Hins2.
    repeat split; try done.
    + apply Forall_insert; [|by simpl; rewrite Hw, Hc].
      eapply Forall_impl; [exact Hths|].
      intros pc. apply geno_pc_ok_ext; by rewrite ?Hw.
    + intros H. specialize (Hthrow H). lia.
    + by apply Hbusy.
    + intros Hfile. destruct (Hbusy H) as (_ & Hb). specialize (Hb Hfile). lia.
  - (* a row is handed out *)
    unfold geno_facts. rewrite Hw, Hf, Hc, Htr, written_cons_other by done. unfold records.
    rewrite written_cons_other by done. fold (records (trace st)).
    repeat split; try done.
    + apply Forall_insert.
      * eapply Forall_impl; [exact Hths|]. intros pc Hok.
        destruct pc as [[r|]| | |]; simpl in *; try done.
        -- by rewrite Hw.
        -- rewrite Hw. intros Ht. by specialize (Hok Ht).
      * destruct (terminate_ (workflow st)) eqn:Ht; simpl; [|done]. rewrite Hw. congruence.
    + simpl. intros H. specialize (Hthrow H).
      destruct (terminate_ (workflow st)); simpl in Hins1; lia.
    + destruct (Hbusy H) as (Hle & _). lia.
    + intros Hfile. destruct (Hbusy H) as (_ & Hb). specialize (Hb Hfile).
      rewrite H in *. simpl in Hins2. lia.
Qed.

(** The genotyper comes back, or throws. *)
Lemma geno_facts_call (s : Settings) (st st' : RunState) (ths : list geno_pc) (t g : nat)
    (pc' : geno_pc) :
  geno_facts s st ths →
  ths !! t = Some (GCall g) →
  genotypeGraphs_unlocked t g st = (st', pc') →
  geno_facts s st' (<[t := pc']> ths).
Proof.
  intros (Hfos & Hfirst & Hrec & Hths & Hthrow & Hnofile & Hbusy) Hpc Hstep.
  pose proof (count_insert geno_thrown_pc ths t _ pc' Hpc) as Hins1.
  pose proof (count_insert geno_busy ths t _ pc' Hpc) as Hins2.
  simpl in Hins1, Hins2.
  pose proof (geno_step_frame t (GCall g) pc' st st' Hstep) as (Hs' & _ & Ha' & _).
  apply genotypeGraphs_unlocked_cases in Hstep as (Hf & Hc & Hfp & Hcase).
  destruct Hcase as [(-> & Ht & evs & Htr & Hevs)
                    |(path & output & -> & Hw & Hpath & Hgen & Htr)].
  - (* thrown *)
    assert (Hwr : written (trace st') = written (trace st)).
    { rewrite Htr, written_cons_other by done. apply written_app_other.
      destruct Hevs as [[-> _]|(path & _ & ->)]; by repeat constructor. }
    unfold geno_facts, records. rewrite Hwr, Hf, Hfp. simpl in Hins1.
    repeat split; try done.
    + eapply Forall_impl; [exact Hrec|]. intros r. by apply record_ok_ext.
    + apply Forall_insert; [|done]. eapply Forall_impl; [exact Hths|].
      intros pc Hok. destruct pc as [[r|]| | |]; simpl in *; try done.
      * by apply (record_ok_ext (workflow st)).
      * congruence.
    + intros _. lia.
    + congruence.
    + congruence.
  - (* returned *)
    assert (Hwr : written (trace st') = written (trace st)).
    { rewrite Htr. by rewrite !written_cons_other. }
    unfold geno_facts, records. rewrite Hwr, Hf, Hw, Hc. simpl in Hins1, Hins2.
    repeat split; try done.
    + apply Forall_insert; [|by simpl; unfold record_ok; rewrite Hw].
      eapply Forall_impl; [exact Hths|].
      intros pc. apply geno_pc_ok_ext; by rewrite ?Hw.
    + rewrite Htr. simpl. intros H. specialize (Hthrow H). lia.
    + by apply Hbusy.
    + intros Hfile. destruct (Hbusy H) as (_ & Hb). specialize (Hb Hfile). lia.
Qed.

(** A move of a worker of the genotyping phase keeps the facts. *)
Lemma geno_facts_step (s : Settings) (st st' : RunState) (ths : list geno_pc) (t : nat)
    (pc pc' : geno_pc) :
  settings (workflow st) = s →
  geno_facts s st ths →
  ths !! t = Some pc →
  geno_step t pc st = (st', pc') →
  geno_facts s st' (<[t := pc']> ths).
Proof.
  intros Hs Hfacts Hpc Hstep. destruct pc as [pending|g| |]; simpl in Hstep.
  - pose proof (geno_facts_write s st ths t pending Hs Hfacts Hpc) as Hfacts1.
    apply genotypeGraphs_locked_cases in Hstep as (Hw & Hf & _ & Hcase).
    destruct (write_pending_frame t pending st) as (_ & _ & Ha1 & Ht1 & Hc1 & _).
    rewrite <- (list_insert_insert_eq ths t pc' (GLoop None)).
    apply (geno_facts_claim s (write_pending t pending st)); try done.
    + apply list_lookup_insert_eq. by eapply lookup_lt_Some.
    + by rewrite Hc1, Ha1, Ht1.
  - by apply (geno_facts_call s st st' ths t g).
  - injection Hstep as <- <-. by rewrite list_insert_id.
  - injection Hstep as <- <-. by rewrite list_insert_id.
Qed.

Lemma written_align_trace (tr : list (@event Json)) :
  Forall (λ e, is_align_event e = true) tr → written tr = [].
Proof.
  intros Hall. rewrite <- (app_nil_r tr). apply written_app_other.
  eapply Forall_impl; [exact Hall|]. by intros [].
Qed.

(** The invariant of the stream and of the genotyping phase. *)
Lemma reachable_geno_inv (s : Settings) (w : Workflow) (st : RunState) :
  Workflow_new s = Some w → reachable w st → geno_inv s st.
Proof.
  intros Hnew. pose proof Hnew as (Hs & _ & _ & _ & Hfp)%Workflow_new_Some.
  revert st. apply reachable_ind.
  - unfold geno_inv, run_start. rewrite Hs.
    destruct (_ && _); simpl; [done|]. by repeat split.
  - intros t st Hreach IH.
    destruct (reachable_shape s w st Hnew Hreach) as (Hset & _ & _).
    pose proof (reachable_align_inv s w st Hnew Hreach) as Halign.
    unfold geno_inv, align_inv in *. revert IH Halign.
    tick_cases t st; simpl; rewrite ?Hpool; try done.
    + (* the alignment pool is joined: the genotyping pool starts *)
      intros (Hfos & Hfirst & Hall) (_ & _ & Hthrown & Hfacts).
      unfold execute_failed in Hfailed. rewrite existsb_count in Hfailed.
      apply negb_false_iff, Nat.eqb_eq in Hfailed.
      assert (Hnothrow : count is_align_failure (trace st) = 0) by lia.
      destruct (Hfacts Hnothrow) as (Hterm & _).
      rewrite Hset. split; [by rewrite length_replicate|].
      unfold geno_facts, records. simpl. rewrite (written_align_trace _ Hall). simpl.
      rewrite string_app_nil_r, !count_replicate. simpl.
      repeat split; try done; try lia.
      * by apply Forall_replicate.
      * intros [H|H]; [congruence|]. rewrite count_none in H; [lia|].
        eapply Forall_impl; [exact Hall|]. by intros [].
    + (* a worker of the alignment pool moves *)
      intros (Hfos & Hfirst & Hall) _.
      apply align_step_frame in Hstep as (_ & _ & _ & Hfp' & Hevs).
      repeat split; try done; [congruence|by apply Forall_app].
    + (* the genotyping pool is joined: the stream is closed *)
      intros (Hths & Hfos & Hfirst & Hrec & Hok & Hthrow & Hnofile & Hbusy) _.
      unfold execute_failed in Hfailed. rewrite existsb_count in Hfailed.
      apply negb_false_iff, Nat.eqb_eq in Hfailed.
      unfold execute_joined in Hjoined. apply forallb_Forall in Hjoined.
      assert (Hterm : terminate_ (workflow st) = false).
      { destruct (terminate_ (workflow st)); [|done]. assert (0 < 0); [|lia].
        rewrite <- Hfailed at 2. apply Hthrow. by left. }
      assert (Hnothrow : count is_geno_throw (trace st) = 0).
      { destruct (count is_geno_throw (trace st)) eqn:Hn; [done|].
        assert (0 < 0); [|lia]. rewrite <- Hfailed at 2. apply Hthrow. right. lia. }
      rewrite Hset. unfold frame_close.
      split; [by rewrite Hfos, string_app_assoc|]. repeat split; try done.
      intros HN Hfile. destruct (Hbusy Hterm) as (_ & Hb). specialize (Hb Hfile).
      rewrite (count_none geno_busy) in Hb.
      2:{ eapply Forall_impl; [exact Hjoined|]. by intros [[]| | |]. }
      destruct ths as [|pc0 ths]; [simpl in Hths; lia|].
      apply Forall_cons in Hok as [Hok0 _]. apply Forall_cons in Hjoined as [Hterm0 _].
      simpl in Hfailed. destruct pc0; try done. simpl in Hok0. rewrite <- Hok0 by done. lia.
    + (* a worker of the genotyping pool moves *)
      intros (Hths & Hfacts) _. split; [by rewrite length_insert|].
      exact (geno_facts_step s st st' ths t pc pc' Hset Hfacts Hpc Hstep).
Qed.

(** C5, as amended.  When [run] has returned, the combined stream is the
    opening frame, the records in the order they were written with a single
    comma before each but the first, and the closing frame.  The frame is
    written if and only if the output file path is not empty and there is
    more than one graph spec; it is ['['] at the start and [']'] followed by
    a line feed at the end, and nothing otherwise.  Without an output file
    path the stream stays empty; with one, and at least one worker, there
    are as many records as rows of the table. *)
Theorem combined_stream_framing (s : Settings) (w : Workflow) (st : RunState) :
  Workflow_new s = Some w →
  reachable w st →
  pool st = Finished →
  fos st = frame_open s +:+ join "," (records (trace st)) +:+ frame_close s
  ∧ frame_open s
    = (if has_outputFile s && (1 <? length (graphSpecPaths_ s)) then "[" else EmptyString)
  ∧ frame_close s
    = (if has_outputFile s && (1 <? length (graphSpecPaths_ s))
       then String "]" (String "010" EmptyString) else EmptyString)
  ∧ (has_outputFile s = false → fos st = EmptyString)
  ∧ (1 ≤ threads (parameters_ s) → has_outputFile s = true →
     length (records (trace st)) = Nat.max 1 (length (graphSpecPaths_ s))).
Proof.
  intros Hnew Hreach Hfin.
  pose proof (reachable_geno_inv s w st Hnew Hreach) as Hinv.
  destruct (reachable_shape s w st Hnew Hreach) as (_ & _ & Hshape).
  unfold geno_inv in Hinv. rewrite Hfin in Hinv.
  destruct Hinv as (Hfos & _ & _ & _ & Hnofile & Hlen).
  split; [done|]. split; [done|]. split; [done|]. split.
  - intros Hno. rewrite Hfos. unfold records, frame_open, frame_close, framed.
    by rewrite (Hnofile Hno), Hno.
  - intros HN Hfile. unfold records. rewrite length_fmap, (Hlen HN Hfile).
    rewrite <- (length_fmap length), Hshape. apply length_replicate.
Qed.

(** ** Failure and the completion status *)

(** [run] returns only from a run in which no worker caught a failure. *)
Lemma finished_clean (s : Settings) (w : Workflow) (st : RunState) :
  Workflow_new s = Some w → reachable w st → pool st = Finished →
  terminate_ (workflow st) = false ∧ count is_throw (trace st) = 0.
Proof.
  intros Hnew Hreach Hfin.
  pose proof (reachable_geno_inv s w st Hnew Hreach) as Hinv.
  pose proof (reachable_align_inv s w st Hnew Hreach) as Halign.
  unfold geno_inv, align_inv in *. rewrite Hfin in *.
  destruct Hinv as (_ & _ & Hterm & Hthrow & _). destruct Halign as (Hathrow & _).
  split; [done|]. rewrite count_is_throw. lia.
Qed.

Lemma reachable_flag_inv (w : Workflow) (st : RunState) :
  reachable w st → flag_inv st.
Proof.
  revert st. apply reachable_ind.
  - unfold flag_inv. rewrite run_start_trace. simpl. lia.
  - intros t st _ IH. unfold flag_inv in *. revert IH.
    tick_cases t st; simpl; try done.
    + (* a worker of the alignment pool moves *)
      rewrite !count_app. destruct pc as [i rd|i g| |]; simpl in Hstep.
      * pose proof (alignSamples_locked_frame _ _ _ _ _ _ _ Hstep) as (_ & _ & -> & _).
        apply alignSamples_locked_events in Hstep as (Hall & _).
        rewrite (count_none is_align_throw evs), (count_none is_geno_throw evs); [done| |];
          (eapply Forall_impl; [exact Hall|]; by intros e [(j & g & ->)|(j & ->)]).
      * apply alignSamples_unlocked_cases in Hstep as (_ & _ & _ & _ & _ & Hcase).
        destruct Hcase as [(_ & -> & path & slot & ->)|(_ & -> & _)]; done.
      * by injection Hstep as <- <- <-.
      * by injection Hstep as <- <- <-.
    + (* a worker of the genotyping pool moves *)
      destruct pc as [pending|g| |]; simpl in Hstep.
      * apply genotypeGraphs_locked_cases in Hstep as (-> & _ & _ & Hcase).
        destruct (write_pending_frame t pending st) as (_ & _ & _ & -> & _).
        assert (Hwr : ∀ p : @event Json → bool, (∀ t g o, p (EvWrite t g o) = false) →
                  count p (trace (write_pending t pending st)) = count p (trace st)).
        { intros p Hp. destruct (write_pending_cases t pending st)
            as [(-> & _)|(g & output & _ & _ & _ & _ & ->)]; [done|]. simpl. by rewrite Hp. }
        destruct Hcase as [(_ & _ & _ & ->)|(_ & _ & -> & _)]; simpl;
          by rewrite !Hwr.
      * apply genotypeGraphs_unlocked_cases in Hstep as (_ & _ & _ & Hcase).
        destruct Hcase as [(_ & -> & _)|(path & output & _ & -> & _ & _ & ->)]; done.
      * by injection Hstep as <- <-.
      * by injection Hstep as <- <-.
Qed.

(** At the join of a pool a worker was left by an exception exactly when
    the termination flag is set, as long as every reader was opened: but
    for the readers, that the pool hands on the failure of a worker and
    that the failure is seen by a look at the termination flag come to the
    same. *)
Lemma pool_failure_is_flag (s : Settings) (w : Workflow) (st : RunState) :
  Workflow_new s = Some w → reachable w st →
  count is_reader_throw (trace st) = 0 →
  match pool st with
  | Aligning ths => execute_failed align_thrown ths = terminate_ (workflow st)
  | Genotyping ths => execute_failed geno_thrown_pc ths = terminate_ (workflow st)
  | _ => True
  end.
Proof.
  intros Hnew Hreach Hreaders.
  pose proof (reachable_align_inv s w st Hnew Hreach) as Halign.
  pose proof (reachable_geno_inv s w st Hnew Hreach) as Hgeno.
  pose proof (reachable_failure_inv s w st Hnew Hreach) as Hfail.
  pose proof (reachable_flag_inv w st Hreach) as Hflag.
  pose proof (count_is_align_failure (trace st)) as Hsum.
  unfold align_inv, geno_inv, failure_inv, flag_inv, execute_failed in *.
  destruct (pool st) as [ths|ths| |]; try done; rewrite existsb_count.
  - destruct Halign as (_ & _ & Hthrown & Hfacts).
    destruct (count is_align_failure (trace st)) as [|n] eqn:Hn.
    + destruct (Hfacts eq_refl) as (-> & _).
      destruct (count align_thrown ths); [done|]. assert (0 < 0); [|lia]. apply Hfail. lia.
    + rewrite Hflag by lia.
      destruct (count align_thrown ths) eqn:Hc; [|done].
      assert (0 < 0); [|lia]. apply Hthrown. lia.
  - destruct Hgeno as (_ & _ & _ & _ & _ & Hthrow & _).
    destruct (terminate_ (workflow st)) eqn:Hterm.
    + destruct (count geno_thrown_pc ths) eqn:Hc; [|done].
      assert (0 < 0); [|lia]. apply Hthrow. by left.
    + destruct (count geno_thrown_pc ths) eqn:Hc; [done|].
      assert (0 < count is_geno_throw (trace st)) by (apply Hfail; lia).
      assert (false = true) by (apply Hflag; lia). done.
Qed.

(** C4.  When the process has exited, its status is zero exactly when
    [run] returned, and [run] returns only if the termination flag is unset
    and no aligner or genotyper call failed.  So the status is non-zero
    whenever the flag was set or a collaborator call failed; and it is zero
    on full success: when the options went through, the workflow was
    constructed, the sink of the combined stream could be opened and no
    worker logged a failure.  (The pool handing a worker's failure on to
    [run], and the failure reaching the completion status, are those of the
    absent [common/Threads.hh] and [common/Program.hh] as the spec
    describes them.) *)
Theorem completion_status (vm : VariablesMap) (sched : list nat) (status : ExitStatus)
    (final : option RunState) :
  main vm sched = Exited status final →
  (status = StatusZero ↔ ∃ st, final = Some st ∧ pool st = Finished)
  ∧ (∀ st, final = Some st → pool st = Finished →
       terminate_ (workflow st) = false ∧ count is_throw (trace st) = 0)
  ∧ (∀ st, final = Some st →
       terminate_ (workflow st) = true ∨ 0 < count is_throw (trace st) →
       status = StatusNonZero)
  ∧ (∀ st, final = Some st →
       sink_opens (settings (workflow st)) = true → count is_throw (trace st) = 0 →
       status = StatusZero).
Proof.
  unfold main, common_run, runGrmpy.
  destruct (postProcess vm) as [o|e].
  2:{ intros [= <- <-]. split; [|done]. split; [done|]. by intros (st & ? & _). }
  destruct (Workflow_new (workflow_settings o)) as [w|] eqn:Hnew.
  2:{ intros [= <- <-]. split; [|done]. split; [done|]. by intros (st & ? & _). }
  assert (Hreach : reachable w (exec sched (run_start w))) by by exists sched.
  pose proof (finished_clean (workflow_settings o) w _ Hnew Hreach) as Hclean.
  pose proof (reachable_failure_inv (workflow_settings o) w _ Hnew Hreach) as Hfail.
  destruct (reachable_shape (workflow_settings o) w _ Hnew Hreach) as (Hset & _).
  unfold failure_inv in Hfail.
  destruct (pool (exec sched (run_start w))) eqn:Hpool; intros [= <- <-].
  - split; [|split; [|split]].
    + split; [|done]. intros _. by eexists.
    + intros st [= <-] _. by apply Hclean.
    + intros st [= <-] Hbad. destruct (Hclean eq_refl) as (Hterm & Hthrow).
      destruct Hbad as [Hbad|Hbad]; [congruence|lia].
    + done.
  - split; [|split; [|split]].
    + split; [done|]. intros (st & [= <-] & Hfin). congruence.
    + intros st [= <-] Hfin. congruence.
    + done.
    + intros st [= <-] Hsink Hnone. rewrite Hset in Hsink.
      destruct Hfail as [Hfail|Hfail]; [congruence|lia].
Qed.

(** ** The shape of the table *)

(** C10.  The constructor creates [max(1, #graphs)] rows, each holding the
    manifest's samples, one entry per sample; every move of the run leaves
    the number of rows and the length of every row as they are (the aligner
    rewrites one existing slot in place, nothing is appended or removed);
    so in every state of the run the table has [max(1, #graphs)] rows of as
    many entries as the manifest has samples. *)
Theorem alignedSamples_shape (s : Settings) (w : Workflow) :
  Workflow_new s = Some w →
  alignedSamples_ w = replicate (Nat.max 1 (length (graphSpecPaths_ s))) (manifest_ s)
  ∧ ∀ st, reachable w st →
      length (alignedSamples_ (workflow st)) = Nat.max 1 (length (graphSpecPaths_ s))
      ∧ Forall (λ row, length row = length (manifest_ s)) (alignedSamples_ (workflow st))
      ∧ ∀ t, length <$> alignedSamples_ (workflow (tick t st))
             = length <$> alignedSamples_ (workflow st).
Proof.
  intros Hnew. split; [by apply Workflow_new_Some in Hnew as (_ & _ & ? & _)|].
  intros st Hreach. destruct (reachable_shape s w st Hnew Hreach) as (_ & _ & Hshape).
  split; [|split].
  - by rewrite <- (length_fmap length), Hshape, length_replicate.
  - apply Forall_forall. intros row Hrow.
    assert (length row ∈ length <$> alignedSamples_ (workflow st)) as Hin
      by (by apply list_elem_of_fmap_2).
    rewrite Hshape in Hin. by apply elem_of_replicate in Hin as [? _].
  - intros t. by destruct (tick_shape t st) as (_ & _ & ?).
Qed.

(** ** The termination flag at a claim *)

(** C3, as amended.  In both phases a worker advances the cursor first and
    looks at the termination flag next, still holding the mutex.  A worker
    that finds the flag set starts no collaborator call: it returns, or in
    the alignment phase fails at a reader that does not open.  In the
    genotyping phase it has by then advanced the shared cursor by one graph
    index (unless the cursor was at the end).  In the alignment phase a
    worker that returns has advanced by one the cursor of every sample from
    its current one on that had graphs left, leaving the [while] of each in
    turn, and logged nothing but these claims. *)
Theorem terminate_checked_after_claim (t i : nat) (reader : bool)
    (pending : option (nat * Json)) (st : RunState) :
  terminate_ (workflow st) = true →
  (∀ w' pc evs, alignSamples_locked t i reader (workflow st) = (w', pc, evs) →
     (pc = AReturned ∨ pc = AThrown)
     ∧ Forall (λ e, (∃ j g, e = EvAlignClaim t j g) ∨ ∃ j, e = EvReaderThrow t j) evs
     ∧ (pc = AReturned →
        count is_align_failure evs = 0
        ∧ unalignedSamples_ w'
          = take i (unalignedSamples_ (workflow st))
            ++ ((λ u, if unprocessedGraphs_ u =? graphs_end (workflow st) then u
                      else advance u) <$> drop i (unalignedSamples_ (workflow st)))))
  ∧ (∀ st' pc', genotypeGraphs_locked t pending st = (st', pc') →
       pc' = GReturned
       ∧ ungenotypedSamples st'
         = (if ungenotypedSamples st =? length (alignedSamples_ (workflow st))
            then ungenotypedSamples st else S (ungenotypedSamples st))
       ∧ count is_geno_call (trace st') = count is_geno_call (trace st)).
Proof.
  intros Hterm. split.
  - intros w' pc evs Hstep.
    pose proof (alignSamples_locked_events _ _ _ _ _ _ _ Hstep) as (Hall & Hcount).
    apply alignSamples_locked_true in Hstep as (Hpc & Hcur); [|done].
    split; [done|]. split; [done|]. intros ->. split; [done|]. by apply Hcur.
  - intros st' pc' Hstep.
    apply genotypeGraphs_locked_cases in Hstep as (_ & _ & _ & Hcase).
    assert (Hwr : count is_geno_call (trace (write_pending t pending st))
                  = count is_geno_call (trace st)).
    { destruct (write_pending_cases t pending st)
        as [(-> & _)|(g & output & _ & _ & _ & _ & ->)]; done. }
    destruct Hcase as [(Hend & -> & -> & ->)|(Hnotend & -> & -> & ->)].
    + apply Nat.eqb_eq in Hend. by rewrite Hend.
    + apply Nat.eqb_neq in Hnotend. by rewrite Hnotend, Hterm.
Qed.

(** ** Input errors *)

Lemma first_prealigned_Some (m : Samples) (sample : SampleInfo) :
  sample ∈ m → isNull (get_alignment_data sample) = false →
  is_Some (first_prealigned m).
Proof.
  unfold first_prealigned. induction 1 as [sample m|sample y m _ IH]; simpl; intros Hnull.
  - by rewrite Hnull.
  - destruct (negb _); [done|]. by apply IH.
Qed.

(** C8.  A manifest with a pre-aligned sample together with more than one
    graph spec is rejected by the manifest check of [postProcess], so
    [postProcess] ends in an error whatever else the command line holds; the
    process then exits with a non-zero status without a workflow having been
    constructed, under every schedule: no phase has started.  (That the
    failed post-processing keeps the callback from being called is
    [common::run]'s doing, absent from the sources and taken from the
    spec.) *)
Theorem prealigned_with_several_graphs_is_fatal (vm : VariablesMap) (graphs : list string)
    (manifest_path : string) (m : Samples) (sample : SampleInfo) :
  vm_graph_spec vm = Some graphs →
  1 < length graphs →
  vm_manifest vm = Some manifest_path →
  loadManifest manifest_path = Some m →
  sample ∈ m →
  isNull (get_alignment_data sample) = false →
  check_manifest graphs m = error (PreAlignedWithSeveralGraphs (length graphs))
  ∧ (∃ e, postProcess vm = inr e)
  ∧ ∀ sched, main vm sched = Exited StatusNonZero None.
Proof.
  intros Hgraphs Hlen Hmanifest Hload Hin Hnull.
  assert (Hcheck : check_manifest graphs m
                   = error (PreAlignedWithSeveralGraphs (length graphs))).
  { unfold check_manifest.
    destruct (Nat.eqb_spec (length graphs) 0) as [?|_]; [lia|].
    destruct (Nat.ltb_spec 1 (length graphs)) as [_|?]; [|lia].
    by destruct (first_prealigned_Some m sample Hin Hnull) as [x ->]. }
  assert (Hpost : ∃ e, postProcess vm = inr e).
  { unfold postProcess. rewrite Hgraphs, Hmanifest, Hload. simpl. rewrite Hcheck.
    unfold error.
    repeat (match goal with
            | |- ∃ e, match ?x with _ => _ end = _ => destruct x
            end); eauto. }
  split; [done|]. split; [done|].
  intros sched. unfold main, common_run. by destruct Hpost as [e ->].
Qed.

(** ** Pre-aligned samples *)

Lemma is_align_claim_other (t i j g g' : nat) :
  i ≠ j → is_align_claim j g (EvAlignClaim t i g' : @event Json) = false.
Proof. intros Hne. simpl. by destruct (Nat.eqb_spec i j). Qed.

(** A critical section entered at sample [i] touches no sample below [i]. *)
Lemma claimFrom_from (E : nat) (b : bool) (ref : string) (t i : nat) (rd : bool)
    (us rest' : list (@UnalignedSample Json)) (r : claim_result) (evs : list (@event Json)) :
  claimFrom E b ref t i rd us = (rest', r, evs) →
  (∀ j g, r = Claimed j g → i ≤ j)
  ∧ Forall (λ e, ∀ j g, j < i → is_align_claim j g e = false) evs.
Proof.
  revert i rd rest' r evs. induction us as [|u us IH]; intros i rd rest' r evs; simpl.
  - intros [= <- <- <-]. done.
  - destruct (rd || openReader _ _ _).
    2:{ intros [= <- <- <-]. split; [done|]. by constructor. }
    destruct (claimFrom E b ref t (S i) false us) as [[rest1 r1] evs1] eqn:Hc.
    apply IH in Hc as (Hr & Hev).
    assert (Hev' : Forall (λ e, ∀ j g, j < i → is_align_claim j g e = false) evs1).
    { eapply Forall_impl; [exact Hev|]. intros e He j g Hj. apply He. lia. }
    assert (Hhere : ∀ j g g', j < i →
              is_align_claim j g (EvAlignClaim t i g' : @event Json) = false).
    { intros j g g' Hj. apply is_align_claim_other. lia. }
    destruct (_ =? E); [|destruct b]; intros [= <- <- <-].
    + split; [|done]. intros j g Hj. specialize (Hr j g Hj). lia.
    + split; [intros j g Hj; specialize (Hr j g Hj); lia|].
      apply Forall_app. split; [done|]. constructor; [|done]. intros j g Hj. by apply Hhere.
    + split; [by intros j g [= <- <-]|]. constructor; [|done]. intros j g Hj. by apply Hhere.
Qed.

(** Whatever the termination flag, a critical section leaves a sample whose
    cursor is at the end alone: its cursor stays, it is not handed to the
    aligner, and no claim is logged for it. *)
Lemma claimFrom_exhausted (E : nat) (b : bool) (ref : string) (t i : nat) (rd : bool)
    (us rest' : list (@UnalignedSample Json)) (r : claim_result) (evs : list (@event Json))
    (k : nat) (u : @UnalignedSample Json) :
  claimFrom E b ref t i rd us = (rest', r, evs) →
  us !! k = Some u → unprocessedGraphs_ u = E →
  rest' !! k = Some u
  ∧ (∀ g, r ≠ Claimed (i + k) g)
  ∧ ∀ g, count (is_align_claim (i + k) g) evs = 0.
Proof.
  revert i rd rest' r evs k.
  induction us as [|u0 rest IH]; intros i rd rest' r evs k; simpl; [done|].
  destruct (rd || openReader _ _ _).
  2:{ intros [= <- <- <-]. done. }
  destruct (claimFrom E b ref t (S i) false rest) as [[rest1 r1] evs1] eqn:Hc.
  intros Hres Hk Hu. destruct k as [|k]; simpl in Hk.
  - injection Hk as ->. apply Nat.eqb_eq in Hu. rewrite Hu in Hres.
    injection Hres as <- <- <-. split; [done|].
    apply claimFrom_from in Hc as (Hr & Hev). rewrite Nat.add_0_r. split.
    + intros g Heq. specialize (Hr i g Heq). lia.
    + intros g. apply count_none. eapply Forall_impl; [exact Hev|].
      intros e He. apply He. lia.
  - destruct (IH (S i) false rest1 r1 evs1 k Hc Hk Hu) as (H1 & H2 & H3).
    replace (i + S k) with (S i + k) by lia.
    assert (Hhere : ∀ g g',
              is_align_claim (S i + k) g (EvAlignClaim t i g' : @event Json) = false).
    { intros g g'. apply is_align_claim_other. lia. }
    destruct (_ =? E); [|destruct b]; injection Hres as <- <- <-.
    + done.
    + split; [done|]. split; [done|]. intros g. rewrite count_app, H3.
      cbn [count]. by rewrite Hhere.
    + split; [done|]. split; [intros g [= ? _]; lia|]. intros g.
      cbn [count]. by rewrite Hhere.
Qed.

Lemma alignSamples_locked_exhausted (t i : nat) (rd : bool) (k : nat) (w w' : @Workflow Json)
    (pc : align_pc) (evs : list (@event Json)) (u : @UnalignedSample Json) :
  alignSamples_locked t i rd w = (w', pc, evs) →
  unalignedSamples_ w !! k = Some u → unprocessedGraphs_ u = graphs_end w →
  unalignedSamples_ w' !! k = Some u
  ∧ (∀ g, pc ≠ ACall k g)
  ∧ ∀ g, count (is_align_claim k g) evs = 0.
Proof.
  unfold alignSamples_locked.
  destruct (claimFrom _ _ _ _ _ _ _) as [[rest' r] evs'] eqn:Hc.
  intros [= <- <- <-] Hk Hu. simpl.
  assert (i ≤ length (unalignedSamples_ w) ∨ length (unalignedSamples_ w) < i) as [Hi|Hi] by lia.
  2:{ rewrite drop_ge in Hc by lia. simpl in Hc. injection Hc as <- <- <-.
      rewrite app_nil_r, take_ge by lia. done. }
  destruct (decide (k < i)) as [Hlt|Hge].
  - rewrite lookup_app_l by (rewrite length_take; lia).
    rewrite lookup_take_lt by lia. split; [done|].
    apply claimFrom_from in Hc as (Hr & Hev). split.
    + intros g. destruct r as [j g'| |]; [|done|done]. intros [= -> ->].
      specialize (Hr k g eq_refl). lia.
    + intros g. apply count_none. eapply Forall_impl; [exact Hev|]. intros e He. by apply He.
  - assert (Hk' : drop i (unalignedSamples_ w) !! (k - i) = Some u).
    { rewrite lookup_drop. by replace (i + (k - i)) with k by lia. }
    destruct (claimFrom_exhausted _ _ _ _ _ _ _ _ _ _ _ _ Hc Hk' Hu) as (H1 & H2 & H3).
    replace (i + (k - i)) with k in * by lia.
    split; [|split].
    + rewrite lookup_app_r by (rewrite length_take; lia).
      rewrite length_take. by replace (k - i `min` length (unalignedSamples_ w)) with (k - i) by lia.
    + intros g. destruct r as [j g'| |]; [|done|done]. intros [= -> ->]. by apply (H2 g).
    + done.
Qed.

Lemma reachable_prealigned_inv (s : Settings) (w : Workflow) (i : nat)
    (sample : SampleInfo) (st : RunState) :
  Workflow_new s = Some w →
  manifest_ s !! i = Some sample →
  isNull (get_alignment_data sample) = false →
  reachable w st → prealigned_inv s i sample st.
Proof.
  intros Hnew Hi Hnull. pose proof Hnew as (Hs & Hu & Ha & _)%Workflow_new_Some.
  revert st. apply reachable_ind.
  - unfold prealigned_inv. rewrite run_start_workflow, run_start_trace.
    split; [|split; [|split]].
    + rewrite Hu, list_lookup_fmap, Hi. simpl.
      unfold initial_unaligned, initial_cursor. by rewrite Hnull.
    + done.
    + intros g Hg. unfold slot_at. rewrite Ha, lookup_replicate_2 by done. simpl. done.
    + unfold run_start. destruct (_ && _); simpl; [done|].
      apply Forall_replicate. done.
  - intros t st Hreach (Hcur & Hcount & Hslot & Hths).
    destruct (reachable_shape s w st Hnew Hreach) as (Hset & _ & _).
    unfold prealigned_inv. revert Hths.
    tick_cases t st; simpl; rewrite ?Hpool; try done.
    + (* a worker of the alignment pool moves *)
      intros Hths. pose proof (Forall_lookup_1 _ _ _ _ Hths Hpc) as Hnot.
      destruct pc as [i0 rd|i0 g0| |]; simpl in Hstep.
      * pose proof (alignSamples_locked_frame _ _ _ _ _ _ _ Hstep) as (_ & Ha' & _).
        pose proof (alignSamples_locked_events _ _ _ _ _ _ _ Hstep) as (Hc & _).
        destruct (alignSamples_locked_exhausted t i0 rd i _ _ _ _ _ Hstep Hcur)
          as (Hcur' & Hpc' & Hclaims).
        { simpl. unfold graphs_end. by rewrite Hset. }
        split; [done|]. split; [|split].
        -- intros g. destruct (Hcount g) as (H1 & H2). rewrite !count_app, H1, H2, Hclaims.
           split; [done|]. rewrite count_none; [done|].
           eapply Forall_impl; [exact Hc|]. by intros e [(j & g' & ->)|(j & ->)].
        -- intros g Hg. unfold slot_at. rewrite Ha'. by apply Hslot.
        -- by apply Forall_insert.
      * assert (i0 ≠ i) as Hne by (intros ->; by apply (Hnot g0)).
        apply alignSamples_unlocked_cases in Hstep as (_ & Hu' & _ & _ & Hother & Hcase).
        split; [by rewrite Hu'|]. split; [|split].
        -- intros g. destruct (Hcount g) as (H1 & H2). rewrite !count_app, H1, H2.
           apply Nat.eqb_neq in Hne.
           destruct Hcase as [(_ & _ & path & slot & ->)
                             |(_ & _ & evs' & -> & [->|(path & slot & ->)])];
             simpl; by rewrite ?Hne.
        -- intros g Hg. rewrite Hother; [by apply Hslot|]. congruence.
        -- apply Forall_insert; [done|].
           by destruct Hcase as [(-> & _)|(-> & _)].
      * injection Hstep as <- <- <-. rewrite list_insert_id by done. done.
      * injection Hstep as <- <- <-. rewrite list_insert_id by done. done.
    + (* a worker of the genotyping pool moves *)
      intros _. apply geno_step_frame in Hstep as (_ & Hu' & Ha' & evs & Htr & Hevs).
      destruct st' as [w1 f1 c1 o1 p1 tr1]. simpl in *. subst tr1.
      split; [by rewrite Hu'|]. split; [|split; [|done]].
      * intros g. destruct (Hcount g) as (H1 & H2).
        rewrite !count_geno_align; try done; by intros [].
      * intros g Hg. unfold slot_at. simpl. rewrite Ha'. by apply Hslot.
Qed.

(** C7, as amended.  The constructor gives a sample with non-null alignment
    data an entry in [unalignedSamples_] like every other sample, with its
    cursor at [end()].  In every state of the run, under every schedule, no
    claim and no aligner call has been made for it, and its slot in every
    row of the table (row 0 in a run with one graph spec or none) holds the
    sample as the manifest gave it. *)
Theorem prealigned_sample_skips_alignment (s : Settings) (w : Workflow) (i : nat)
    (sample : SampleInfo) :
  Workflow_new s = Some w →
  manifest_ s !! i = Some sample →
  isNull (get_alignment_data sample) = false →
  unalignedSamples_ w !! i = Some (mkUnalignedSample sample (length (graphSpecPaths_ s)))
  ∧ ∀ st, reachable w st →
      (∀ g, count (is_align_claim i g) (trace st) = 0
            ∧ count (is_align_call i g) (trace st) = 0)
      ∧ (∀ g, g < Nat.max 1 (length (graphSpecPaths_ s)) →
              slot_at (workflow st) g i = Some sample).
Proof.
  intros Hnew Hi Hnull. split.
  - pose proof (reachable_prealigned_inv s w i sample _ Hnew Hi Hnull (reachable_start w))
      as (Hcur & _). by rewrite run_start_workflow in Hcur.
  - intros st Hreach.
    by destruct (reachable_prealigned_inv s w i sample st Hnew Hi Hnull Hreach)
      as (_ & ? & ? & _).
Qed.

(** ** One worker thread *)

Lemma reachable_single_inv (s : Settings) (w : Workflow) (st : RunState) :
  Workflow_new s = Some w → threads (parameters_ s) = 1 →
  reachable w st → single_inv s st.
Proof.
  intros Hnew HN. revert st. apply reachable_ind.
  - unfold single_inv, run_start. destruct (_ && _); simpl; [by exists 0|done].
  - intros t st Hreach IH.
    destruct (reachable_shape s w st Hnew Hreach) as (Hset & _ & _).
    pose proof (reachable_geno_inv s w st Hnew Hreach) as Hgeno.
    unfold single_inv, geno_inv in *. revert IH Hgeno.
    tick_cases t st; simpl; rewrite ?Hpool; try done.
    + intros -> _. by exists 0.
    + intros Hwr _. rewrite Hwr, Hset, HN. exists 0. split; [done|].
      intros _ pc [= <-]. done.
    + intros Hwr (_ & _ & Hall).
      apply align_step_frame in Hstep as (_ & _ & _ & _ & Hevs).
      rewrite written_app_other; [done|].
      eapply Forall_impl; [exact Hevs|]. by intros [].
    + intros (k & Hk & _) _. by exists k.
    + intros (k & Hk & _) _. by exists k.
    + (* the worker moves *)
      intros (k & Hk & Hpcs) (Hths & _).
      destruct (has_outputFile s) eqn:Hfile.
      2:{ (* no combined stream: nothing is ever written *)
          pose proof (reachable_geno_inv s w _ Hnew (reachable_tick w t st Hreach)) as Hnext.
          unfold geno_inv, tick in Hnext. rewrite Hpool, Hjoined, Hpc, Hstep in Hnext.
          simpl in Hnext. destruct Hnext as (_ & _ & _ & _ & _ & _ & Hnofile & _).
          simpl in Hnofile. rewrite (Hnofile Hfile). by exists 0. }
      rewrite HN in Hths. destruct ths as [|pc0 [|? ?]]; try done.
      destruct t as [|t]; [|done]. injection Hpc as ->.
      specialize (Hpcs eq_refl pc eq_refl).
      destruct pc as [pending|g| |]; simpl in Hstep.
      * (* a critical section *)
        apply genotypeGraphs_locked_cases in Hstep as (_ & _ & _ & Hcase).
        assert (∃ k1, (fst <$> written (trace (write_pending 0 pending st))) = seq 0 k1
                      ∧ ungenotypedSamples st = k1) as (k1 & Hk1 & Hcur).
        { destruct (write_pending_cases 0 pending st)
            as [(-> & [->|Hno])|(g & output & -> & _ & _ & _ & ->)].
          - exists k. done.
          - rewrite Hset in Hno. congruence.
          - destruct Hpcs as (Hg & Hcur). simpl in Hg. subst g.
            exists (S k). rewrite written_cons_write, fmap_app, Hk, seq_S. done. }
        destruct Hcase as [(_ & -> & _ & ->)|(_ & Hc & -> & ->)].
        -- exists k1. split; [done|]. by intros _ pc [= <-].
        -- exists k1. rewrite written_cons_other by done. split; [done|].
           intros _ pc [= <-]. destruct (terminate_ _); simpl; [done|].
           rewrite Hc, Hcur. done.
      * (* the genotyper comes back or throws *)
        apply genotypeGraphs_unlocked_cases in Hstep as (_ & Hc & _ & Hcase).
        destruct Hcase as [(-> & _ & evs & -> & Hevs)|(path & output & -> & _ & _ & _ & ->)].
        -- exists k. split; [|by intros _ pc [= <-]].
           rewrite written_cons_other by done. rewrite written_app_other; [done|].
           destruct Hevs as [[-> _]|(path & _ & ->)]; by repeat constructor.
        -- exists k. rewrite !written_cons_other by done. split; [done|].
           intros _ pc [= <-]. simpl. by rewrite Hc.
      * injection Hstep as <- <-. exists k. split; [done|]. by intros _ pc [= <-].
      * injection Hstep as <- <-. exists k. split; [done|]. by intros _ pc [= <-].
Qed.

(** ** No graph spec *)

(** With every cursor at the end a critical section changes nothing: it
    comes to the end of the loop, unless a reader does not open. *)
Lemma claimFrom_all_done (E : nat) (b : bool) (ref : string) (t i : nat) (rd : bool)
    (us rest' : list (@UnalignedSample Json)) (r : claim_result) (evs : list (@event Json)) :
  Forall (λ u, unprocessedGraphs_ u = E) us →
  claimFrom E b ref t i rd us = (rest', r, evs) →
  rest' = us
  ∧ ((r = NothingLeft ∧ evs = [])
     ∨ (r = ReaderThrew ∧ (∃ j, evs = [EvReaderThrow t j])
        ∧ ¬ Forall (λ u, openReader (filename (sample_ u)) (index_filename (sample_ u)) ref
                         = true) us)).
Proof.
  intros Hall. revert i rd rest' r evs.
  induction Hall as [|u us Hu _ IH]; intros i rd rest' r evs; simpl.
  - intros [= <- <- <-]. split; [done|]. by left.
  - destruct (openReader (filename (sample_ u)) (index_filename (sample_ u)) ref) eqn:Hopen.
    + rewrite orb_true_r. apply Nat.eqb_eq in Hu. rewrite Hu.
      destruct (claimFrom E b ref t (S i) false us) as [[rest1 r1] evs1] eqn:Hc.
      apply IH in Hc as (-> & Hcase). intros [= <- <- <-]. split; [done|].
      destruct Hcase as [?|(? & ? & Hnot)]; [by left|right].
      split; [done|]. split; [done|]. intros Hall'. apply Hnot. by inversion Hall'.
    + rewrite orb_false_r. destruct rd.
      * apply Nat.eqb_eq in Hu. rewrite Hu.
        destruct (claimFrom E b ref t (S i) false us) as [[rest1 r1] evs1] eqn:Hc.
        apply IH in Hc as (-> & Hcase). intros [= <- <- <-]. split; [done|].
        destruct Hcase as [?|(? & ? & Hnot)]; [by left|right].
        split; [done|]. split; [done|]. intros Hall'. apply Hnot. by inversion Hall'.
      * intros [= <- <- <-]. split; [done|]. right. split; [done|]. split; [by exists i|].
        intros Hall'. inversion Hall' as [|? ? Hx]. congruence.
Qed.

Lemma reachable_no_graph_inv (s : Settings) (w : Workflow) (st : RunState) :
  Workflow_new s = Some w → graphSpecPaths_ s = [] →
  reachable w st → no_graph_inv s w st.
Proof.
  intros Hnew Hgraphs. pose proof Hnew as (Hs & Hu & Ha & Hterm & _)%Workflow_new_Some.
  rewrite Hgraphs in Hu, Ha. simpl in Ha.
  revert st. apply reachable_ind.
  - unfold no_graph_inv. rewrite run_start_workflow, run_start_trace.
    split; [done|]. split; [done|]. split; [done|]. split; [simpl; lia|].
    destruct (pool (run_start w)) eqn:Hp.
    + unfold run_start in Hp. destruct (_ && _); [done|]. injection Hp as <-.
      repeat split; try done. by apply Forall_replicate.
    + unfold run_start in Hp. by destruct (_ && _).
    + unfold run_start in Hp. by destruct (_ && _).
    + split; [simpl; lia|]. by intros _ ?.
  - intros t st Hreach (Hal & Hcur & Hcalls & Hle & Hpools).
    destruct (reachable_shape s w st Hnew Hreach) as (Hset & _ & _).
    assert (HE : graphs_end (workflow st) = 0) by (by unfold graphs_end; rewrite Hset, Hgraphs).
    unfold no_graph_inv. revert Hpools.
    tick_cases t st; simpl; rewrite ?Hpool; try done.
    + (* the alignment pool is joined and has failed: a reader did not open *)
      intros (Hall & _ & Hths).
      split; [done|]. split; [done|]. split; [done|]. split; [done|]. split.
      * rewrite (count_none is_geno_event); [lia|].
        eapply Forall_impl; [exact Hall|]. intros e He. unfold is_geno_event. by rewrite He.
      * intros Hopen _. exfalso.
        unfold execute_failed in Hfailed. apply existsb_exists in Hfailed as (pc & Hin & Hpc).
        apply list_elem_of_In in Hin. rewrite Forall_forall in Hths.
        specialize (Hths pc Hin). by destruct pc.
    + (* on to genotyping *)
      intros (Hall & Hterm' & Hths). rewrite Hset.
      assert (Hno : count is_geno_call (trace st) = 0).
      { apply count_none. eapply Forall_impl; [exact Hall|]. by intros []. }
      repeat split; try done.
      * by rewrite length_replicate.
      * by apply Forall_replicate.
      * left. repeat split; try done. by apply Forall_replicate.
    + (* an alignment worker finds nothing to claim *)
      intros (Hall & Hterm' & Hths).
      pose proof (Forall_lookup_1 _ _ _ _ Hths Hpc) as Hok.
      pose proof (align_step_frame _ _ _ _ _ _ Hstep) as (_ & _ & _ & _ & Hevs).
      assert (w' = workflow st
              ∧ match pc' with
                | ACall _ _ => False
                | AThrown => ¬ readers_open s
                | _ => True
                end) as (-> & Hpc').
      { destruct pc as [i rd|i g| |]; simpl in Hstep;
          [|done|by injection Hstep as <- <- <-|by injection Hstep as <- <- <-].
        unfold alignSamples_locked in Hstep.
        destruct (claimFrom _ _ _ _ _ _ _) as [[rest' r] evs'] eqn:Hc.
        apply claimFrom_all_done in Hc as (-> & Hcase).
        2:{ rewrite HE, Hcur. apply Forall_drop, Forall_fmap, Forall_true. intros sample.
            simpl. unfold initial_cursor. by destruct (isNull _). }
        rewrite take_drop in Hstep. injection Hstep as <- <- <-.
        split; [by destruct (workflow st)|].
        destruct Hcase as [(-> & _)|(-> & _ & Hnot)]; [done|].
        intros Hopen. apply Hnot. rewrite Hset, Hcur. apply Forall_drop, Forall_fmap.
        exact Hopen. }
      assert (Hnocall : Forall (λ e : @event Json, is_geno_event e = false) evs).
      { eapply Forall_impl; [exact Hevs|]. intros e He. unfold is_geno_event. by rewrite He. }
      split; [done|]. split; [done|]. split; [|split; [|split; [|split]]].
      * apply Forall_app. split; [|done].
        eapply Forall_impl; [exact Hevs|]. intros e He ? ? ? ? ->. done.
      * rewrite count_app, (count_none is_geno_call); [done|].
        eapply Forall_impl; [exact Hevs|]. by intros [].
      * by apply Forall_app.
      * done.
      * by apply Forall_insert.
    + (* the genotyping pool is joined and has failed *)
      intros (Hths & _ & Hcase). split; [done|]. split; [done|]. split; [done|].
      split; [done|].
      unfold execute_joined in Hjoined. apply forallb_Forall in Hjoined.
      assert (Hone : count is_geno_call (trace st) = 1).
      { destruct Hcase as [(_ & _ & _ & Hall)|(_ & Hone)].
        - destruct ths as [|pc0 ths]; [done|].
          apply Forall_cons in Hall as [-> _]. by apply Forall_cons in Hjoined as [? _].
        - rewrite (count_none geno_in_call) in Hone; [lia|].
          eapply Forall_impl; [exact Hjoined|]. by intros [[]| | |]. }
      split; [done|]. intros _ _.
      pose proof (count_le is_geno_call is_geno_event (trace st)) as Hle'.
      assert (count is_geno_call (trace st) ≤ count is_geno_event (trace st)); [|lia].
      apply Hle'. by intros [].
    + (* the genotyping pool is joined *)
      intros (Hths & _ & Hcase). split; [done|]. split; [done|]. split; [done|].
      split; [done|]. intros HN.
      unfold execute_joined in Hjoined. apply forallb_Forall in Hjoined.
      destruct Hcase as [(_ & _ & _ & Hall)|(_ & Hone)].
      * destruct ths as [|pc0 ths]; [simpl in Hths; lia|].
        apply Forall_cons in Hall as [-> _]. by apply Forall_cons in Hjoined as [? _].
      * rewrite (count_none geno_in_call) in Hone; [lia|].
        eapply Forall_impl; [exact Hjoined|]. by intros [[]| | |].
    + (* a genotyping worker moves *)
      intros (Hths & Hg0 & Hcase).
      pose proof (count_insert geno_in_call ths t _ pc' Hpc) as Hins.
      pose proof (geno_step_frame t pc pc' st st' Hstep) as (_ & Hu' & Ha' & _).
      rewrite Ha', Hu'. split; [done|]. split; [done|].
      destruct pc as [pending|g| |]; simpl in Hstep, Hins.
      * (* a critical section *)
        apply genotypeGraphs_locked_cases in Hstep as (_ & _ & _ & Hclaim).
        assert (Hw : Forall (no_graph_call s) (trace (write_pending t pending st))
                     ∧ count is_geno_call (trace (write_pending t pending st))
                       = count is_geno_call (trace st)).
        { destruct (write_pending_cases t pending st)
            as [(-> & _)|(g & output & _ & _ & _ & _ & ->)]; [done|].
          split; [|done]. constructor; [|done]. by intros ? ? ? ?. }
        destruct Hw as (Hcalls1 & Hcount1). rewrite Hal in Hclaim. simpl in Hclaim.
        destruct Hclaim as [(Hend & -> & Hc & ->)|(Hnotend & Hc & -> & ->)].
        -- simpl in Hins. rewrite Hcount1, Hc. repeat split; try done.
           ++ by rewrite length_insert.
           ++ by apply Forall_insert.
           ++ right. destruct Hcase as [(H0 & _)|(_ & Hone)]; [lia|]. split; [done|]. lia.
        -- destruct Hcase as [(H0 & Hnone & Hterm' & Hall)|(H1 & _)]; [|lia].
           rewrite Hterm' in *. simpl in Hins. simpl. rewrite Hcount1, Hc, H0.
           repeat split; try done; try lia.
           ++ constructor; [|done]. by intros ? ? ? ?.
           ++ by rewrite length_insert.
           ++ apply Forall_insert; [done|]. by intros g [= <-].
           ++ right. split; [done|]. rewrite H0 in Hins.
              rewrite (count_none geno_in_call ths) in Hins; [lia|].
              eapply Forall_impl; [exact Hall|]. by intros pc ->.
      * (* the genotyper comes back or throws *)
        pose proof (Forall_lookup_1 _ _ _ _ Hg0 Hpc g eq_refl) as ->.
        destruct Hcase as [(_ & _ & _ & Hall)|(H1 & Hone)].
        { by pose proof (Forall_lookup_1 _ _ _ _ Hall Hpc). }
        apply genotypeGraphs_unlocked_cases in Hstep as (_ & Hc & _ & Hcase).
        assert (Hpath : graphSpecPath_of (settings (workflow st)) 0 = Some EmptyString).
        { unfold graphSpecPath_of. by rewrite Hset, Hgraphs. }
        assert (Hcall : ∀ path, graphSpecPath_of (settings (workflow st)) 0 = Some path →
                  no_graph_call s (EvGenoCall t 0 path
                                     (default [] (alignedSamples_ (workflow st) !! 0)))).
        { intros path Hp. rewrite Hpath in Hp. injection Hp as <-. rewrite Hal. simpl.
          by intros ? ? ? ? [= <- <- <- <-]. }
        destruct Hcase as [(-> & _ & evs & -> & [[_ Hnone]|(path & Hp & ->)])
                          |(path & output & -> & _ & Hp & _ & ->)].
        -- congruence.
        -- simpl in Hins |- *. rewrite Hc, H1. repeat split; try done; try lia;
             try (by rewrite length_insert); try (by apply Forall_insert);
             try (right; split; [done|]; lia).
           constructor; [by intros ? ? ? ?|]. constructor; [by apply Hcall|done].
        -- simpl in Hins |- *. rewrite Hc, H1. repeat split; try done; try lia;
             try (by rewrite length_insert); try (by apply Forall_insert);
             try (right; split; [done|]; lia).
           constructor; [by intros ? ? ? ?|]. constructor; [by apply Hcall|done].
      * injection Hstep as <- <-. rewrite list_insert_id by done. done.
      * injection Hstep as <- <-. rewrite list_insert_id by done. done.
Qed.

Lemma first_unaligned_None (m : Samples) :
  first_unaligned m = None →
  Forall (λ sample, isNull (get_alignment_data sample) = false) m.
Proof.
  unfold first_unaligned. induction m as [|sample m IH]; simpl; [done|].
  destruct (isNull _) eqn:Hnull; [done|]. intros H. constructor; auto.
Qed.

(** Options that went through [postProcess] without graph specs hold
    pre-aligned samples only. *)
Lemma postProcess_no_graphs (vm : VariablesMap) (o : Options) :
  postProcess vm = inl o → graph_spec_paths o = [] →
  Forall (λ sample, isNull (get_alignment_data sample) = false) (manifest o).
Proof.
  unfold postProcess.
  destruct (vm_reference vm) as [reference|]; [|done].
  destruct (assertFileExists reference); [done|].
  destruct (match vm_graph_spec vm with Some _ => _ | None => _ end); [done|].
  destruct (negb (String.eqb _ _) && negb (create_directory _)); [done|].
  destruct (check_alignment_output _); [|done].
  destruct (vm_manifest vm) as [manifest_path|]; [|done].
  destruct (assertFileExists manifest_path); [done|].
  destruct (loadManifest manifest_path) as [m|]; [|done].
  destruct (check_manifest _ m) eqn:Hcheck; [|done].
  intros [= <-]. simpl. intros Hgraphs. rewrite Hgraphs in Hcheck.
  unfold check_manifest in Hcheck. simpl in Hcheck.
  destruct (first_unaligned m) eqn:Hfirst; [done|]. by apply first_unaligned_None.
Qed.

(** ** Every run comes to its end *)

Lemma total_insert {A : Type} (f : A → nat) (l : list A) (i : nat) (x y : A) :
  l !! i = Some x → total f (<[i := y]> l) + f x = total f l + f y.
Proof.
  revert i. induction l as [|z l IH]; intros [|i] Hi; simpl in *; try done.
  - injection Hi as ->. lia.
  - specialize (IH i Hi). lia.
Qed.

Lemma total_app {A : Type} (f : A → nat) (l1 l2 : list A) :
  total f (l1 ++ l2) = total f l1 + total f l2.
Proof. induction l1 as [|x l1 IH]; simpl; [done|]. rewrite IH. lia. Qed.

Lemma total_replicate {A : Type} (f : A → nat) (n : nat) (x : A) :
  total f (replicate n x) = n * f x.
Proof. induction n as [|n IH]; simpl; [done|]. rewrite IH. lia. Qed.

(** A critical section of [alignSamples] keeps the cursors within bounds and
    leaves no more graphs than there were; when it hands a graph out, one
    less. *)
Lemma claimFrom_left (E : nat) (b : bool) (ref : string) (t i : nat) (rd : bool)
    (us rest' : list (@UnalignedSample Json)) (r : claim_result) (evs : list (@event Json)) :
  claimFrom E b ref t i rd us = (rest', r, evs) →
  Forall (λ u, unprocessedGraphs_ u ≤ E) us →
  Forall (λ u, unprocessedGraphs_ u ≤ E) rest'
  ∧ total (λ u, E - unprocessedGraphs_ u) rest'
    + (match r with Claimed _ _ => 1 | _ => 0 end)
    ≤ total (λ u, E - unprocessedGraphs_ u) us.
Proof.
  revert i rd rest' r evs. induction us as [|u us IH]; intros i rd rest' r evs; simpl.
  - intros [= <- <- <-] _. simpl. split; [done|lia].
  - destruct (rd || openReader _ _ _).
    2:{ intros [= <- <- <-] Hall. simpl. split; [done|lia]. }
    destruct (claimFrom E b ref t (S i) false us) as [[rest1 r1] evs1] eqn:Hc.
    intros Hres Hall. apply Forall_cons in Hall as [Hu Hall].
    destruct (IH _ _ _ _ _ Hc Hall) as (Hall1 & Hle).
    destruct (Nat.eqb_spec (unprocessedGraphs_ u) E) as [Heq|Hne];
      [|destruct b]; injection Hres as <- <- <-; simpl.
    + split; [by constructor|]. lia.
    + split; [constructor; [simpl; lia|done]|]. lia.
    + split; [constructor; [simpl; lia|done]|]. lia.
Qed.

Lemma reachable_bounds_inv (s : Settings) (w : Workflow) (st : RunState) :
  Workflow_new s = Some w → reachable w st → bounds_inv st.
Proof.
  intros Hnew. pose proof Hnew as (Hs & Hu & _)%Workflow_new_Some.
  revert st. apply reachable_ind.
  - unfold bounds_inv. rewrite run_start_workflow. split.
    + rewrite Hu. apply Forall_fmap, Forall_true. intros sample. simpl.
      unfold graphs_end, initial_cursor. rewrite Hs. destruct (isNull _); lia.
    + unfold run_start. by destruct (_ && _).
  - intros t st Hreach (Hcur & Hgeno). unfold bounds_inv. revert Hgeno.
    tick_cases t st; simpl; rewrite ?Hpool; try done.
    + intros _. split; [done|lia].
    + intros _. split; [|done].
      destruct pc as [i rd|i g| |]; simpl in Hstep.
      * pose proof (alignSamples_locked_frame _ _ _ _ _ _ _ Hstep) as (Hs' & _).
        unfold alignSamples_locked in Hstep.
        destruct (claimFrom _ _ _ _ _ _ _) as [[rest' r] evs'] eqn:Hc.
        injection Hstep as <- <- <-. simpl.
        apply claimFrom_left in Hc as (Hall & _); [|by apply Forall_drop].
        apply Forall_app. split; [by apply Forall_take|done].
      * apply alignSamples_unlocked_cases in Hstep as (Hs' & -> & _).
        unfold graphs_end in *. by rewrite Hs'.
      * by injection Hstep as <- <- <-.
      * by injection Hstep as <- <- <-.
    + intros Hle. pose proof (geno_step_frame t pc pc' st st' Hstep) as (Hs' & Hu' & Ha' & _).
      split; [unfold graphs_end in *; by rewrite Hu', Hs'|]. rewrite Ha'.
      destruct pc as [pending|g| |]; simpl in Hstep.
      * apply genotypeGraphs_locked_cases in Hstep as (_ & _ & _ & Hcase).
        destruct Hcase as [(_ & _ & -> & _)|(Hne & -> & _)]; lia.
      * by apply genotypeGraphs_unlocked_cases in Hstep as (_ & -> & _).
      * by injection Hstep as <- <-.
      * by injection Hstep as <- <-.
Qed.

(** A pool that is not joined has a worker that is not done. *)
Lemma not_joined_worker {pc : Type} (terminal : pc → bool) (ths : list pc) :
  execute_joined terminal ths = false →
  ∃ t x, ths !! t = Some x ∧ terminal x = false.
Proof.
  unfold execute_joined. induction ths as [|x ths IH]; simpl; [done|].
  destruct (terminal x) eqn:Hx; simpl.
  - intros H. destruct (IH H) as (t & y & Ht & Hy). by exists (S t), y.
  - intros _. by exists 0, x.
Qed.

Lemma alignSamples_locked_left (t i : nat) (rd : bool) (w w' : @Workflow Json)
    (pc : align_pc) (evs : list (@event Json)) :
  alignSamples_locked t i rd w = (w', pc, evs) →
  Forall (λ u, unprocessedGraphs_ u ≤ graphs_end w) (unalignedSamples_ w) →
  graphs_left w' + align_weight pc ≤ graphs_left w + 1
  ∧ (align_weight pc = 0 ∨ align_weight pc = 2) ∧ graphs_left w' ≤ graphs_left w.
Proof.
  intros Hstep Hall.
  pose proof (alignSamples_locked_frame _ _ _ _ _ _ _ Hstep) as (Hs' & _).
  unfold alignSamples_locked in Hstep.
  destruct (claimFrom _ _ _ _ _ _ _) as [[rest' r] evs'] eqn:Hc.
  injection Hstep as <- <- <-.
  apply claimFrom_left in Hc as (_ & Hle); [|by apply Forall_drop].
  unfold graphs_left, graphs_end in *. simpl.
  pose proof (total_app (λ u, length (graphSpecPaths_ (settings w)) - unprocessedGraphs_ u)
                (take i (unalignedSamples_ w)) (drop i (unalignedSamples_ w))) as Heq.
  rewrite take_drop in Heq. rewrite Heq, !total_app.
  destruct r as [j g| |]; simpl in *; repeat split; try lia; auto.
Qed.

(** While [run] is not over, some move reduces what is left to do. *)
Lemma tick_decreases (st : RunState) :
  bounds_inv st → run_over st = false →
  ∃ t, work_left (tick t st) < work_left st.
Proof.
  intros (Hcur & Hgeno) Hover. unfold run_over in Hover.
  destruct (pool st) as [ths|ths| |] eqn:Hpool; try done.
  - (* the alignment pool *)
    destruct (execute_joined align_terminal ths) eqn:Hjoined.
    + exists 0. unfold tick, work_left. rewrite Hpool, Hjoined.
      destruct (execute_failed _ _); simpl; [lia|]. rewrite total_replicate. simpl. lia.
    + destruct (not_joined_worker _ _ Hjoined) as (t & pc & Hpc & Hnot).
      exists t. unfold tick, work_left. rewrite Hpool, Hjoined, Hpc.
      destruct (align_step t pc (workflow st)) as [[w' pc'] evs] eqn:Hstep. simpl.
      pose proof (align_step_frame _ _ _ _ _ _ Hstep) as (Hs' & _ & Hshape & _).
      assert (Hrows : length (alignedSamples_ w') = length (alignedSamples_ (workflow st))).
      { by rewrite <- (length_fmap length), Hshape, length_fmap. }
      pose proof (total_insert align_weight ths t _ pc' Hpc) as Hins.
      rewrite Hrows, Hs'. destruct pc as [i rd|i g| |]; try done; simpl in Hstep, Hins.
      * destruct (alignSamples_locked_left _ _ _ _ _ _ _ Hstep Hcur) as (H1 & H2 & H3). lia.
      * apply alignSamples_unlocked_cases in Hstep as (_ & Hu' & _ & _ & _ & Hcase).
        assert (graphs_left w' = graphs_left (workflow st)) as ->.
        { unfold graphs_left, graphs_end. by rewrite Hu', Hs'. }
        destruct Hcase as [(-> & _)|(-> & _)]; simpl in Hins; lia.
  - (* the genotyping pool *)
    destruct (execute_joined geno_terminal ths) eqn:Hjoined.
    + exists 0. unfold tick, work_left. rewrite Hpool, Hjoined.
      destruct (execute_failed _ _); simpl; lia.
    + destruct (not_joined_worker _ _ Hjoined) as (t & pc & Hpc & Hnot).
      exists t. unfold tick, work_left. rewrite Hpool, Hjoined, Hpc.
      destruct (geno_step t pc st) as [st' pc'] eqn:Hstep. simpl.
      pose proof (geno_step_frame _ _ _ _ _ Hstep) as (_ & _ & Ha' & _).
      pose proof (total_insert geno_weight ths t _ pc' Hpc) as Hins.
      rewrite Ha'. destruct pc as [pending|g| |]; try done; simpl in Hstep, Hins.
      * apply genotypeGraphs_locked_cases in Hstep as (_ & _ & _ & Hcase).
        destruct Hcase as [(_ & -> & -> & _)|(Hne & -> & _ & ->)]; simpl in Hins; [lia|].
        destruct (terminate_ _); simpl in Hins; lia.
      * apply genotypeGraphs_unlocked_cases in Hstep as (_ & -> & _ & Hcase).
        destruct Hcase as [(-> & _)|(path & output & -> & _)]; simpl in Hins; lia.
Qed.

(** From every state of a run, some schedule brings [run] to its end: the
    pools do not get stuck, and no schedule can go on for ever doing work. *)
Theorem run_completes (s : Settings) (w : Workflow) (st : RunState) :
  Workflow_new s = Some w → reachable w st →
  ∃ sched, run_over (exec sched st) = true.
Proof.
  intros Hnew. remember (work_left st) as n eqn:Hn. revert st Hn.
  induction n as [n IH] using lt_wf_ind. intros st -> Hreach.
  destruct (run_over st) eqn:Hover; [by exists []|].
  destruct (tick_decreases st (reachable_bounds_inv s w st Hnew Hreach) Hover) as (t & Hlt).
  destruct (IH _ Hlt (tick t st) eq_refl (reachable_tick w t st Hreach)) as (sched & Hsched).
  by exists (t :: sched).
Qed.

(** ** Runs under a fair scheduler *)

Lemma tick_stutter (t : nat) (st : RunState) :
  match pool st with
  | Aligning ths =>
      execute_joined align_terminal ths = false
      ∧ match ths !! t with Some pc => align_terminal pc = true | None => True end
  | Genotyping ths =>
      execute_joined geno_terminal ths = false
      ∧ match ths !! t with Some pc => geno_terminal pc = true | None => True end
  | _ => True
  end →
  tick t st = st.
Proof.
  destruct st as [w f c o p tr]. unfold tick. simpl.
  destruct p as [ths|ths| |]; try done.
  - intros (-> & Hpc). destruct (ths !! t) as [pc|] eqn:Ht; [|done].
    destruct pc; try done; simpl; by rewrite list_insert_id.
  - intros (-> & Hpc). destruct (ths !! t) as [pc|] eqn:Ht; [|done].
    destruct pc; try done; simpl; unfold set_pool; simpl; by rewrite list_insert_id.
Qed.

(** A thread that cannot move leaves the state as it is. *)
Lemma tick_cannot_move (t : nat) (st : RunState) :
  can_move t st = false → tick t st = st.
Proof.
  intros Hcan. apply tick_stutter. unfold can_move in Hcan.
  destruct (pool st) as [ths|ths| |]; try done.
  - apply orb_false_iff in Hcan as [-> Hpc]. split; [done|].
    destruct (ths !! t); [|done]. by apply negb_false_iff.
  - apply orb_false_iff in Hcan as [-> Hpc]. split; [done|].
    destruct (ths !! t); [|done]. by apply negb_false_iff.
Qed.

(** A thread that can move reduces what is left to do. *)
Lemma tick_can_move (t : nat) (st : RunState) :
  bounds_inv st → can_move t st = true → work_left (tick t st) < work_left st.
Proof.
  intros (Hcur & Hgeno) Hcan. unfold can_move in Hcan.
  destruct (pool st) as [ths|ths| |] eqn:Hpool; try done.
  - destruct (execute_joined align_terminal ths) eqn:Hjoined.
    + unfold tick, work_left. rewrite Hpool, Hjoined.
      destruct (execute_failed _ _); simpl; [lia|]. rewrite total_replicate. simpl. lia.
    + simpl in Hcan. destruct (ths !! t) as [pc|] eqn:Hpc; [|done].
      apply negb_true_iff in Hcan.
      unfold tick, work_left. rewrite Hpool, Hjoined, Hpc.
      destruct (align_step t pc (workflow st)) as [[w' pc'] evs] eqn:Hstep. simpl.
      pose proof (align_step_frame _ _ _ _ _ _ Hstep) as (Hs' & _ & Hshape & _).
      assert (Hrows : length (alignedSamples_ w') = length (alignedSamples_ (workflow st))).
      { by rewrite <- (length_fmap length), Hshape, length_fmap. }
      pose proof (total_insert align_weight ths t _ pc' Hpc) as Hins.
      rewrite Hrows, Hs'. destruct pc as [i rd|i g| |]; try done; simpl in Hstep, Hins.
      * destruct (alignSamples_locked_left _ _ _ _ _ _ _ Hstep Hcur) as (H1 & H2 & H3). lia.
      * apply alignSamples_unlocked_cases in Hstep as (_ & Hu' & _ & _ & _ & Hcase).
        assert (graphs_left w' = graphs_left (workflow st)) as ->.
        { unfold graphs_left, graphs_end. by rewrite Hu', Hs'. }
        destruct Hcase as [(-> & _)|(-> & _)]; simpl in Hins; lia.
  - destruct (execute_joined geno_terminal ths) eqn:Hjoined.
    + unfold tick, work_left. rewrite Hpool, Hjoined.
      destruct (execute_failed _ _); simpl; lia.
    + simpl in Hcan. destruct (ths !! t) as [pc|] eqn:Hpc; [|done].
      apply negb_true_iff in Hcan.
      unfold tick, work_left. rewrite Hpool, Hjoined, Hpc.
      destruct (geno_step t pc st) as [st' pc'] eqn:Hstep. simpl.
      pose proof (geno_step_frame _ _ _ _ _ Hstep) as (_ & _ & Ha' & _).
      pose proof (total_insert geno_weight ths t _ pc' Hpc) as Hins.
      rewrite Ha'. destruct pc as [pending|g| |]; try done; simpl in Hstep, Hins.
      * apply genotypeGraphs_locked_cases in Hstep as (_ & _ & _ & Hcase).
        destruct Hcase as [(_ & -> & -> & _)|(Hne & -> & _ & ->)]; simpl in Hins; [lia|].
        destruct (terminate_ _); simpl in Hins; lia.
      * apply genotypeGraphs_unlocked_cases in Hstep as (_ & -> & _ & Hcase).
        destruct Hcase as [(-> & _)|(path & output & -> & _)]; simpl in Hins; lia.
Qed.

Lemma tick_stutter_or_less (t : nat) (st : RunState) :
  bounds_inv st → tick t st = st ∨ work_left (tick t st) < work_left st.
Proof.
  intros Hbounds. destruct (can_move t st) eqn:Hcan.
  - right. by apply tick_can_move.
  - left. by apply tick_cannot_move.
Qed.

Lemma exec_over (sched : list nat) (st : RunState) :
  run_over st = true → exec sched st = st.
Proof.
  intros Hover. induction sched as [|t sched IH] using rev_ind; [done|].
  rewrite exec_snoc, IH. unfold tick. unfold run_over in Hover. by destruct (pool st).
Qed.

Lemma exec_app (sched1 sched2 : list nat) (st : RunState) :
  exec (sched1 ++ sched2) st = exec sched2 (exec sched1 st).
Proof. unfold exec. by rewrite foldl_app. Qed.

Lemma reachable_exec (w : Workflow) (sched : list nat) (st : RunState) :
  reachable w st → reachable w (exec sched st).
Proof. intros [sched0 ->]. exists (sched0 ++ sched). by rewrite exec_app. Qed.

(** No schedule adds to what is left to do. *)
Lemma exec_work_left (s : Settings) (w : Workflow) (sched : list nat) (st : RunState) :
  Workflow_new s = Some w → reachable w st →
  work_left (exec sched st) ≤ work_left st.
Proof.
  intros Hnew. revert st. induction sched as [|t sched IH]; intros st Hreach; [done|].
  change (exec (t :: sched) st) with (exec sched (tick t st)).
  specialize (IH (tick t st) (reachable_tick w t st Hreach)).
  destruct (tick_stutter_or_less t st (reachable_bounds_inv s w st Hnew Hreach)) as [Heq|Hlt].
  - rewrite Heq in IH |- *. done.
  - lia.
Qed.

Lemma covers_elem (n : nat) (round : list nat) (t : nat) :
  covers n round = true → t < n → t ∈ round.
Proof.
  unfold covers. rewrite forallb_forall. intros Hall Ht.
  specialize (Hall t). rewrite existsb_exists in Hall.
  destruct Hall as (t' & Hin & Heq).
  - apply in_seq. lia.
  - apply Nat.eqb_eq in Heq. subst t'. by apply list_elem_of_In.
Qed.

(** While [run] is not over, one of the threads can move. *)
Lemma some_worker_can_move (s : Settings) (w : Workflow) (st : RunState) :
  Workflow_new s = Some w → 1 ≤ threads (parameters_ s) →
  reachable w st → run_over st = false →
  ∃ t, t < threads (parameters_ s) ∧ can_move t st = true.
Proof.
  intros Hnew HN Hreach Hover.
  pose proof (reachable_align_inv s w st Hnew Hreach) as Halign.
  pose proof (reachable_geno_inv s w st Hnew Hreach) as Hgeno.
  unfold run_over, can_move, align_inv, geno_inv in *.
  destruct (pool st) as [ths|ths| |]; try done.
  - destruct Halign as (Hlen & _).
    destruct (execute_joined align_terminal ths) eqn:Hjoined; [exists 0; split; [lia|done]|].
    destruct (not_joined_worker _ _ Hjoined) as (t & pc & Hpc & Hnot).
    exists t. rewrite Hpc, Hnot. split; [|done]. rewrite <- Hlen. by eapply lookup_lt_Some.
  - destruct Hgeno as (Hlen & _).
    destruct (execute_joined geno_terminal ths) eqn:Hjoined; [exists 0; split; [lia|done]|].
    destruct (not_joined_worker _ _ Hjoined) as (t & pc & Hpc & Hnot).
    exists t. rewrite Hpc, Hnot. split; [|done]. rewrite <- Hlen. by eapply lookup_lt_Some.
Qed.

(** A round in which a thread that can move gets its turn reduces what is
    left to do. *)
Lemma round_with_mover (s : Settings) (w : Workflow) (t0 : nat) (round : list nat)
    (st : RunState) :
  Workflow_new s = Some w → reachable w st →
  t0 ∈ round → can_move t0 st = true →
  work_left (exec round st) < work_left st.
Proof.
  intros Hnew. revert st. induction round as [|t round IH]; intros st Hreach Hin Hcan.
  { by apply elem_of_nil in Hin. }
  change (exec (t :: round) st) with (exec round (tick t st)).
  pose proof (reachable_bounds_inv s w st Hnew Hreach) as Hbounds.
  pose proof (exec_work_left s w round (tick t st) Hnew (reachable_tick w t st Hreach)) as Hle.
  destruct (can_move t st) eqn:Ht.
  - pose proof (tick_can_move t st Hbounds Ht). lia.
  - rewrite (tick_cannot_move t st Ht). apply IH; try done.
    apply elem_of_cons in Hin as [->|Hin]; [congruence|done].
Qed.

Lemma work_left_0 (st : @RunState Json) : work_left st = 0 → run_over st = true.
Proof. unfold work_left, run_over. destruct (pool st); try done; lia. Qed.

(** Under a fair scheduler [run] comes to its end, after no more rounds
    than there is work left. *)
Lemma fair_run_over (s : Settings) (w : Workflow) (rounds : list (list nat))
    (st : RunState) :
  Workflow_new s = Some w → 1 ≤ threads (parameters_ s) →
  reachable w st →
  fair (threads (parameters_ s)) rounds = true →
  work_left st ≤ length rounds →
  run_over (exec (concat rounds) st) = true.
Proof.
  intros Hnew HN. revert st.
  induction rounds as [|round rounds IH]; intros st Hreach Hfair Hlen; simpl in *.
  { apply work_left_0. lia. }
  apply andb_true_iff in Hfair as [Hround Hfair].
  destruct (run_over st) eqn:Hover; [by rewrite exec_over|].
  rewrite exec_app. apply IH; [by apply reachable_exec|done|].
  destruct (some_worker_can_move s w st Hnew HN Hreach Hover) as (t0 & Ht0 & Hcan).
  pose proof (round_with_mover s w t0 round st Hnew Hreach
                (covers_elem _ _ _ Hround Ht0) Hcan).
  lia.
Qed.

(** ** Alignment: exactly once *)

(** A graph that a cursor went over was to be aligned. *)
Lemma claimed_needs (s : Settings) (w : Workflow) (i g : nat) :
  (∀ i u, unalignedSamples_ w !! i = Some u →
     ∃ sample, manifest_ s !! i = Some sample
       ∧ initial_cursor (graphSpecPaths_ s) sample ≤ unprocessedGraphs_ u
       ∧ unprocessedGraphs_ u ≤ length (graphSpecPaths_ s)) →
  claimed s w i g = true → needs_alignment s i g = true.
Proof.
  intros Hcur. unfold claimed, start_at, cursor_at, needs_alignment.
  destruct (unalignedSamples_ w !! i) as [u|] eqn:Hu;
    [|by destruct (manifest_ s !! i)].
  destruct (Hcur i u Hu) as (sample & -> & Hlo & Hhi). simpl.
  unfold initial_cursor in *. intros [H1 H2]%andb_true_iff.
  apply Nat.leb_le in H1. apply Nat.ltb_lt in H2.
  destruct (isNull _); simpl; [apply Nat.ltb_lt|]; lia.
Qed.

(** Once the sink and the readers are open, [run] gets past the alignment
    phase unless an aligner call fails. *)
Lemma past_alignment (s : Settings) (w : Workflow) (st : RunState) :
  Workflow_new s = Some w → sink_opens s = true → readers_open s →
  reachable w st → count is_align_throw (trace st) = 0 →
  (∀ ths, pool st ≠ Aligning ths) → alignment_over st.
Proof.
  intros Hnew Hsink Hopen Hreach Hnothrow Hpast.
  pose proof (reachable_failure_inv s w st Hnew Hreach) as Hfail.
  destruct (reachable_readers_inv s w st Hnew Hreach) as (_ & Hrd).
  unfold alignment_over, failure_inv in *.
  destruct (pool st) as [ths| | |]; try done; [by destruct (Hpast ths)|].
  destruct Hfail as [Hfail|Hfail]; [congruence|].
  rewrite count_is_throw, count_is_align_failure, Hnothrow, (Hrd Hopen) in Hfail.
  pose proof (count_le is_geno_throw is_geno_event (trace st)) as Hle.
  assert (count is_geno_throw (trace st) ≤ count is_geno_event (trace st)); [|lia].
  apply Hle. by intros [].
Qed.

Lemma aligned_when_over (s : Settings) (w : Workflow) (st : RunState) :
  Workflow_new s = Some w → 1 ≤ threads (parameters_ s) →
  reachable w st → alignment_over st →
  ∀ i g,
    count (is_align_claim i g) (trace st) = Nat.b2n (needs_alignment s i g)
    ∧ count (is_align_call i g) (trace st) = Nat.b2n (needs_alignment s i g)
    ∧ count (is_align_return i g) (trace st) = Nat.b2n (needs_alignment s i g).
Proof.
  intros Hnew HN Hreach Hover i g.
  destruct (alignment_over_settled s w st Hnew Hreach Hover) as (_ & Hcount).
  destruct (Hcount i g) as (H1 & H2 & H3). specialize (H3 HN). lia.
Qed.

(** At any time of a run in which nothing failed so far: no pair was handed
    out that needed no alignment, none twice, and the aligner was called
    only for pairs handed out, once. *)
Lemma aligned_at_most_once (s : Settings) (w : Workflow) (st : RunState) :
  Workflow_new s = Some w → 1 ≤ threads (parameters_ s) →
  sink_opens s = true → readers_open s →
  reachable w st → count is_align_throw (trace st) = 0 →
  ∀ i g,
    count (is_align_claim i g) (trace st) ≤ Nat.b2n (needs_alignment s i g)
    ∧ count (is_align_call i g) (trace st) ≤ count (is_align_claim i g) (trace st)
    ∧ count (is_align_return i g) (trace st) = count (is_align_call i g) (trace st).
Proof.
  intros Hnew HN Hsink Hopen Hreach Hnothrow i g.
  destruct (pool st) as [ths| | |] eqn:Hpool.
  - pose proof (reachable_align_inv s w st Hnew Hreach) as Halign.
    destruct (reachable_readers_inv s w st Hnew Hreach) as (_ & Hrd).
    unfold align_inv in Halign. rewrite Hpool in Halign.
    destruct Halign as (_ & _ & _ & Hfacts).
    destruct Hfacts as (_ & _ & Hcur & Hcounts).
    { by rewrite count_is_align_failure, Hnothrow, (Hrd Hopen). }
    destruct (Hcounts i g) as (Hclaim & Hflight & Hcall).
    split; [|lia]. rewrite Hclaim.
    destruct (claimed s (workflow st) i g) eqn:Hcl; [|simpl; lia].
    by rewrite (claimed_needs s (workflow st) i g Hcur Hcl).
  - assert (Hover : alignment_over st)
      by (apply (past_alignment s w); try done; intros ths0; by rewrite Hpool).
    destruct (aligned_when_over s w st Hnew HN Hreach Hover i g) as (H1 & H2 & H3). lia.
  - assert (Hover : alignment_over st)
      by (apply (past_alignment s w); try done; intros ths0; by rewrite Hpool).
    destruct (aligned_when_over s w st Hnew HN Hreach Hover i g) as (H1 & H2 & H3). lia.
  - assert (Hover : alignment_over st)
      by (apply (past_alignment s w); try done; intros ths0; by rewrite Hpool).
    destruct (aligned_when_over s w st Hnew HN Hreach Hover i g) as (H1 & H2 & H3). lia.
Qed.


(** ** One worker thread: the order of the records *)

(** C6.  With one worker thread every pool holds exactly one worker, so at
    most one collaborator call is under way at any time, and the records go
    to the combined stream in ascending order of graph index.  At any point
    of the run the graph indices of the records written so far are
    [0, 1, ..., k-1] in this order, and with an output file path the worker
    is at row [k]: no row is handed out before the record of the row before
    it is written.  Under every schedule that gives the worker as many moves
    as there is work left, [run] comes to its end; if it returns, the
    records are those of all rows of the table, in this order, each the
    genotyper's output for its row, between the frame; and it returns
    whenever the output file could be opened and no call has failed. *)
Theorem single_thread_output_order (s : Settings) (w : Workflow) (st : RunState)
    (rounds : list (list nat)) :
  Workflow_new s = Some w →
  threads (parameters_ s) = 1 →
  reachable w st →
  fair 1 rounds = true →
  work_left st ≤ length rounds →
  let st' := exec (concat rounds) st in
  (fst <$> written (trace st)) = seq 0 (length (written (trace st)))
  ∧ match pool st with
    | Aligning ths => length ths = 1
    | Genotyping ths =>
        length ths = 1
        ∧ (has_outputFile s = true →
           Forall (single_pc_ok st (length (written (trace st)))) ths)
    | _ => True
    end
  ∧ run_over st' = true
  ∧ (sink_opens s = true → count is_throw (trace st') = 0 → pool st' = Finished)
  ∧ (pool st' = Finished → has_outputFile s = true →
     (fst <$> written (trace st')) = seq 0 (Nat.max 1 (length (graphSpecPaths_ s)))
     ∧ Forall (record_ok (workflow st')) (written (trace st'))
     ∧ fos st' = frame_open s +:+ join "," (records (trace st')) +:+ frame_close s).
Proof.
  intros Hnew HN Hreach Hfair Hlen st'.
  assert (HN1 : 1 ≤ threads (parameters_ s)) by lia.
  rewrite <- HN in Hfair.
  pose proof (fair_run_over s w rounds st Hnew HN1 Hreach Hfair Hlen) as Hover.
  pose proof (reachable_exec w (concat rounds) st Hreach) as Hreach'.
  fold st' in Hover, Hreach'. clearbody st'.
  pose proof (reachable_single_inv s w st Hnew HN Hreach) as Hsingle.
  pose proof (reachable_geno_inv s w st Hnew Hreach) as Hgeno.
  pose proof (reachable_align_inv s w st Hnew Hreach) as Halign.
  assert (Hlenk : ∀ (tr : list (@event Json)) k,
            (fst <$> written tr) = seq 0 k → k = length (written tr)).
  { intros tr k Hk. by rewrite <- (length_fmap fst), Hk, length_seq. }
  split; [|split; [|split; [|split]]].
  - unfold single_inv in Hsingle. destruct (pool st).
    + by rewrite Hsingle.
    + destruct Hsingle as (k & Hk & _). by rewrite <- (Hlenk _ _ Hk).
    + destruct Hsingle as (k & Hk). by rewrite <- (Hlenk _ _ Hk).
    + destruct Hsingle as (k & Hk). by rewrite <- (Hlenk _ _ Hk).
  - unfold single_inv, geno_inv, align_inv in *. destruct (pool st) as [ths|ths| |]; try done.
    + destruct Halign as (-> & _). done.
    + destruct Hgeno as (Hths & _). rewrite HN in Hths. split; [done|].
      intros Hfile. destruct Hsingle as (k & Hk & Hpc).
      rewrite <- (Hlenk _ _ Hk). destruct ths as [|pc [|? ?]]; try done.
      constructor; [|done]. by apply Hpc.
  - done.
  - intros Hsink Hnothrow.
    pose proof (reachable_failure_inv s w st' Hnew Hreach') as Hfail.
    unfold failure_inv, run_over in *. destruct (pool st'); try done.
    destruct Hfail as [Hfail|Hfail]; [congruence|lia].
  - intros Hfin Hfile.
    pose proof (reachable_single_inv s w st' Hnew HN Hreach') as Hsingle'.
    pose proof (reachable_geno_inv s w st' Hnew Hreach') as Hgeno'.
    destruct (reachable_shape s w st' Hnew Hreach') as (_ & _ & Hshape).
    unfold single_inv, geno_inv in Hsingle', Hgeno'. rewrite Hfin in Hsingle', Hgeno'.
    destruct Hgeno' as (Hfos & Hrec & _ & _ & _ & Hlen').
    destruct Hsingle' as (k & Hk). split; [|done].
    rewrite Hk. f_equal. rewrite (Hlenk _ _ Hk), Hlen' by (done || lia).
    by rewrite <- (length_fmap length), Hshape, length_replicate.
Qed.

(** ** No graph spec: one genotyper call *)

Lemma count_pos_elem {A : Type} (p : A → bool) (l : list A) :
  0 < count p l → ∃ x, x ∈ l ∧ p x = true.
Proof.
  induction l as [|x l IH]; simpl; [lia|].
  destruct (p x) eqn:Hx.
  - intros _. exists x. split; [left|done].
  - intros Hpos. destruct IH as (y & Hin & Hy); [lia|]. exists y. split; [by right|done].
Qed.


(** * Further properties of the code *)

(** ** The constructor and the options *)

Lemma construct_loop_None (m : Samples) (us : list UnalignedSample) (row : Samples) :
  construct_loop [] m us [row] = None
  ↔ NDEBUG = false ∧ ∃ sample, sample ∈ m ∧ isNull (get_alignment_data sample) = true.
Proof.
  revert us row. induction m as [|x m IH]; intros us row; simpl.
  - split; [done|]. intros (_ & sample & Hin & _). by apply elem_of_nil in Hin.
  - unfold assert. destruct (isNull (get_alignment_data x)) eqn:Hx; simpl.
    + rewrite orb_false_r. destruct NDEBUG eqn:Hnd.
      * rewrite IH. split; by intros [? _].
      * split; [|done]. intros _. split; [done|]. exists x. split; [left|done].
    + rewrite orb_true_r, IH. split.
      * intros (Hnd & sample & Hin & Hs). split; [done|]. exists sample. split; [by right|done].
      * intros (Hnd & sample & Hin & Hs). split; [done|]. exists sample. split; [|done].
        apply elem_of_cons in Hin as [->|Hin]; [congruence|done].
Qed.

(** X1.  The constructor aborts the process, by the assertion of its
    no-graph branch, exactly when there is no graph spec, assertions are
    compiled in, and some sample of the manifest has no alignment data; in
    every other case it constructs the workflow. *)
Theorem constructor_aborts_iff (s : Settings) :
  Workflow_new s = None
  ↔ graphSpecPaths_ s = [] ∧ NDEBUG = false
    ∧ ∃ sample, sample ∈ manifest_ s ∧ isNull (get_alignment_data sample) = true.
Proof.
  unfold Workflow_new. destruct (graphSpecPaths_ s) as [|g gs] eqn:Hg.
  - simpl. pose proof (construct_loop_None (manifest_ s) [] []) as Hnone.
    destruct (construct_loop [] (manifest_ s) [] [[]]) as [[us al]|].
    + split; [done|]. intros (_ & H). by apply Hnone in H.
    + split; [|done]. intros _. split; [done|]. by apply Hnone.
  - rewrite construct_loop_graphs; [|done|by rewrite length_replicate].
    split; [done|]. by intros [? _].
Qed.

Lemma first_unaligned_None_iff (m : Samples) :
  first_unaligned m = None
  ↔ Forall (λ sample, isNull (get_alignment_data sample) = false) m.
Proof.
  unfold first_unaligned. induction m as [|sample m IH]; simpl; [done|].
  destruct (isNull _) eqn:Hnull.
  - split; [done|]. intros H. inversion H. congruence.
  - rewrite IH. split; [by constructor|]. intros H. by inversion H.
Qed.

Lemma first_prealigned_None_iff (m : Samples) :
  first_prealigned m = None
  ↔ Forall (λ sample, isNull (get_alignment_data sample) = true) m.
Proof.
  unfold first_prealigned. induction m as [|sample m IH]; simpl; [done|].
  destruct (isNull _) eqn:Hnull; simpl.
  - rewrite IH. split; [by constructor|]. intros H. by inversion H.
  - split; [done|]. intros H. inversion H. congruence.
Qed.

(** X2.  The manifest check of [postProcess] lets a manifest through exactly
    when, without graph specs, every sample has alignment data, and, with
    more than one graph spec, no sample has; with exactly one graph spec
    every manifest goes through, pre-aligned samples and others mixed. *)
Theorem manifest_check_accepts_iff (graphs : list string) (m : Samples) :
  check_manifest graphs m = inl ()
  ↔ (graphs = [] → Forall (λ sample, isNull (get_alignment_data sample) = false) m)
    ∧ (1 < length graphs → Forall (λ sample, isNull (get_alignment_data sample) = true) m).
Proof.
  unfold check_manifest, error.
  destruct (Nat.eqb_spec (length graphs) 0) as [H0|H0].
  - assert (graphs = []) as -> by by destruct graphs.
    rewrite <- first_unaligned_None_iff.
    destruct (first_unaligned m); simpl.
    + split; [done|]. intros [H _]. by specialize (H eq_refl).
    + split; [|done]. intros _. split; [done|lia].
  - destruct (Nat.ltb_spec 1 (length graphs)) as [H1|H1].
    + rewrite <- first_prealigned_None_iff.
      destruct (first_prealigned m); simpl.
      * split; [done|]. intros [_ H]. by specialize (H H1).
      * split; [|done]. intros _. split; [|done]. intros ->. done.
    + split; [|done]. intros _. split; [intros ->; done|lia].
Qed.

(** What [postProcess] has checked and what it hands on when it goes
    through. *)
Lemma postProcess_inl (vm : VariablesMap) (o : Options) :
  postProcess vm = inl o →
  ∃ reference manifest_path m,
    vm_reference vm = Some reference
    ∧ vm_manifest vm = Some manifest_path
    ∧ loadManifest manifest_path = Some m
    ∧ check_manifest (default [] (vm_graph_spec vm)) m = inl ()
    ∧ check_alignment_output (vm_alignment_output_folder vm) = inl (alignment_output_path o)
    ∧ reference_path o = reference
    ∧ graph_spec_paths o = default [] (vm_graph_spec vm)
    ∧ manifest o = m
    ∧ output_folder_path o = default EmptyString (vm_output_folder vm)
    ∧ output_file_path o
      = (if String.eqb (default EmptyString (vm_output_file vm)) EmptyString
            && negb (bool_decide (is_Some (vm_output_folder vm)))
         then "-"%string else default EmptyString (vm_output_file vm)).
Proof.
  unfold postProcess, error.
  destruct (vm_reference vm) as [reference|]; [|done].
  destruct (assertFileExists reference); [done|].
  destruct (match vm_graph_spec vm with Some _ => _ | None => _ end); [done|].
  destruct (negb (String.eqb _ _) && negb (create_directory _)); [done|].
  destruct (check_alignment_output _) as [alignment_output|]; [|done].
  destruct (vm_manifest vm) as [manifest_path|]; [|done].
  destruct (assertFileExists manifest_path); [done|].
  destruct (loadManifest manifest_path) as [m|] eqn:Hload; [|done].
  destruct (check_manifest _ m) as [[]|] eqn:Hcheck; [|done].
  intros [= <-]. simpl. exists reference, manifest_path, m. done.
Qed.

(** X3.  Options that went through [postProcess] always construct: with
    graph specs the constructor has nothing to assert, and without, the
    manifest check has seen to it that every sample carries alignment data,
    which is what the constructor asserts.  So [runGrmpy] is never aborted
    by the constructor's assertion, under no schedule. *)
Theorem postProcess_options_construct (vm : VariablesMap) (o : Options) :
  postProcess vm = inl o →
  is_Some (Workflow_new (workflow_settings o))
  ∧ (graph_spec_paths o = [] →
     Forall (λ sample, isNull (get_alignment_data sample) = false) (manifest o))
  ∧ ∀ sched, runGrmpy o sched ≠ Aborted.
Proof.
  intros Hpost.
  assert (Hpre : graph_spec_paths o = [] →
            Forall (λ sample, isNull (get_alignment_data sample) = false) (manifest o)).
  { by apply (postProcess_no_graphs vm o). }
  assert (Hsome : is_Some (Workflow_new (workflow_settings o))).
  { apply Workflow_new_is_Some. simpl.
    destruct (graph_spec_paths o) as [|g gs]; [|by left]. right. right. by apply Hpre. }
  split; [done|]. split; [done|].
  intros sched. unfold runGrmpy. destruct Hsome as [w ->]. by destruct (pool _).
Qed.

(** X4.  Options that went through [postProcess] have a combined stream
    unless an output folder was asked for: with neither an output file nor
    an output folder the stream is the standard output, written ["-"]; an
    output file that was given is kept; and the output file path is empty
    only if the output folder option was given. *)
Theorem output_defaults_to_stdout (vm : VariablesMap) (o : Options) :
  postProcess vm = inl o →
  (vm_output_folder vm = None →
   output_file_path o ≠ EmptyString
   ∧ (default EmptyString (vm_output_file vm) = EmptyString → output_file_path o = "-"%string))
  ∧ (∀ file, vm_output_file vm = Some file → file ≠ EmptyString → output_file_path o = file)
  ∧ (has_outputFile (workflow_settings o) = false → is_Some (vm_output_folder vm))
  ∧ output_folder_path o = default EmptyString (vm_output_folder vm).
Proof.
  intros Hpost.
  destruct (postProcess_inl vm o Hpost)
    as (reference & manifest_path & m & _ & _ & _ & _ & _ & _ & _ & _ & Hfolder & Hfile).
  split; [|split; [|split]].
  - intros Hnone. rewrite Hfile, Hnone. simpl. rewrite andb_true_r.
    destruct (String.eqb_spec (default EmptyString (vm_output_file vm)) EmptyString); done.
  - intros file Hgiven Hne. rewrite Hfile, Hgiven. simpl.
    by destruct (String.eqb_spec file EmptyString).
  - unfold has_outputFile. simpl. rewrite Hfile.
    destruct (vm_output_folder vm); [by eexists|]. simpl. rewrite andb_true_r.
    destruct (String.eqb_spec (default EmptyString (vm_output_file vm)) EmptyString);
      [done|].
    by destruct (String.eqb_spec (default EmptyString (vm_output_file vm)) EmptyString).
  - done.
Qed.

(** X5.  The alignment output folder of options that went through
    [postProcess]: a path with a leading ['!'] is taken whatever is there,
    without the ['!']; any other path that is not empty is taken as it is,
    and only if no directory of this name exists yet. *)
Theorem alignment_output_folder_forced (vm : VariablesMap) (o : Options) :
  postProcess vm = inl o →
  (vm_alignment_output_folder vm = EmptyString → alignment_output_path o = EmptyString)
  ∧ (∀ rest, vm_alignment_output_folder vm = String "!" rest →
       alignment_output_path o = rest)
  ∧ (∀ c rest, vm_alignment_output_folder vm = String c rest → c ≠ "!"%char →
       alignment_output_path o = String c rest ∧ is_directory (String c rest) = false).
Proof.
  intros Hpost.
  destruct (postProcess_inl vm o Hpost)
    as (reference & manifest_path & m & _ & _ & _ & _ & Hcheck & _).
  unfold check_alignment_output, error in Hcheck.
  split; [|split].
  - intros Hempty. rewrite Hempty in Hcheck. by injection Hcheck as <-.
  - intros rest Hforced. rewrite Hforced in Hcheck. simpl in Hcheck.
    destruct (negb (is_directory rest) && negb (create_directory rest)); [done|].
    by injection Hcheck as <-.
  - intros c rest Hgiven Hc. rewrite Hgiven in Hcheck.
    destruct (Ascii.eqb_spec c "!"%char) as [?|_]; [done|]. simpl in Hcheck.
    destruct (is_directory (String c rest)); [done|]. simpl in Hcheck.
    destruct (create_directory (String c rest)); [|done]. by injection Hcheck as <-.
Qed.

(** ** The run as a whole *)

Lemma run_start_failed (w : Workflow) :
  pool (run_start w) = Failed ↔ sink_opens (settings w) = false.
Proof.
  unfold run_start, sink_opens. destruct (_ && _); simpl; split; done.
Qed.

Lemma reachable_sink_failed (w : Workflow) (st : RunState) :
  sink_opens (settings w) = false → reachable w st →
  st = mkRunState w EmptyString 0 [] Failed [].
Proof.
  intros Hsink [sched ->]. rewrite exec_over.
  - unfold run_start, sink_opens in *. by destruct (_ && _).
  - unfold run_over. apply run_start_failed in Hsink. by rewrite Hsink.
Qed.

(** X6.  When the output file cannot be opened, [run] fails at once: in
    every state of the run no worker has been started, nothing has been
    aligned, genotyped or written, and the table is as the constructor left
    it.  With the standard output (["-"]) or without an output file this
    does not happen, and neither when the file opens: the alignment pool
    starts with every worker at the first sample and the stream holds the
    opening frame. *)
Theorem sink_failure_is_immediate (w : Workflow) (st : RunState) :
  reachable w st →
  (sink_opens (settings w) = false → st = mkRunState w EmptyString 0 [] Failed [])
  ∧ (sink_opens (settings w) = true →
     run_start w
     = mkRunState w (frame_open (settings w)) 0 []
         (Aligning (replicate (threads (parameters_ (settings w))) (ALoop 0 false))) [])
  ∧ (outputFilePath_ (settings w) = "-"%string ∨ outputFilePath_ (settings w) = EmptyString →
     sink_opens (settings w) = true).
Proof.
  intros Hreach. split; [|split].
  - intros Hsink. by apply reachable_sink_failed.
  - intros Hsink. unfold run_start, sink_opens in *. by destruct (_ && _).
  - unfold sink_opens, has_outputFile. by intros [-> | ->].
Qed.

Lemma reachable_stream_inv (s : Settings) (w : Workflow) (st : RunState) :
  Workflow_new s = Some w → reachable w st → stream_inv s st.
Proof.
  intros Hnew. pose proof Hnew as (Hs & _)%Workflow_new_Some.
  assert (Hdirect : ∀ st0, reachable w st0 → pool st0 ≠ Failed → stream_inv s st0).
  { intros st0 Hreach Hnot. pose proof (reachable_geno_inv s w st0 Hnew Hreach) as Hgeno.
    unfold stream_inv, geno_inv in *. destruct (pool st0) as [ths|ths| |]; try done.
    - destruct Hgeno as (-> & _ & Hall). intros _. unfold records.
      rewrite (written_align_trace _ Hall). simpl. by rewrite string_app_nil_r.
    - by destruct Hgeno as (_ & -> & _). }
  revert st. apply reachable_ind.
  - destruct (pool (run_start w)) eqn:Hp; try (apply Hdirect; [apply reachable_start|congruence]).
    unfold stream_inv. rewrite Hp. intros Hopen.
    apply run_start_failed in Hp. congruence.
  - intros t st Hreach IH.
    destruct (pool (tick t st)) eqn:Hp';
      try (apply Hdirect; [by apply reachable_tick|congruence]).
    pose proof (Hdirect st Hreach) as Hst. unfold stream_inv in *. rewrite Hp'.
    revert Hp' IH Hst. tick_cases t st; simpl; rewrite ?Hpool; done.
Qed.

(** X7.  Once something has failed in the alignment phase (an aligner call,
    or the opening of a reader), the genotyping phase never starts: no row
    is handed out, the genotyper is never called and no record is written,
    and [run] does not return: it waits for the workers of the alignment
    pool, one of which was left by the exception, and fails. *)
Theorem alignment_failure_stops_run (s : Settings) (w : Workflow) (st : RunState) :
  Workflow_new s = Some w → reachable w st →
  0 < count is_align_failure (trace st) →
  count is_geno_event (trace st) = 0
  ∧ written (trace st) = []
  ∧ fos st = frame_open s
  ∧ ((∃ ths, pool st = Aligning ths ∧ 0 < count align_thrown ths) ∨ pool st = Failed).
Proof.
  intros Hnew Hreach Hfail.
  pose proof (reachable_align_inv s w st Hnew Hreach) as Halign.
  pose proof (reachable_phase_inv w st Hreach) as (gpart & apart & Htr & Hg & Ha & Hp).
  assert (Hnone : count is_geno_event (trace st) = 0).
  { unfold align_inv in Halign. destruct (pool st) as [ths|ths| |] eqn:Hpool.
    - destruct Halign as (_ & Hall & _). apply count_none.
      eapply Forall_impl; [exact Hall|]. intros e He. unfold is_geno_event. by rewrite He.
    - destruct Halign as (Hz & _). lia.
    - destruct Halign as (Hz & _). lia.
    - destruct (count is_geno_event (trace st)) eqn:Hn; [done|].
      destruct Halign as (Hz & _); lia. }
  assert (Hgpart : gpart = []).
  { destruct gpart as [|e gpart]; [done|]. apply Forall_cons in Hg as [He _].
    rewrite Htr in Hnone. simpl in Hnone. rewrite He in Hnone. simpl in Hnone. lia. }
  subst gpart. simpl in Htr.
  assert (Hwr : written (trace st) = []).
  { rewrite Htr. by apply written_align_trace. }
  split; [done|]. split; [done|].
  pose proof (reachable_stream_inv s w st Hnew Hreach) as Hstream.
  assert (Hsink : sink_opens s = true).
  { destruct (sink_opens s) eqn:Hsink; [done|].
    apply Workflow_new_Some in Hnew as (Hs & _). rewrite <- Hs in Hsink.
    rewrite (reachable_sink_failed w st Hsink Hreach) in Hfail. simpl in Hfail. lia. }
  unfold align_inv, stream_inv in *.
  destruct (pool st) as [ths|ths| |] eqn:Hpool.
  - split.
    + rewrite (Hstream Hsink). unfold records. rewrite Hwr. simpl. apply string_app_nil_r.
    + left. exists ths. split; [done|]. by apply Halign.
  - destruct Halign as (Hz & _). lia.
  - destruct Halign as (Hz & _). lia.
  - split; [|by right].
    rewrite (Hstream Hsink). unfold records. rewrite Hwr. simpl. apply string_app_nil_r.
Qed.

(** A move only adds events to the trace. *)
Lemma tick_trace (t : nat) (st : RunState) :
  ∃ evs, trace (tick t st) = evs ++ trace st.
Proof.
  tick_cases t st; simpl; try by exists [].
  - by exists evs.
  - apply geno_step_frame in Hstep as (_ & _ & _ & evs' & Htr & _).
    destruct st' as [w1 f1 c1 o1 p1 tr1]. by exists evs'.
Qed.

Lemma reachable_flag_origin_inv (s : Settings) (w : Workflow) (st : RunState) :
  Workflow_new s = Some w → reachable w st → flag_origin_inv st.
Proof.
  intros Hnew. pose proof Hnew as (_ & _ & _ & Hterm & _)%Workflow_new_Some.
  revert st. apply reachable_ind.
  - unfold flag_origin_inv. rewrite run_start_workflow. congruence.
  - intros t st _ IH. unfold flag_origin_inv in *. revert IH.
    tick_cases t st; simpl; try done.
    + (* a worker of the alignment pool moves *)
      rewrite !count_app. destruct pc as [i rd|i g| |]; simpl in Hstep.
      * pose proof (alignSamples_locked_frame _ _ _ _ _ _ _ Hstep) as (_ & _ & -> & _).
        intros IH Hset. specialize (IH Hset). lia.
      * apply alignSamples_unlocked_cases in Hstep as (_ & _ & _ & _ & _ & Hcase).
        destruct Hcase as [(_ & -> & path & slot & ->)|(_ & _ & evs' & -> & _)].
        -- intros IH Hset. specialize (IH Hset). simpl. lia.
        -- intros _ _. simpl. lia.
      * injection Hstep as <- <- <-. done.
      * injection Hstep as <- <- <-. done.
    + (* a worker of the genotyping pool moves *)
      pose proof (geno_step_frame _ _ _ _ _ Hstep) as (_ & _ & _ & evs & Htr & _).
      destruct pc as [pending|g| |]; simpl in Hstep.
      * apply genotypeGraphs_locked_cases in Hstep as (Hw & _).
        destruct (write_pending_frame t pending st) as (_ & _ & _ & Ht & _).
        destruct st' as [w1 f1 c1 o1 p1 tr1]. simpl in *. subst tr1. rewrite Hw, Ht.
        intros IH Hset. specialize (IH Hset). rewrite !count_app. lia.
      * apply genotypeGraphs_unlocked_cases in Hstep as (_ & _ & _ & Hcase).
        destruct st' as [w1 f1 c1 o1 p1 tr1]. simpl in *.
        destruct Hcase as [(_ & _ & evs' & -> & _)|(path & output & _ & -> & _ & _ & ->)].
        -- intros _ _. simpl. lia.
        -- intros IH Hset. specialize (IH Hset). simpl. lia.
      * by injection Hstep as <- <-.
      * by injection Hstep as <- <-.
Qed.

(** X8.  The termination flag is set exactly when a call of the aligner or
    of the genotyper has failed (or an access or an output file inside the
    block of such a call): nothing else sets it, a reader that cannot be
    opened does not, and once set it stays set, whatever moves next. *)
Theorem termination_flag_iff_failure (s : Settings) (w : Workflow) (st : RunState) :
  Workflow_new s = Some w → reachable w st →
  (terminate_ (workflow st) = true
   ↔ 0 < count is_align_throw (trace st) + count is_geno_throw (trace st))
  ∧ ∀ t, terminate_ (workflow st) = true → terminate_ (workflow (tick t st)) = true.
Proof.
  intros Hnew Hreach.
  assert (Hiff : ∀ st, reachable w st →
            (terminate_ (workflow st) = true
             ↔ 0 < count is_align_throw (trace st) + count is_geno_throw (trace st))).
  { intros st' Hreach'. split.
    - apply (reachable_flag_origin_inv s w st' Hnew Hreach').
    - apply (reachable_flag_inv w st' Hreach'). }
  split; [by apply Hiff|].
  intros t Hset. apply (Hiff (tick t st)); [by apply reachable_tick|].
  apply (Hiff st Hreach) in Hset.
  destruct (tick_trace t st) as (evs & ->). rewrite !count_app. lia.
Qed.

(** ** Every move is progress *)

(** X9.  No move of a run is wasted and no run goes on for ever: a move
    either leaves the state as it is (the worker picked has finished, or
    there is no such worker) or reduces what is left to do, a number that
    the cursors and the workers bound; so however the workers are
    scheduled, the state changes at most that many times, and from every
    state some schedule no longer than that brings [run] to its end. *)
Theorem every_move_is_progress (s : Settings) (w : Workflow) (st : RunState) :
  Workflow_new s = Some w → reachable w st →
  (∀ t, tick t st = st ∨ work_left (tick t st) < work_left st)
  ∧ ∃ sched, length sched ≤ work_left st ∧ run_over (exec sched st) = true.
Proof.
  intros Hnew Hreach. split.
  - intros t. apply tick_stutter_or_less. by apply (reachable_bounds_inv s w).
  - remember (work_left st) as n eqn:Hn. revert st Hn Hreach.
    induction n as [n IH] using lt_wf_ind. intros st -> Hreach.
    destruct (run_over st) eqn:Hover; [exists []; split; [simpl; lia|done]|].
    destruct (tick_decreases st (reachable_bounds_inv s w st Hnew Hreach) Hover) as (t & Hlt).
    destruct (IH _ Hlt (tick t st) eq_refl (reachable_tick w t st Hreach))
      as (sched & Hlen & Hsched).
    exists (t :: sched). split; [simpl; lia|done].
Qed.

(** ** Accesses within bounds *)

Lemma count_align_events (p : @event Json → bool) (evs tr : list (@event Json)) :
  (∀ e, is_align_event e = true → p e = false) →
  Forall (λ e, is_align_event e = true) evs →
  count p (evs ++ tr) = count p tr.
Proof.
  intros Hp Hall. rewrite count_app, count_none; [done|].
  eapply Forall_impl; [exact Hall|]. done.
Qed.

(** A slot within the shape of the table exists. *)
Lemma slot_in_bounds (s : @Settings Json) (w : @Workflow Json) (g i : nat) :
  length <$> alignedSamples_ w = replicate (table_rows s) (length (manifest_ s)) →
  g < table_rows s → i < length (manifest_ s) →
  ∃ row slot, alignedSamples_ w !! g = Some row ∧ row !! i = Some slot.
Proof.
  intros Hshape Hg Hi.
  assert (length (alignedSamples_ w) = table_rows s) as Hrows.
  { by rewrite <- (length_fmap length), Hshape, length_replicate. }
  destruct (lookup_lt_is_Some_2 (alignedSamples_ w) g) as [row Hrow]; [lia|].
  assert (length row = length (manifest_ s)) as Hlen.
  { assert ((length <$> alignedSamples_ w) !! g = Some (length row)) as Hl
      by (by rewrite list_lookup_fmap, Hrow).
    rewrite Hshape in Hl. apply lookup_replicate in Hl as [? _]. done. }
  destruct (lookup_lt_is_Some_2 row i) as [slot Hslot]; [lia|].
  by exists row, slot.
Qed.

(** The aligner call on a slot that exists: what it is given, and what the
    slot holds afterwards. *)
Lemma alignSamples_unlocked_slot (t i g : nat) (w w' : Workflow) (pc : align_pc)
    (evs : list event) (row : Samples) (slot : SampleInfo) :
  alignedSamples_ w !! g = Some row → row !! i = Some slot →
  alignSamples_unlocked t i g w = (w', pc, evs) →
  let path := default EmptyString (graphSpecPaths_ (settings w) !! g) in
  slot_at w' g i = Some (alignSingleSample path (referencePath_ (settings w)) slot).1
  ∧ (evs = [EvAlignReturn t i g; EvAlignCall t i g path slot]
     ∨ evs = [EvAlignThrow t i g; EvAlignCall t i g path slot]).
Proof.
  intros Hrow Hslot. unfold alignSamples_unlocked. rewrite Hrow, Hslot.
  destruct (alignSingleSample _ _ slot) as [slot' ok] eqn:Hcall.
  rewrite block_exit_false, block_exit_true.
  assert (Hnew : <[g := <[i := slot']> row]> (alignedSamples_ w) !! g ≫= (.!! i) = Some slot').
  { rewrite list_lookup_insert_eq by by eapply lookup_lt_Some. simpl.
    apply list_lookup_insert_eq. by eapply lookup_lt_Some. }
  destruct ok; intros [= <- <- <-]; simpl; unfold slot_at; simpl; rewrite Hnew; auto.
Qed.

Lemma table_rows_graphs (s : @Settings Json) (g : nat) :
  g < length (graphSpecPaths_ s) → g < table_rows s.
Proof. unfold table_rows. lia. Qed.

(** The path of a row of the table exists. *)
Lemma graphSpecPath_of_row (s : @Settings Json) (g : nat) :
  g < table_rows s → is_Some (graphSpecPath_of s g).
Proof.
  unfold graphSpecPath_of, table_rows. intros Hg.
  destruct (Nat.eqb_spec (length (graphSpecPaths_ s)) 0); [done|].
  apply lookup_lt_is_Some_2. lia.
Qed.

Lemma reachable_rows (s : Settings) (w : Workflow) (st : RunState) :
  Workflow_new s = Some w → reachable w st →
  length (alignedSamples_ (workflow st)) = table_rows s.
Proof.
  intros Hnew Hreach. destruct (reachable_shape s w st Hnew Hreach) as (_ & _ & Hshape).
  by rewrite <- (length_fmap length), Hshape, length_replicate.
Qed.

Lemma reachable_calls_inv (s : Settings) (w : Workflow) (st : RunState) :
  Workflow_new s = Some w → reachable w st → calls_inv s st.
Proof.
  intros Hnew. revert st. apply reachable_ind.
  - unfold calls_inv. rewrite run_start_trace. unfold run_start.
    destruct (_ && _); simpl; repeat split; try lia. by apply Forall_replicate.
  - intros t st Hreach (Hcursor & Halign & Hgeno & Hths).
    destruct (reachable_shape s w st Hnew Hreach) as (Hset & Hlen & Hshape).
    pose proof (reachable_rows s w st Hnew Hreach) as Hrows.
    destruct (reachable_bounds_inv s w st Hnew Hreach) as (Hbound & _).
    unfold calls_inv. revert Hths.
    tick_cases t st; simpl; rewrite ?Hpool; try done.
    + (* on to genotyping *)
      intros _. repeat split; try done; try lia. by apply Forall_replicate.
    + (* a worker of the alignment pool moves *)
      intros Hths. pose proof (Forall_lookup_1 _ _ _ _ Hths Hpc) as Hin.
      pose proof (align_step_frame _ _ _ _ _ _ Hstep) as (_ & _ & Hshape' & _ & Hevs).
      assert (Hrows' : length (alignedSamples_ w') = length (alignedSamples_ (workflow st))).
      { by rewrite <- (length_fmap length), Hshape', length_fmap. }
      rewrite Hrows', !count_app.
      rewrite !(count_none is_geno_call evs), !(count_none is_geno_return evs),
        !(count_none is_geno_throw evs);
        try (eapply Forall_impl; [exact Hevs|]; by intros []).
      destruct pc as [i rd|i g| |]; simpl in Hstep.
      * pose proof (alignSamples_locked_events _ _ _ _ _ _ _ Hstep) as (Hall & _).
        rewrite !(count_none is_align_call_any evs), !(count_none is_align_return_any evs),
          !(count_none is_align_throw evs);
          try (eapply Forall_impl; [exact Hall|]; by intros e [(j & g & ->)|(j & ->)]).
        repeat split; try done. apply Forall_insert; [done|].
        destruct (terminate_ (workflow st)) eqn:Hterm.
        -- apply alignSamples_locked_true in Hstep as ([-> | ->] & _); done.
        -- apply alignSamples_locked_false in Hstep; [|done].
           destruct Hstep as [(-> & _)|[(j & g & u & -> & _ & Hu & Hg & Hne & _)|(-> & _)]];
             try done.
           intros i' g' [= <- <-]. split.
           ++ rewrite <- Hlen. by eapply lookup_lt_Some.
           ++ pose proof (Forall_lookup_1 _ _ _ _ Hbound Hu) as Hle. simpl in Hle.
              unfold graphs_end in *. rewrite Hset in *. lia.
      * destruct (Hin i g eq_refl) as (Hi & Hg).
        destruct (slot_in_bounds s (workflow st) g i) as (row & slot & Hrow & Hslot);
          [by rewrite Hshape|by apply table_rows_graphs|done|].
        assert (Hpc' : ∀ i' g', pc' ≠ ACall i' g').
        { pose proof (alignSamples_unlocked_cases _ _ _ _ _ _ _ Hstep)
            as (_ & _ & _ & _ & _ & [(-> & _)|(-> & _)]); done. }
        pose proof (alignSamples_unlocked_slot _ _ _ _ _ _ _ _ _ Hrow Hslot Hstep)
          as (_ & [-> | ->]).
        -- simpl. repeat split; try done; try lia.
           apply Forall_insert; [done|]. intros i' g' Heq. by destruct (Hpc' i' g').
        -- simpl. repeat split; try done; try lia.
           apply Forall_insert; [done|]. intros i' g' Heq. by destruct (Hpc' i' g').
      * injection Hstep as <- <- <-. simpl. repeat split; try done.
        by rewrite list_insert_id.
      * injection Hstep as <- <- <-. simpl. repeat split; try done.
        by rewrite list_insert_id.
    + (* a worker of the genotyping pool moves *)
      intros Hths. pose proof (Forall_lookup_1 _ _ _ _ Hths Hpc) as Hin.
      pose proof (geno_step_frame _ _ _ _ _ Hstep) as (_ & _ & Ha' & _).
      rewrite Ha'. destruct pc as [pending|g| |]; simpl in Hstep.
      * apply genotypeGraphs_locked_cases in Hstep as (_ & _ & _ & Hcase).
        assert (Hwr : ∀ p : @event Json → bool, (∀ t g o, p (EvWrite t g o) = false) →
                  count p (trace (write_pending t pending st)) = count p (trace st)).
        { intros p Hp. destruct (write_pending_cases t pending st)
            as [(-> & _)|(g & output & _ & _ & _ & _ & ->)]; [done|]. simpl. by rewrite Hp. }
        destruct Hcase as [(_ & -> & -> & ->)|(Hne & -> & -> & ->)].
        -- rewrite !Hwr by done. repeat split; try done. by apply Forall_insert.
        -- simpl. rewrite !Hwr by done. repeat split; try done; try lia.
           apply Forall_insert.
           ++ eapply Forall_impl; [exact Hths|]. intros pc Hpc' g Heq.
              specialize (Hpc' g Heq). lia.
           ++ destruct (terminate_ _); [done|]. intros g [= <-]. lia.
      * specialize (Hin g eq_refl).
        destruct (graphSpecPath_of_row s g) as [path Hpath]; [lia|].
        apply genotypeGraphs_unlocked_cases in Hstep as (_ & -> & _ & Hcase).
        rewrite Hset in Hcase.
        destruct Hcase as [(-> & _ & evs & -> & [[_ Hnone]|(path' & _ & ->)])
                          |(path' & output & -> & _ & _ & _ & ->)].
        -- congruence.
        -- simpl. repeat split; try done; try lia. by apply Forall_insert.
        -- simpl. repeat split; try done; try lia. by apply Forall_insert.
      * injection Hstep as <- <-. repeat split; try done. by rewrite list_insert_id.
      * injection Hstep as <- <-. repeat split; try done. by rewrite list_insert_id.
Qed.

(** X10.  Neither cursor is ever moved past the end, and the accesses that
    are checked never fail: in every state of a run, each graph cursor is at
    most [end()], the row cursor is within the table, and every failure of a
    worker inside a block is the failure of the collaborator it called (the
    aligner; the genotyper or the output file of its row), whose call was
    logged: the two [at] of [alignSamples] and the [at] of [genotypeGraphs]
    never throw. *)
Theorem accesses_stay_in_bounds (s : Settings) (w : Workflow) (st : RunState) :
  Workflow_new s = Some w → reachable w st →
  Forall (λ u, unprocessedGraphs_ u ≤ length (graphSpecPaths_ s))
    (unalignedSamples_ (workflow st))
  ∧ ungenotypedSamples st ≤ table_rows s
  ∧ count is_align_call_any (trace st)
    = count is_align_return_any (trace st) + count is_align_throw (trace st)
  ∧ count is_geno_call (trace st)
    = count is_geno_return (trace st) + count is_geno_throw (trace st).
Proof.
  intros Hnew Hreach.
  destruct (reachable_calls_inv s w st Hnew Hreach) as (Hcursor & Halign & Hgeno & _).
  destruct (reachable_bounds_inv s w st Hnew Hreach) as (Hbound & _).
  destruct (reachable_shape s w st Hnew Hreach) as (Hset & _).
  rewrite (reachable_rows s w st Hnew Hreach) in Hcursor.
  unfold graphs_end in Hbound. rewrite Hset in Hbound. done.
Qed.

(** ** The rows in the genotyping phase *)

Lemma reachable_claim_order_inv (w : Workflow) (st : RunState) :
  reachable w st → claim_order_inv st.
Proof.
  revert st. apply reachable_ind.
  - unfold claim_order_inv. rewrite run_start_trace. unfold run_start.
    by destruct (_ && _).
  - intros t st _ (Horder & Hzero). unfold claim_order_inv. revert Hzero.
    tick_cases t st; simpl; rewrite ?Hpool; try done.
    + intros Hzero. by rewrite Horder, Hzero.
    + intros Hzero. split; [|done].
      apply align_step_frame in Hstep as (_ & _ & _ & _ & Hevs).
      rewrite omap_app, Horder.
      assert (omap claimed_row evs = []) as ->; [|done].
      clear -Hevs. induction Hevs as [|e evs He _ IH]; [done|]. by destruct e.
    + intros _. split; [|done].
      destruct pc as [pending|g| |]; simpl in Hstep.
      * apply genotypeGraphs_locked_cases in Hstep as (_ & _ & _ & Hcase).
        assert (Hwr : omap claimed_row (trace (write_pending t pending st))
                      = omap claimed_row (trace st)).
        { destruct (write_pending_cases t pending st)
            as [(-> & _)|(g & output & _ & _ & _ & _ & ->)]; done. }
        destruct Hcase as [(_ & _ & -> & ->)|(_ & -> & -> & _)].
        -- by rewrite Hwr.
        -- rewrite seq_S, rev_app_distr. simpl. f_equal. etrans; [exact Hwr|exact Horder].
      * apply genotypeGraphs_unlocked_cases in Hstep as (_ & -> & _ & Hcase).
        destruct Hcase as [(_ & _ & evs & -> & [[-> _]|(path & _ & ->)])
                          |(path & output & _ & _ & _ & _ & ->)]; done.
      * by injection Hstep as <- <-.
      * by injection Hstep as <- <-.
Qed.

(** X11.  The rows of the table are handed out in ascending order, one at a
    time, each by one worker: in every state of a run the rows claimed so
    far are [0, 1, ..., c-1] in this order, [c] being where the row cursor
    stands, whatever the number of threads, and also after a failure. *)
Theorem rows_claimed_in_order (w : Workflow) (st : RunState) :
  reachable w st →
  rev (omap claimed_row (trace st)) = seq 0 (ungenotypedSamples st).
Proof.
  intros Hreach. destruct (reachable_claim_order_inv w st Hreach) as (-> & _).
  apply rev_involutive.
Qed.

Lemma geno_counts_align_trace (tr : list (@event Json)) (g : nat) :
  Forall (λ e, is_align_event e = true) tr →
  count (is_geno_claim_of g) tr = 0 ∧ count (is_geno_call_of g) tr = 0
  ∧ count (is_geno_return_of g) tr = 0 ∧ count (is_write_of g) tr = 0.
Proof.
  intros Hall. repeat split; apply count_none;
    (eapply Forall_impl; [exact Hall|]; by intros []).
Qed.

Lemma geno_row_facts_none (s : @Settings Json) (st : RunState) (ths : list geno_pc) (g : nat) :
  Forall (λ e, is_align_event e = true) (trace st) → ungenotypedSamples st = 0 →
  count (geno_calling g) ths = 0 → count (geno_pending g) ths = 0 →
  geno_row_facts s st ths g.
Proof.
  intros Hall Hc Hcall Hpend. unfold geno_row_facts.
  destruct (geno_counts_align_trace (trace st) g Hall) as (-> & -> & -> & ->).
  rewrite Hc, Hcall, Hpend. done.
Qed.

Lemma geno_row_facts_joined (s : @Settings Json) (st st' : RunState) (ths : list geno_pc) (g : nat) :
  execute_joined geno_terminal ths = true →
  trace st' = trace st → ungenotypedSamples st' = ungenotypedSamples st →
  terminate_ (workflow st') = terminate_ (workflow st) →
  geno_row_facts s st ths g → geno_row_facts s st' [] g.
Proof.
  intros Hjoined Htr Hc Ht (H1 & H2 & H3 & H4 & H5).
  unfold execute_joined in Hjoined. apply forallb_Forall in Hjoined.
  rewrite (count_none (geno_calling g) ths) in H2, H5
    by (eapply Forall_impl; [exact Hjoined|]; by intros [[]| | |]).
  rewrite (count_none (geno_pending g) ths) in H4
    by (eapply Forall_impl; [exact Hjoined|]; by intros [[]| | |]).
  unfold geno_row_facts. rewrite Htr, Hc, Ht. simpl. done.
Qed.

(** The tail of an iteration: the pending record goes to the stream. *)
Lemma geno_row_facts_write (s : @Settings Json) (st : RunState) (ths : list geno_pc) (t : nat)
    (pending : option (nat * Json)) (g : nat) :
  settings (workflow st) = s →
  geno_row_facts s st ths g →
  ths !! t = Some (GLoop pending) →
  geno_row_facts s (write_pending t pending st) (<[t := GLoop None]> ths) g.
Proof.
  intros Hs (H1 & H2 & H3 & H4 & H5) Hpc.
  pose proof (count_insert (geno_calling g) ths t _ (GLoop None) Hpc) as Hi1.
  pose proof (count_insert (geno_pending g) ths t _ (GLoop None) Hpc) as Hi2.
  simpl in Hi1, Hi2.
  destruct (write_pending_frame t pending st) as (_ & _ & _ & Ht1 & Hc1 & _).
  destruct (write_pending_cases t pending st)
    as [(Heq & Hwhy)|(g0 & output & -> & Hfile & Hw1 & Hfos1 & Htr1)].
  - rewrite Heq. unfold geno_row_facts. split; [done|]. split; [lia|]. split; [done|].
    split.
    + intros Hf. specialize (H4 Hf). destruct Hwhy as [->|Hno].
      * simpl in Hi2. lia.
      * rewrite Hs in Hno. congruence.
    + intros Ht. specialize (H5 Ht). lia.
  - unfold geno_row_facts. rewrite Htr1, Hc1, Ht1. simpl.
    split; [done|]. split; [lia|]. split; [done|]. split.
    + intros Hf. specialize (H4 Hf). destruct (g0 =? g); simpl in *; lia.
    + intros Ht. specialize (H5 Ht). lia.
Qed.

(** The claim of an iteration. *)
Lemma geno_row_facts_claim (s : @Settings Json) (st st' : RunState) (ths : list geno_pc) (t : nat)
    (pc' : geno_pc) (g : nat) :
  geno_row_facts s st ths g →
  ths !! t = Some (GLoop None) →
  workflow st' = workflow st →
  (ungenotypedSamples st = length (alignedSamples_ (workflow st))
   ∧ pc' = GReturned ∧ ungenotypedSamples st' = ungenotypedSamples st
   ∧ trace st' = trace st)
  ∨ (ungenotypedSamples st ≠ length (alignedSamples_ (workflow st))
     ∧ ungenotypedSamples st' = S (ungenotypedSamples st)
     ∧ trace st' = EvGenoClaim t (ungenotypedSamples st) :: trace st
     ∧ pc' = if terminate_ (workflow st) then GReturned
             else GCall (ungenotypedSamples st)) →
  geno_row_facts s st' (<[t := pc']> ths) g.
Proof.
  intros (H1 & H2 & H3 & H4 & H5) Hpc Hw Hcase.
  pose proof (count_insert (geno_calling g) ths t _ pc' Hpc) as Hi1.
  pose proof (count_insert (geno_pending g) ths t _ pc' Hpc) as Hi2.
  simpl in Hi1, Hi2. unfold geno_row_facts. rewrite Hw.
  destruct Hcase as [(Hend & -> & Hc & Htr)|(Hnotend & Hc & Htr & ->)].
  - rewrite Hc, Htr. simpl in Hi1, Hi2. split; [done|]. split; [lia|]. split; [done|].
    split.
    + intros Hf. specialize (H4 Hf). lia.
    + intros Ht. specialize (H5 Ht). lia.
  - rewrite Hc, Htr. simpl.
    assert (Hb : Nat.b2n (g <? S (ungenotypedSamples st))
                 = Nat.b2n (ungenotypedSamples st =? g)
                   + Nat.b2n (g <? ungenotypedSamples st)).
    { destruct (Nat.eqb_spec (ungenotypedSamples st) g),
        (Nat.ltb_spec g (S (ungenotypedSamples st))),
        (Nat.ltb_spec g (ungenotypedSamples st)); simpl; lia. }
    destruct (terminate_ (workflow st)) eqn:Hterm; simpl in Hi1, Hi2.
    + split; [destruct (_ =? g); simpl in *; lia|].
      split; [destruct (_ =? g); simpl in *; lia|]. split; [done|]. split.
      * intros Hf. specialize (H4 Hf). lia.
      * done.
    + specialize (H5 eq_refl).
      split; [destruct (_ =? g); simpl in *; lia|].
      split; [destruct (_ =? g); simpl in *; lia|]. split; [done|]. split.
      * intros Hf. specialize (H4 Hf). lia.
      * intros _. destruct (_ =? g); simpl in *; lia.
Qed.

(** The genotyper comes back, or throws. *)
Lemma geno_row_facts_call (s : @Settings Json) (st st' : RunState) (ths : list geno_pc)
    (t g0 : nat) (pc' : geno_pc) (g : nat) :
  geno_row_facts s st ths g →
  ths !! t = Some (GCall g0) →
  genotypeGraphs_unlocked t g0 st = (st', pc') →
  geno_row_facts s st' (<[t := pc']> ths) g.
Proof.
  intros (H1 & H2 & H3 & H4 & H5) Hpc Hstep.
  pose proof (count_insert (geno_calling g) ths t _ pc' Hpc) as Hi1.
  pose proof (count_insert (geno_pending g) ths t _ pc' Hpc) as Hi2.
  simpl in Hi1, Hi2.
  apply genotypeGraphs_unlocked_cases in Hstep as (_ & Hc & _ & Hcase).
  unfold geno_row_facts. rewrite Hc.
  destruct Hcase as [(-> & Ht & evs & -> & Hevs)
                    |(path & output & -> & -> & _ & _ & ->)].
  - rewrite Ht. simpl in Hi1, Hi2.
    destruct Hevs as [[-> _]|(path & _ & ->)]; simpl.
    + split; [done|]. split; [lia|]. split; [done|]. split; [|done].
      intros Hf. specialize (H4 Hf). lia.
    + split; [done|]. split; [destruct (g0 =? g); simpl in *; lia|].
      split; [lia|]. split; [|done].
      intros Hf. specialize (H4 Hf). lia.
  - simpl in Hi1, Hi2 |- *.
    split; [done|]. split; [destruct (g0 =? g); simpl in *; lia|].
    split; [destruct (g0 =? g); simpl in *; lia|]. split.
    + intros Hf. specialize (H4 Hf). destruct (g0 =? g); simpl in *; lia.
    + intros Ht. specialize (H5 Ht). destruct (g0 =? g); simpl in *; lia.
Qed.

Lemma geno_row_facts_pool (s : @Settings Json) (st : RunState) (p : pool_state)
    (ths : list geno_pc) (g : nat) :
  geno_row_facts s st ths g → geno_row_facts s (set_pool st p) ths g.
Proof. by destruct st. Qed.

Lemma reachable_geno_rows_inv (s : Settings) (w : Workflow) (st : RunState) :
  Workflow_new s = Some w → reachable w st → geno_rows_inv s st.
Proof.
  intros Hnew. revert st. apply reachable_ind.
  - unfold geno_rows_inv.
    assert (∀ g, geno_row_facts s (run_start w) [] g) as Hfacts.
    { intros g. apply geno_row_facts_none; try done.
      - by rewrite run_start_trace.
      - unfold run_start. by destruct (_ && _). }
    unfold run_start in *. destruct (_ && _); simpl; done.
  - intros t st Hreach (Hfacts & Hfin).
    destruct (reachable_shape s w st Hnew Hreach) as (Hset & _ & _).
    pose proof (reachable_geno_inv s w st Hnew Hreach) as Hgeno.
    destruct (reachable_claim_order_inv w st Hreach) as (_ & Hzero).
    unfold geno_rows_inv, geno_inv in *. revert Hfacts Hfin Hgeno Hzero.
    tick_cases t st; simpl; rewrite ?Hpool; simpl; try done.
    + (* on to genotyping *)
      intros _ _ (_ & _ & Hall) Hzero. split; [|done]. intros g.
      apply geno_row_facts_none; try done; by rewrite count_replicate.
    + (* a worker of the alignment pool moves *)
      intros _ _ (_ & _ & Hall) Hzero. split; [|done]. intros g.
      apply align_step_frame in Hstep as (_ & _ & _ & _ & Hevs).
      apply geno_row_facts_none; try done. simpl. by apply Forall_app.
    + (* the genotyping pool is joined and has failed *)
      intros Hfacts _ _ _. split; [|done]. intros g.
      by apply (geno_row_facts_joined s st _ ths).
    + (* the genotyping pool is joined *)
      intros Hfacts _ (Hths & Hfos & Hfirst & Hrec & Hok & Hthrow & Hnofile & Hbusy) _.
      unfold execute_failed in Hfailed. rewrite existsb_count in Hfailed.
      apply negb_false_iff, Nat.eqb_eq in Hfailed.
      assert (Hterm : terminate_ (workflow st) = false).
      { destruct (terminate_ (workflow st)); [|done]. assert (0 < 0); [|lia].
        rewrite <- Hfailed at 2. apply Hthrow. by left. }
      split; [|split; [done|]].
      * intros g. by apply (geno_row_facts_joined s st _ ths).
      * intros HN. pose proof Hjoined as Hj. unfold execute_joined in Hj.
        apply forallb_Forall in Hj.
        destruct ths as [|pc0 ths]; [simpl in Hths; lia|].
        apply Forall_cons in Hok as [Hok0 _]. apply Forall_cons in Hj as [Hterm0 _].
        simpl in Hfailed. destruct pc0; try done. simpl in Hok0. by apply Hok0.
    + (* a worker of the genotyping pool moves *)
      intros Hfacts _ _ _. split; [|done]. intros g. specialize (Hfacts g).
      destruct pc as [pending|g0| |]; simpl in Hstep.
      * pose proof (geno_row_facts_write s st ths t pending g Hset Hfacts Hpc) as Hfacts1.
        apply genotypeGraphs_locked_cases in Hstep as (Hw & _ & _ & Hcase).
        destruct (write_pending_frame t pending st) as (_ & _ & Ha1 & Ht1 & Hc1 & _).
        rewrite <- (list_insert_insert_eq ths t pc' (GLoop None)).
        apply geno_row_facts_pool.
        apply (geno_row_facts_claim s (write_pending t pending st)); try done.
        -- apply list_lookup_insert_eq. by eapply lookup_lt_Some.
        -- by rewrite Hc1, Ha1, Ht1.
      * apply geno_row_facts_pool.
        by apply (geno_row_facts_call s st _ ths t g0).
      * injection Hstep as <- <-. simpl. by rewrite list_insert_id.
      * injection Hstep as <- <-. simpl. by rewrite list_insert_id.
Qed.

(** X12.  The genotyping counterpart of exactly-once: in no run is a row
    handed out twice or the genotyper called twice for a row, and it is only
    ever called for a row of the table; and when [run] has returned, with at
    least one worker thread, every row of the table was handed out once,
    the genotyper was called for it once and returned once, and with an
    output file path its record was written once, whatever the schedule. *)
Theorem genotyping_exactly_once (s : Settings) (w : Workflow) (st : RunState) :
  Workflow_new s = Some w → reachable w st →
  (∀ g, count (is_geno_claim_of g) (trace st) ≤ 1
        ∧ count (is_geno_call_of g) (trace st) ≤ count (is_geno_claim_of g) (trace st)
        ∧ count (is_geno_return_of g) (trace st) ≤ count (is_geno_call_of g) (trace st)
        ∧ (0 < count (is_geno_claim_of g) (trace st) → g < table_rows s))
  ∧ (1 ≤ threads (parameters_ s) → pool st = Finished →
     ∀ g, count (is_geno_claim_of g) (trace st) = Nat.b2n (g <? table_rows s)
          ∧ count (is_geno_call_of g) (trace st) = Nat.b2n (g <? table_rows s)
          ∧ count (is_geno_return_of g) (trace st) = Nat.b2n (g <? table_rows s)
          ∧ (has_outputFile s = true →
             count (is_write_of g) (trace st) = Nat.b2n (g <? table_rows s))).
Proof.
  intros Hnew Hreach.
  destruct (reachable_geno_rows_inv s w st Hnew Hreach) as (Hfacts & Hfin).
  destruct (reachable_calls_inv s w st Hnew Hreach) as (Hcursor & _).
  rewrite (reachable_rows s w st Hnew Hreach) in Hcursor.
  split.
  - intros g. destruct (Hfacts g) as (H1 & H2 & H3 & _).
    assert (Hb : Nat.b2n (g <? ungenotypedSamples st) ≤ 1) by (destruct (_ <? _); simpl; lia).
    split; [lia|]. split; [lia|]. split; [done|].
    rewrite H1. destruct (Nat.ltb_spec g (ungenotypedSamples st)); simpl; lia.
  - intros HN Hfinished g. rewrite Hfinished in Hfin, Hfacts. simpl in Hfacts.
    destruct Hfin as (Hterm & Hend). specialize (Hend HN).
    rewrite (reachable_rows s w st Hnew Hreach) in Hend.
    destruct (Hfacts g) as (H1 & H2 & H3 & H4 & H5). specialize (H5 Hterm).
    simpl in *. rewrite Hend in H1. split; [done|]. split; [lia|]. split; [lia|].
    intros Hf. specialize (H4 Hf). lia.
Qed.

(** X13.  A run that failed leaves the combined stream without its closing
    frame, and no output of the genotyper is lost on the way: when the
    output file could be opened and [run] has failed, the stream is the
    opening frame and the records written so far, and with an output file
    path the record of every genotyper call that returned was written, once,
    be it after the failure of another call. *)
Theorem failed_run_stream (s : Settings) (w : Workflow) (st : RunState) :
  Workflow_new s = Some w → reachable w st →
  pool st = Failed → sink_opens s = true →
  fos st = frame_open s +:+ join "," (records (trace st))
  ∧ (has_outputFile s = true →
     ∀ g, count (is_write_of g) (trace st) = count (is_geno_return_of g) (trace st)
          ∧ count (is_write_of g) (trace st) ≤ 1).
Proof.
  intros Hnew Hreach Hfailed Hsink.
  pose proof (reachable_stream_inv s w st Hnew Hreach) as Hstream.
  destruct (reachable_geno_rows_inv s w st Hnew Hreach) as (Hfacts & _).
  unfold stream_inv in Hstream. rewrite Hfailed in Hstream, Hfacts.
  split; [by apply Hstream|].
  intros Hf g. destruct (Hfacts g) as (H1 & H2 & H3 & H4 & _). specialize (H4 Hf).
  simpl in *. assert (Nat.b2n (g <? ungenotypedSamples st) ≤ 1) by (destruct (_ <? _); simpl; lia).
  lia.
Qed.

(** ** What the table holds *)

Lemma reachable_table_inv (s : Settings) (w : Workflow) (st : RunState) :
  Workflow_new s = Some w → reachable w st → table_inv s st.
Proof.
  intros Hnew. pose proof Hnew as (Hs & Hu & Ha & _)%Workflow_new_Some.
  revert st. apply reachable_ind.
  - unfold table_inv. rewrite run_start_workflow, run_start_trace. intros _.
    split; [|done]. intros g i sample Hi Hg. simpl. unfold slot_at. rewrite Ha.
    unfold table_rows in Hg. rewrite lookup_replicate_2 by done. simpl. done.
  - intros t st Hreach IH.
    destruct (reachable_shape s w st Hnew Hreach) as (Hset & Hlen & Hshape).
    pose proof (reachable_align_inv s w st Hnew Hreach) as Halign.
    destruct (reachable_calls_inv s w st Hnew Hreach) as (_ & _ & _ & Hths).
    unfold table_inv, align_inv in *. revert IH Halign Hths.
    tick_cases t st; simpl; rewrite ?Hpool; try done.
    + (* a worker of the alignment pool moves *)
      intros IH (_ & _ & _ & Hfacts) Hths Hzero.
      rewrite count_app in Hzero.
      assert (Hz : count is_align_failure (trace st) = 0) by lia.
      assert (Hz' : count is_align_failure evs = 0) by lia.
      destruct (IH Hz) as (Hslots & Hcalls).
      destruct (Hfacts Hz) as (_ & _ & _ & Hcounts).
      pose proof (Forall_lookup_1 _ _ _ _ Hths Hpc) as Hin.
      destruct pc as [i0 rd|i0 g0| |]; simpl in Hstep.
      * pose proof (alignSamples_locked_frame _ _ _ _ _ _ _ Hstep) as (_ & Ha' & _).
        pose proof (alignSamples_locked_events _ _ _ _ _ _ _ Hstep) as (Hall & _).
        split.
        -- intros g i sample Hi Hg. unfold slot_at. rewrite Ha', count_app.
           rewrite (count_none _ evs); [by apply Hslots|].
           eapply Forall_impl; [exact Hall|]. by intros e [(j & g' & ->)|(j & ->)].
        -- apply Forall_app. split; [|done]. eapply Forall_impl; [exact Hall|].
           intros e [(j & g' & ->)|(j & ->)]; by intros ? ? ? ? ? [=].
      * destruct (Hin i0 g0 eq_refl) as (Hi0 & Hg0).
        destruct (slot_in_bounds s (workflow st) g0 i0) as (row & slot & Hrow & Hslot);
          [by rewrite Hshape|by apply table_rows_graphs|done|].
        destruct (lookup_lt_is_Some_2 (manifest_ s) i0 Hi0) as [sample0 Hsample0].
        destruct (lookup_lt_is_Some_2 (graphSpecPaths_ s) g0 Hg0) as [path0 Hpath0].
        destruct (Hcounts i0 g0) as (Hclaim & Hflight & _).
        pose proof (count_lookup_le (align_in_flight i0 g0) ths t _ Hpc) as Hfl.
        simpl in Hfl. rewrite !Nat.eqb_refl in Hfl. simpl in Hfl.
        assert (Hret0 : count (is_align_return i0 g0) (trace st) = 0).
        { destruct (claimed s (workflow st) i0 g0); simpl in Hclaim; lia. }
        pose proof (Hslots g0 i0 sample0 Hsample0 (table_rows_graphs s g0 Hg0)) as Hold.
        rewrite Hret0 in Hold. simpl in Hold.
        assert (slot = sample0) as ->.
        { unfold slot_at in Hold. rewrite Hrow in Hold. simpl in Hold. congruence. }
        pose proof (alignSamples_unlocked_slot _ _ _ _ _ _ _ _ _ Hrow Hslot Hstep)
          as (Hnew' & Hevs).
        apply alignSamples_unlocked_cases in Hstep as (_ & _ & _ & _ & Hother & _).
        rewrite Hset, Hpath0 in Hnew', Hevs. simpl in Hnew', Hevs.
        destruct Hevs as [-> | ->]; [|simpl in Hz'; done].
        split.
        -- intros g i sample Hi Hg. destruct (decide ((g, i) = (g0, i0))) as [[= -> ->]|Hne].
           ++ simpl. rewrite !Nat.eqb_refl. simpl. rewrite Hnew', Hpath0. simpl. congruence.
           ++ rewrite Hother by done. simpl.
              assert ((i0 =? i) && (g0 =? g) = false) as ->.
              { destruct (Nat.eqb_spec i0 i), (Nat.eqb_spec g0 g); try done. congruence. }
              simpl. by apply Hslots.
        -- simpl. constructor; [by intros ? ? ? ? ? [=]|]. constructor; [|done].
           intros t' i' g' path' slot' [= -> -> -> -> ->]. done.
      * injection Hstep as <- <- <-. simpl in *. by apply IH.
      * injection Hstep as <- <- <-. simpl in *. by apply IH.
    + (* a worker of the genotyping pool moves *)
      intros IH _ _ Hzero.
      apply geno_step_frame in Hstep as (_ & _ & Ha' & evs & Htr & Hevs).
      destruct st' as [w1 f1 c1 o1 p1 tr1]. simpl in *. subst tr1.
      rewrite count_geno_align in Hzero; [|by intros []|done].
      destruct (IH Hzero) as (Hslots & Hcalls). split.
      * intros g i sample Hi Hg. unfold slot_at. rewrite Ha'.
        rewrite count_geno_align; [by apply Hslots|by intros []|done].
      * apply Forall_app. split; [|done]. eapply Forall_impl; [exact Hevs|].
        intros [] He; try done; by intros ? ? ? ? ? [=].
Qed.

Lemma expected_table_lookup (s : @Settings Json) (g : nat) :
  g < table_rows s → expected_table s !! g = Some (expected_row s g).
Proof.
  intros Hg. unfold expected_table. rewrite list_lookup_fmap, lookup_seq_lt by done. done.
Qed.

(** The table once the alignment phase went through. *)
Lemma table_after_alignment (s : Settings) (w : Workflow) (st : RunState) :
  Workflow_new s = Some w → reachable w st →
  1 ≤ threads (parameters_ s) → alignment_over st →
  alignedSamples_ (workflow st) = expected_table s.
Proof.
  intros Hnew Hreach HN Hover.
  destruct (reachable_shape s w st Hnew Hreach) as (_ & _ & Hshape).
  pose proof (reachable_rows s w st Hnew Hreach) as Hrows.
  destruct (alignment_over_settled s w st Hnew Hreach Hover) as (Hzero & Hsettled).
  destruct (reachable_table_inv s w st Hnew Hreach Hzero) as (Hslots & _).
  apply (list_eq_same_length _ _ (table_rows s)); [|done|].
  { unfold expected_table. by rewrite length_fmap, length_seq. }
  intros g row row' Hg Hrow Hrow'. rewrite expected_table_lookup in Hrow' by done.
  injection Hrow' as <-.
  assert (length row = length (manifest_ s)) as Hlen.
  { assert ((length <$> alignedSamples_ (workflow st)) !! g = Some (length row)) as Hl
      by (by rewrite list_lookup_fmap, Hrow).
    rewrite Hshape in Hl. apply lookup_replicate in Hl as [? _]. done. }
  apply (list_eq_same_length _ _ (length (manifest_ s))); [|done|].
  { unfold expected_row. by rewrite length_fmap. }
  intros i slot slot' Hi Hslot Hslot'. unfold expected_row in Hslot'.
  rewrite list_lookup_fmap in Hslot'.
  destruct (manifest_ s !! i) as [sample|] eqn:Hsample; [|done].
  injection Hslot' as <-.
  pose proof (Hslots g i sample Hsample Hg) as Hold.
  unfold slot_at in Hold. rewrite Hrow in Hold. simpl in Hold. rewrite Hslot in Hold.
  injection Hold as ->.
  destruct (Hsettled i g) as (_ & -> & Hclaim). rewrite (Hclaim HN).
  unfold needs_alignment, aligned_sample. rewrite Hsample.
  by destruct (isNull _ && _).
Qed.

(** X14.  What the alignment phase leaves behind and what it hands to the
    aligner: as long as no worker failed, the aligner was only ever called
    with a graph spec of the list and with the sample as the manifest has
    it, never with a slot that was rewritten before; and once the phase is
    over, with at least one worker thread, the table holds, in every row and
    for every sample of the manifest, the aligner's rewriting of the sample
    for the graph of the row if the sample came without alignment data, and
    the sample as it is otherwise, whatever the schedule. *)
Theorem table_after_alignment_is_expected (s : Settings) (w : Workflow) (st : RunState) :
  Workflow_new s = Some w → reachable w st →
  (count is_align_failure (trace st) = 0 →
   ∀ t i g path slot, EvAlignCall t i g path slot ∈ trace st →
     graphSpecPaths_ s !! g = Some path ∧ manifest_ s !! i = Some slot)
  ∧ (1 ≤ threads (parameters_ s) → alignment_over st →
     alignedSamples_ (workflow st) = expected_table s).
Proof.
  intros Hnew Hreach. split.
  - intros Hzero t i g path slot Hin.
    destruct (reachable_table_inv s w st Hnew Hreach Hzero) as (_ & Hcalls).
    rewrite Forall_forall in Hcalls. apply (Hcalls _ Hin t i g path slot eq_refl).
  - intros HN Hover. by apply (table_after_alignment s w).
Qed.

(** ** What the genotyper is given *)

Lemma geno_call_ok_ext (s : @Settings Json) (w w' : Workflow) (e : event) :
  alignedSamples_ w' = alignedSamples_ w → geno_call_ok s w e → geno_call_ok s w' e.
Proof. unfold geno_call_ok. intros ->. done. Qed.

Lemma reachable_geno_calls_inv (s : Settings) (w : Workflow) (st : RunState) :
  Workflow_new s = Some w → reachable w st → geno_calls_inv s st.
Proof.
  intros Hnew. revert st. apply reachable_ind.
  - unfold geno_calls_inv. rewrite run_start_trace. simpl. split; [done|lia].
  - intros t st Hreach (Hcalls & Hworker).
    destruct (reachable_shape s w st Hnew Hreach) as (Hset & _ & _).
    pose proof (reachable_rows s w st Hnew Hreach) as Hrows.
    pose proof (reachable_geno_inv s w st Hnew Hreach) as Hgeno.
    destruct (reachable_calls_inv s w st Hnew Hreach) as (Hcursor & _ & _ & Hths).
    unfold geno_calls_inv, geno_inv in *. revert Hgeno Hths.
    tick_cases t st; simpl; rewrite ?Hpool; try done.
    + (* a worker of the alignment pool moves *)
      intros (_ & _ & Hall) _.
      apply align_step_frame in Hstep as (_ & _ & _ & _ & Hevs).
      assert (Hall' : Forall (λ e, is_align_event e = true) (evs ++ trace st))
        by (by apply Forall_app).
      split.
      * eapply Forall_impl; [exact Hall'|]. intros [] He; try done; by intros ? ? ? ? [=].
      * rewrite (count_none is_geno_event); [lia|].
        eapply Forall_impl; [exact Hall'|]. by intros [].
    + (* a worker of the genotyping pool moves *)
      intros (Hlen & _) Hths. pose proof (Forall_lookup_1 _ _ _ _ Hths Hpc) as Hin.
      assert (HN : 1 ≤ threads (parameters_ s)).
      { rewrite <- Hlen. apply lookup_lt_Some in Hpc. lia. }
      split; [|done].
      pose proof (geno_step_frame _ _ _ _ _ Hstep) as (_ & _ & Ha' & _).
      assert (Hold : Forall (geno_call_ok s (workflow st')) (trace st)).
      { eapply Forall_impl; [exact Hcalls|]. intros e. by apply geno_call_ok_ext. }
      destruct pc as [pending|g| |]; simpl in Hstep.
      * apply genotypeGraphs_locked_cases in Hstep as (_ & _ & _ & Hcase).
        assert (Hwr : Forall (geno_call_ok s (workflow st'))
                        (trace (write_pending t pending st))).
        { destruct (write_pending_cases t pending st)
            as [(-> & _)|(g & output & _ & _ & _ & _ & ->)]; [done|].
          constructor; [by intros ? ? ? ? [=]|done]. }
        destruct Hcase as [(_ & _ & _ & ->)|(_ & _ & -> & _)]; [done|].
        constructor; [by intros ? ? ? ? [=]|done].
      * specialize (Hin g eq_refl).
        assert (Hg : g < table_rows s) by lia.
        destruct (lookup_lt_is_Some_2 (alignedSamples_ (workflow st)) g) as [row Hrow];
          [lia|].
        assert (Hcall : ∀ path, graphSpecPath_of s g = Some path →
                  geno_call_ok s (workflow st')
                    (EvGenoCall t g path (default [] (alignedSamples_ (workflow st) !! g)))).
        { intros path Hpath t' g' path' samples' [= -> -> -> <-].
          rewrite Ha', Hrow. done. }
        apply genotypeGraphs_unlocked_cases in Hstep as (_ & _ & _ & Hcase).
        rewrite Hset in Hcase.
        destruct Hcase as [(_ & _ & evs & -> & [[-> _]|(path & Hpath & ->)])
                          |(path & output & _ & _ & Hpath & _ & ->)]; simpl.
        -- constructor; [by intros ? ? ? ? [=]|done].
        -- constructor; [by intros ? ? ? ? [=]|]. constructor; [by apply Hcall|done].
        -- constructor; [by intros ? ? ? ? [=]|]. constructor; [by apply Hcall|done].
      * injection Hstep as <- <-. done.
      * injection Hstep as <- <-. done.
Qed.

Lemma geno_event_alignment_over (s : Settings) (w : Workflow) (st : RunState) :
  Workflow_new s = Some w → reachable w st →
  0 < count is_geno_event (trace st) → alignment_over st.
Proof.
  intros Hnew Hreach Hpos. pose proof (reachable_align_inv s w st Hnew Hreach) as Halign.
  unfold align_inv, alignment_over in *. destruct (pool st); try done.
  destruct Halign as (_ & Hall & _).
  rewrite (count_none is_geno_event) in Hpos; [lia|].
  eapply Forall_impl; [exact Hall|]. by intros [].
Qed.

(** X15.  The genotyper works on the finished table: whenever it was called
    in a run, it was called for a row of the table, with the graph spec of
    that row (the empty path when there are no graph specs) and with the
    samples of the manifest as the alignment phase left them for that graph,
    each aligned against it unless it came with alignment data; no row goes
    to the genotyper half aligned. *)
Theorem genotyper_input (s : Settings) (w : Workflow) (st : RunState)
    (t g : nat) (path : string) (samples : Samples) :
  Workflow_new s = Some w → reachable w st →
  EvGenoCall t g path samples ∈ trace st →
  g < table_rows s ∧ graphSpecPath_of s g = Some path ∧ samples = expected_row s g.
Proof.
  intros Hnew Hreach Hin.
  destruct (reachable_geno_calls_inv s w st Hnew Hreach) as (Hcalls & Hworker).
  rewrite Forall_forall in Hcalls.
  destruct (Hcalls _ Hin t g path samples eq_refl) as (Hg & Hpath & Hrow).
  assert (Hpos : 0 < count is_geno_event (trace st)).
  { apply list_elem_of_lookup in Hin as [k Hk].
    pose proof (count_lookup_le is_geno_event _ _ _ Hk) as Hle. simpl in Hle. lia. }
  rewrite (table_after_alignment s w st Hnew Hreach (Hworker Hpos)) in Hrow
    by by eapply geno_event_alignment_over.
  rewrite expected_table_lookup in Hrow by done. injection Hrow as <-. done.
Qed.

(** ** What is written: the combined stream and the files *)

Lemma count_rev {A : Type} (p : A → bool) (l : list A) :
  count p (rev l) = count p l.
Proof.
  induction l as [|x l IH]; simpl; [done|]. rewrite count_app, IH. simpl. lia.
Qed.

Lemma count_fmap {A B : Type} (p : B → bool) (f : A → B) (l : list A) :
  count p (f <$> l) = count (λ x, p (f x)) l.
Proof. induction l as [|x l IH]; simpl; [done|]. by rewrite <- IH. Qed.

Lemma count_written (g : nat) (tr : list (@event Json)) :
  count (λ x, x =? g) (fst <$> written tr) = count (is_write_of g) tr.
Proof.
  unfold written. rewrite count_fmap, count_rev.
  induction tr as [|e tr IH]; simpl; [done|].
  destruct e; simpl; by rewrite ?IH.
Qed.

Lemma count_returned (g : nat) (tr : list (@event Json)) :
  count (λ x, x =? g) (omap returned_row tr) = count (is_geno_return_of g) tr.
Proof.
  induction tr as [|e tr IH]; simpl; [done|].
  destruct e; simpl; by rewrite <- ?IH.
Qed.

Lemma elem_of_count (l : list nat) (x : nat) :
  x ∈ l ↔ 0 < count (λ y, y =? x) l.
Proof.
  induction l as [|y l IH]; simpl.
  - split; [by intros ?%elem_of_nil|lia].
  - rewrite elem_of_cons, IH. destruct (Nat.eqb_spec y x) as [->|Hne]; simpl.
    + split; [lia|auto].
    + split; [intros [->|]; [done|lia]|auto].
Qed.

Lemma NoDup_count (l : list nat) :
  (∀ x, count (λ y, y =? x) l ≤ 1) → NoDup l.
Proof.
  induction l as [|y l IH]; intros Hle; [constructor|].
  constructor.
  - intros Hin%elem_of_count. specialize (Hle y). simpl in Hle.
    rewrite Nat.eqb_refl in Hle. lia.
  - apply IH. intros x. specialize (Hle x). simpl in Hle. lia.
Qed.

(** A list of numbers in which each number below [n] occurs once, and no
    other number occurs, is [0 .. n-1] in some order. *)
Lemma perm_seq_of_counts (l : list nat) (n : nat) :
  (∀ g, count (λ y, y =? g) l = Nat.b2n (g <? n)) → l ≡ₚ seq 0 n.
Proof.
  intros Hcount. apply NoDup_Permutation.
  - apply NoDup_count. intros x. rewrite Hcount. destruct (_ <? _); simpl; lia.
  - apply NoDup_seq.
  - intros x. rewrite elem_of_count, Hcount, elem_of_seq.
    destruct (Nat.ltb_spec x n); simpl; lia.
Qed.

(** The genotyper's output on a row of the finished table. *)
Lemma genotype_of_expected (s : Settings) (w : Workflow) (st : RunState) (g : nat) :
  Workflow_new s = Some w → reachable w st →
  1 ≤ threads (parameters_ s) → alignment_over st → g < table_rows s →
  genotype_of (workflow st) g = expected_output s g.
Proof.
  intros Hnew Hreach HN Hover Hg.
  destruct (reachable_shape s w st Hnew Hreach) as (Hset & _ & _).
  unfold genotype_of, expected_output.
  rewrite (table_after_alignment s w st Hnew Hreach HN Hover), Hset.
  by rewrite expected_table_lookup.
Qed.

(** X16.  What the combined stream holds after a run, whatever the number of
    threads and the schedule: when [run] has returned, with at least one
    worker thread and an output file path, the records of the stream are
    those of the rows of the table, each row once, in some order, and the
    record of a row is the genotyper's output for the graph spec of the row
    and the samples as the alignment phase left them. *)
Theorem combined_stream_content (s : Settings) (w : Workflow) (st : RunState) :
  Workflow_new s = Some w → reachable w st →
  1 ≤ threads (parameters_ s) → pool st = Finished → has_outputFile s = true →
  fst <$> written (trace st) ≡ₚ seq 0 (table_rows s)
  ∧ Forall (λ r, expected_output s r.1 = Some r.2) (written (trace st)).
Proof.
  intros Hnew Hreach HN Hfinished Hfile.
  destruct (reachable_geno_rows_inv s w st Hnew Hreach) as (Hfacts & Hfin).
  pose proof (reachable_geno_inv s w st Hnew Hreach) as Hgeno.
  pose proof (reachable_rows s w st Hnew Hreach) as Hrows.
  assert (Hover : alignment_over st) by (unfold alignment_over; by rewrite Hfinished).
  unfold geno_inv in Hgeno. rewrite Hfinished in Hfin, Hfacts, Hgeno. simpl in Hfacts.
  destruct Hfin as (Hterm & Hend). specialize (Hend HN).
  destruct Hgeno as (_ & Hrec & _).
  assert (Hcount : ∀ g, count (is_write_of g) (trace st) = Nat.b2n (g <? table_rows s)).
  { intros g. destruct (Hfacts g) as (H1 & _ & _ & H4 & H5).
    specialize (H4 Hfile). specialize (H5 Hterm). simpl in *.
    rewrite <- Hrows, <- Hend. lia. }
  split.
  - apply perm_seq_of_counts. intros g. by rewrite count_written.
  - rewrite Forall_forall in Hrec. apply Forall_forall. intros [g output] Hin.
    specialize (Hrec _ Hin). unfold record_ok in Hrec. simpl in *.
    rewrite <- Hrec. symmetry. apply (genotype_of_expected s w); try done.
    assert (g ∈ fst <$> written (trace st)) as Hg
      by (apply list_elem_of_fmap; by exists (g, output)).
    apply elem_of_count in Hg. rewrite count_written, Hcount in Hg.
    destruct (Nat.ltb_spec g (table_rows s)); simpl in Hg; lia.
Qed.

Lemma genotype_file_ext (w w' : Workflow) (g : nat) :
  settings w' = settings w → alignedSamples_ w' = alignedSamples_ w →
  genotype_file w' g = genotype_file w g.
Proof.
  intros Hs Ha. unfold genotype_file. by rewrite (genotype_of_ext _ _ _ Hs Ha), Hs.
Qed.

(** The files after the block of [genotypeGraphs]. *)
Lemma genotypeGraphs_unlocked_files (t g : nat) (st st' : RunState) (pc' : geno_pc) :
  genotypeGraphs_unlocked t g st = (st', pc') →
  (pc' = GThrown ∧ outputFiles st' = outputFiles st)
  ∨ (pc' ≠ GThrown
     ∧ if String.eqb (outputFolderPath_ (settings (workflow st))) EmptyString
       then outputFiles st' = outputFiles st
       else ∃ file, genotype_file (workflow st) g = Some file
                    ∧ outputFiles st' = file :: outputFiles st).
Proof.
  unfold genotypeGraphs_unlocked, geno_thrown, genotype_file, genotype_of.
  destruct (graphSpecPath_of _ _) as [path|] eqn:Hpath.
  2:{ intros [= <- <-]. by left. }
  destruct (countAndGenotype _ _ _ _) as [output|] eqn:Hout.
  2:{ intros [= <- <-]. by left. }
  destruct (String.eqb _ EmptyString); simpl.
  - intros [= <- <-]. by right.
  - destruct (canOpen _); intros [= <- <-]; [|by left].
    right. split; [done|]. eauto.
Qed.

Lemma returned_row_align_trace (tr : list (@event Json)) :
  Forall (λ e, is_align_event e = true) tr → omap returned_row tr = [].
Proof.
  induction 1 as [|e tr He _ IH]; [done|]. destruct e; try done; simpl; by rewrite IH.
Qed.

Lemma files_inv_align_trace (s : @Settings Json) (w : @Workflow Json)
    (tr : list (@event Json)) :
  Forall (λ e, is_align_event e = true) tr →
  if String.eqb (outputFolderPath_ s) EmptyString then @nil (string * string) = []
  else Some <$> @nil (string * string) = genotype_file w <$> omap returned_row tr.
Proof.
  intros Hall. destruct (String.eqb _ _); [done|].
  by rewrite (returned_row_align_trace tr Hall).
Qed.

Lemma reachable_files_inv (s : Settings) (w : Workflow) (st : RunState) :
  Workflow_new s = Some w → reachable w st → files_inv s st.
Proof.
  intros Hnew. revert st. apply reachable_ind.
  - unfold files_inv. rewrite run_start_trace.
    assert (outputFiles (run_start w) = []) as ->
      by (unfold run_start; by destruct (_ && _)).
    split; [by destruct (String.eqb _ _)|]. by destruct (pool _).
  - intros t st Hreach (Hfiles & Hnone).
    destruct (reachable_shape s w st Hnew Hreach) as (Hset & _ & _).
    pose proof (reachable_geno_inv s w st Hnew Hreach) as Hgeno.
    unfold files_inv, geno_inv in *. revert Hfiles Hnone Hgeno.
    tick_cases t st; simpl; rewrite ?Hpool; try done.
    + (* a worker of the alignment pool moves *)
      intros _ -> (_ & _ & Hall). split; [|done].
      apply align_step_frame in Hstep as (_ & _ & _ & _ & Hevs).
      apply files_inv_align_trace. by apply Forall_app.
    + (* a worker of the genotyping pool moves *)
      intros Hfiles _ _. split; [|done].
      pose proof (geno_step_frame _ _ _ _ _ Hstep) as (Hs' & _ & Ha' & _).
      destruct pc as [pending|g| |]; simpl in Hstep.
      * apply genotypeGraphs_locked_cases in Hstep as (_ & _ & -> & Hcase).
        assert (Hwr : omap returned_row (trace (write_pending t pending st))
                      = omap returned_row (trace st)).
        { destruct (write_pending_cases t pending st)
            as [(-> & _)|(g & output & _ & _ & _ & _ & ->)]; done. }
        assert (Htr : omap returned_row (trace st') = omap returned_row (trace st)).
        { destruct Hcase as [(_ & _ & _ & ->)|(_ & _ & -> & _)]; done. }
        destruct (String.eqb _ _); [done|]. rewrite Htr, Hfiles.
        apply list_fmap_ext. intros _ g _. symmetry. by apply genotype_file_ext.
      * pose proof (genotypeGraphs_unlocked_files _ _ _ _ _ Hstep) as Hf.
        apply genotypeGraphs_unlocked_cases in Hstep as (_ & _ & _ & Hcase).
        rewrite Hset in Hf.
        destruct Hcase as [(-> & _ & evs & -> & Hevs)
                          |(path & output & -> & Hw & _ & _ & ->)].
        -- destruct Hf as [(_ & ->)|(Hne & _)]; [|done].
           assert (Htr : omap returned_row (EvGenoThrow t g :: evs ++ trace st)
                         = omap returned_row (trace st))
             by (by destruct Hevs as [[-> _]|(path & _ & ->)]).
           destruct (String.eqb _ _); [done|]. rewrite Htr, Hfiles.
           apply list_fmap_ext. intros _ g' _. symmetry. by apply genotype_file_ext.
        -- destruct Hf as [(Heq & _)|(_ & Hf)]; [done|]. rewrite Hw.
           destruct (String.eqb _ _); [congruence|].
           destruct Hf as (file & Hfile & ->). simpl. f_equal; [by rewrite Hfile|exact Hfiles].
      * injection Hstep as <- <-. done.
      * injection Hstep as <- <-. done.
Qed.

(** X17.  The per-graph files of [makeOutputFile]: without an output folder
    no run writes one; with an output folder, when [run] has returned, with
    at least one worker thread, one file was written for every row of the
    table, and no other: at the path made of the folder and the file name
    of the graph spec of the row, with [.gz] appended under [gzipOutput_],
    holding the genotyper's output for the row, the same that goes to the
    combined stream. *)
Theorem output_files_written (s : Settings) (w : Workflow) (st : RunState) :
  Workflow_new s = Some w → reachable w st →
  (outputFolderPath_ s = EmptyString → outputFiles st = [])
  ∧ (outputFolderPath_ s ≠ EmptyString →
     1 ≤ threads (parameters_ s) → pool st = Finished →
     Some <$> outputFiles st ≡ₚ expected_file s <$> seq 0 (table_rows s)).
Proof.
  intros Hnew Hreach.
  destruct (reachable_files_inv s w st Hnew Hreach) as (Hfiles & _).
  destruct (String.eqb_spec (outputFolderPath_ s) EmptyString) as [Hempty|Hfolder].
  { split; [done|by intros ?]. }
  split; [done|]. intros _ HN Hfinished.
  destruct (reachable_shape s w st Hnew Hreach) as (Hset & _ & _).
  destruct (reachable_geno_rows_inv s w st Hnew Hreach) as (Hfacts & Hfin).
  pose proof (reachable_rows s w st Hnew Hreach) as Hrows.
  assert (Hover : alignment_over st) by (unfold alignment_over; by rewrite Hfinished).
  rewrite Hfinished in Hfin, Hfacts. simpl in Hfacts.
  destruct Hfin as (Hterm & Hend). specialize (Hend HN).
  assert (Hperm : omap returned_row (trace st) ≡ₚ seq 0 (table_rows s)).
  { apply perm_seq_of_counts. intros g. rewrite count_returned.
    destruct (Hfacts g) as (H1 & _ & _ & _ & H5). specialize (H5 Hterm). simpl in *.
    rewrite <- Hrows, <- Hend. lia. }
  rewrite Hfiles, Hperm.
  assert (genotype_file (workflow st) <$> seq 0 (table_rows s)
          = expected_file s <$> seq 0 (table_rows s)) as ->; [|done].
  apply list_fmap_ext. intros i g Hl. apply lookup_seq in Hl as [-> Hi]. simpl.
  unfold genotype_file, expected_file.
  by rewrite (genotype_of_expected s w st i Hnew Hreach HN Hover), Hset.
Qed.

End Properties.

(** * The properties on the concrete runs *)

Module Witness.

Import Example.

#[local] Existing Instance working.


Lemma genotyping_after_alignment_witness :
  Workflow_new settings32 = Some workflow32
  ∧ reachable workflow32 finished32
  ∧ trace finished32 = later32 ++ EvGenoCall 0 1 "g1" row32 :: earlier32
  ∧ is_geno_event (EvGenoCall 0 1 "g1" row32) = true
  ∧ Forall (λ e, is_align_event e = false) later32
  ∧ count is_align_failure earlier32 = 0
  ∧ ∀ i g, count (is_align_call i g) earlier32 = count (is_align_claim i g) earlier32
           ∧ count (is_align_return i g) earlier32 = count (is_align_claim i g) earlier32
           ∧ count (is_align_claim i g) later32 = 0.
Proof.
  assert (H1 : Workflow_new settings32 = Some workflow32) by reflexivity.
  assert (H2 : reachable workflow32 finished32) by (exists round_robin; reflexivity).
  assert (H3 : trace finished32 = later32 ++ EvGenoCall 0 1 "g1" row32 :: earlier32)
    by (vm_compute; reflexivity).
  assert (H4 : is_geno_event (EvGenoCall 0 1 "g1" row32) = true) by reflexivity.
  repeat (split; [assumption|]).
  exact (genotyping_after_alignment settings32 workflow32 finished32 later32 earlier32
           (EvGenoCall 0 1 "g1" row32) H1 H2 H3 H4).
Defined.

Lemma completion_status_witness :
  main command_line32 round_robin = Exited StatusZero (Some finished32)
  ∧ (StatusZero = StatusZero ↔ ∃ st, Some finished32 = Some st ∧ pool st = Finished)
  ∧ (∀ st, Some finished32 = Some st → pool st = Finished →
       terminate_ (workflow st) = false ∧ count is_throw (trace st) = 0)
  ∧ (∀ st, Some finished32 = Some st →
       terminate_ (workflow st) = true ∨ 0 < count is_throw (trace st) →
       StatusZero = StatusNonZero)
  ∧ (∀ st, Some finished32 = Some st →
       sink_opens (settings (workflow st)) = true → count is_throw (trace st) = 0 →
       StatusZero = StatusZero).
Proof.
  assert (H1 : main command_line32 round_robin = Exited StatusZero (Some finished32))
    by (vm_compute; reflexivity).
  split; [assumption|].
  exact (completion_status command_line32 round_robin StatusZero (Some finished32) H1).
Defined.

Lemma combined_stream_framing_witness :
  Workflow_new settings32 = Some workflow32
  ∧ reachable workflow32 finished32
  ∧ pool finished32 = Finished
  ∧ fos finished32
    = frame_open settings32 +:+ join "," (records (trace finished32))
        +:+ frame_close settings32
  ∧ frame_open settings32
    = (if has_outputFile settings32 && (1 <? length (graphSpecPaths_ settings32))
       then "[" else EmptyString)
  ∧ frame_close settings32
    = (if has_outputFile settings32 && (1 <? length (graphSpecPaths_ settings32))
       then String "]" (String "010" EmptyString) else EmptyString)
  ∧ (has_outputFile settings32 = false → fos finished32 = EmptyString)
  ∧ (1 ≤ threads (parameters_ settings32) → has_outputFile settings32 = true →
     length (records (trace finished32))
     = Nat.max 1 (length (graphSpecPaths_ settings32))).
Proof.
  assert (H1 : Workflow_new settings32 = Some workflow32) by reflexivity.
  assert (H2 : reachable workflow32 finished32) by (exists round_robin; reflexivity).
  assert (H3 : pool finished32 = Finished) by (vm_compute; reflexivity).
  repeat (split; [assumption|]).
  exact (combined_stream_framing settings32 workflow32 finished32 H1 H2 H3).
Defined.

(** The run of three samples against two graphs on one thread, in forty
    moves of thread 0. *)
Lemma single_thread_output_order_witness :
  Workflow_new settings32_single = Some workflow32_single
  ∧ threads (parameters_ settings32_single) = 1
  ∧ reachable workflow32_single (run_start workflow32_single)
  ∧ fair 1 (replicate 40 [0]) = true
  ∧ work_left (run_start workflow32_single) ≤ length (replicate 40 [0])
  ∧ exec (concat (replicate 40 [0])) (run_start workflow32_single) = finished32_single
  ∧ sink_opens settings32_single = true
  ∧ count is_throw (trace finished32_single) = 0
  ∧ has_outputFile settings32_single = true
  ∧ run_over finished32_single = true
  ∧ pool finished32_single = Finished
  ∧ (fst <$> written (trace finished32_single)) = [0; 1]
  ∧ Forall (record_ok (workflow finished32_single)) (written (trace finished32_single))
  ∧ fos finished32_single
    = frame_open settings32_single
        +:+ join "," (records (trace finished32_single))
        +:+ frame_close settings32_single.
Proof.
  assert (H1 : Workflow_new settings32_single = Some workflow32_single) by reflexivity.
  assert (H2 : threads (parameters_ settings32_single) = 1) by reflexivity.
  assert (H3 : reachable workflow32_single (run_start workflow32_single))
    by (exists []; reflexivity).
  assert (H4 : fair 1 (replicate 40 [0]) = true) by (vm_compute; reflexivity).
  assert (H5 : work_left (run_start workflow32_single) ≤ length (replicate 40 [0]))
    by (vm_compute; lia).
  assert (Heq : exec (concat (replicate 40 [0])) (run_start workflow32_single)
                = finished32_single) by (vm_compute; reflexivity).
  assert (H6 : sink_opens settings32_single = true) by reflexivity.
  assert (H7 : count is_throw (trace finished32_single) = 0) by (vm_compute; reflexivity).
  assert (H8 : has_outputFile settings32_single = true) by reflexivity.
  destruct (single_thread_output_order settings32_single workflow32_single
              (run_start workflow32_single) (replicate 40 [0]) H1 H2 H3 H4 H5)
    as (_ & _ & Hover & Hfin & Hend).
  rewrite Heq in Hover, Hfin, Hend.
  pose proof (Hfin H6 H7) as Hfinished.
  repeat (split; [assumption|]). exact (Hend Hfinished H8).
Defined.

Lemma prealigned_sample_skips_alignment_witness :
  Workflow_new settings_prealigned = Some workflow_prealigned
  ∧ manifest_ settings_prealigned !! 1 = Some (sample "p" (Some "done"))
  ∧ isNull (get_alignment_data (sample "p" (Some "done"))) = false
  ∧ unalignedSamples_ workflow_prealigned !! 1
    = Some (mkUnalignedSample (sample "p" (Some "done"))
              (length (graphSpecPaths_ settings_prealigned)))
  ∧ ∀ st, reachable workflow_prealigned st →
      (∀ g, count (is_align_claim 1 g) (trace st) = 0
            ∧ count (is_align_call 1 g) (trace st) = 0)
      ∧ (∀ g, g < Nat.max 1 (length (graphSpecPaths_ settings_prealigned)) →
              slot_at (workflow st) g 1 = Some (sample "p" (Some "done"))).
Proof.
  assert (H1 : Workflow_new settings_prealigned = Some workflow_prealigned) by reflexivity.
  assert (H2 : manifest_ settings_prealigned !! 1 = Some (sample "p" (Some "done")))
    by reflexivity.
  assert (H3 : isNull (get_alignment_data (sample "p" (Some "done"))) = false)
    by reflexivity.
  repeat (split; [assumption|]).
  exact (prealigned_sample_skips_alignment settings_prealigned workflow_prealigned 1
           (sample "p" (Some "done")) H1 H2 H3).
Defined.

Lemma prealigned_with_several_graphs_is_fatal_witness :
  vm_graph_spec command_line_prealigned = Some ["g0"; "g1"]
  ∧ 1 < length ["g0"; "g1"]
  ∧ vm_manifest command_line_prealigned = Some "prealigned.txt"
  ∧ loadManifest "prealigned.txt" = Some [sample "a" None; sample "p" (Some "done")]
  ∧ sample "p" (Some "done") ∈ [sample "a" None; sample "p" (Some "done")]
  ∧ isNull (get_alignment_data (sample "p" (Some "done"))) = false
  ∧ check_manifest ["g0"; "g1"] [sample "a" None; sample "p" (Some "done")]
    = error (PreAlignedWithSeveralGraphs (length ["g0"; "g1"]))
  ∧ (∃ e, postProcess command_line_prealigned = inr e)
  ∧ ∀ sched, main command_line_prealigned sched = Exited StatusNonZero None.
Proof.
  assert (H1 : vm_graph_spec command_line_prealigned = Some ["g0"; "g1"]) by reflexivity.
  assert (H2 : 1 < length ["g0"; "g1"]) by (simpl; lia).
  assert (H3 : vm_manifest command_line_prealigned = Some "prealigned.txt") by reflexivity.
  assert (H4 : loadManifest "prealigned.txt"
               = Some [sample "a" None; sample "p" (Some "done")]) by reflexivity.
  assert (H5 : sample "p" (Some "done") ∈ [sample "a" None; sample "p" (Some "done")])
    by (right; left).
  assert (H6 : isNull (get_alignment_data (sample "p" (Some "done"))) = false)
    by reflexivity.
  repeat (split; [assumption|]).
  exact (prealigned_with_several_graphs_is_fatal command_line_prealigned ["g0"; "g1"]
           "prealigned.txt" [sample "a" None; sample "p" (Some "done")]
           (sample "p" (Some "done")) H1 H2 H3 H4 H5 H6).
Defined.


Lemma alignedSamples_shape_witness :
  Workflow_new settings32 = Some workflow32
  ∧ alignedSamples_ workflow32
    = replicate (Nat.max 1 (length (graphSpecPaths_ settings32))) (manifest_ settings32)
  ∧ ∀ st, reachable workflow32 st →
      length (alignedSamples_ (workflow st))
      = Nat.max 1 (length (graphSpecPaths_ settings32))
      ∧ Forall (λ row, length row = length (manifest_ settings32))
          (alignedSamples_ (workflow st))
      ∧ ∀ t, length <$> alignedSamples_ (workflow (tick t st))
             = length <$> alignedSamples_ (workflow st).
Proof.
  assert (H1 : Workflow_new settings32 = Some workflow32) by reflexivity.
  split; [assumption|].
  exact (alignedSamples_shape settings32 workflow32 H1).
Defined.

(** The stream of that run ends in a line feed after the bracket. *)
Lemma stream_ends_in_line_feed : ¬ framed_by_bare_brackets.
Proof.
  intros H.
  assert (H1 : Workflow_new settings32 = Some workflow32) by reflexivity.
  assert (H2 : reachable workflow32 finished32) by (exists round_robin; reflexivity).
  assert (H3 : pool finished32 = Finished) by (vm_compute; reflexivity).
  specialize (H settings32 workflow32 finished32 H1 H2 H3 eq_refl).
  vm_compute in H. discriminate H.
Qed.

(** The pre-aligned sample has its entry in [unalignedSamples_]. *)
Lemma prealigned_sample_enqueued : ¬ prealigned_not_enqueued.
Proof.
  intros H.
  assert (H1 : Workflow_new settings_prealigned = Some workflow_prealigned) by reflexivity.
  apply (H settings_prealigned workflow_prealigned (sample "p" (Some "done")) H1).
  - right. left.
  - reflexivity.
  - simpl. right. left.
Qed.


(** ** Further properties *)

Lemma postProcess_options_construct_witness :
  postProcess command_line32 = inl options32
  ∧ is_Some (Workflow_new (workflow_settings options32))
  ∧ (graph_spec_paths options32 = [] →
     Forall (λ sample, isNull (get_alignment_data sample) = false) (manifest options32))
  ∧ ∀ sched, runGrmpy options32 sched ≠ Aborted.
Proof.
  assert (H1 : postProcess command_line32 = inl options32) by (vm_compute; reflexivity).
  split; [assumption|].
  exact (postProcess_options_construct command_line32 options32 H1).
Defined.

Lemma output_defaults_to_stdout_witness :
  postProcess command_line_stdout = inl options_stdout
  ∧ (vm_output_folder command_line_stdout = None →
     output_file_path options_stdout ≠ EmptyString
     ∧ (default EmptyString (vm_output_file command_line_stdout) = EmptyString →
        output_file_path options_stdout = "-"%string))
  ∧ (∀ file, vm_output_file command_line_stdout = Some file → file ≠ EmptyString →
       output_file_path options_stdout = file)
  ∧ (has_outputFile (workflow_settings options_stdout) = false →
     is_Some (vm_output_folder command_line_stdout))
  ∧ output_folder_path options_stdout
    = default EmptyString (vm_output_folder command_line_stdout).
Proof.
  assert (H1 : postProcess command_line_stdout = inl options_stdout)
    by (vm_compute; reflexivity).
  split; [assumption|].
  exact (output_defaults_to_stdout command_line_stdout options_stdout H1).
Defined.

Lemma alignment_output_folder_forced_witness :
  postProcess command_line_forced = inl options_forced
  ∧ (vm_alignment_output_folder command_line_forced = EmptyString →
     alignment_output_path options_forced = EmptyString)
  ∧ (∀ rest, vm_alignment_output_folder command_line_forced = String "!" rest →
       alignment_output_path options_forced = rest)
  ∧ (∀ c rest, vm_alignment_output_folder command_line_forced = String c rest →
       c ≠ "!"%char →
       alignment_output_path options_forced = String c rest
       ∧ is_directory (String c rest) = false).
Proof.
  assert (H1 : postProcess command_line_forced = inl options_forced)
    by (vm_compute; reflexivity).
  split; [assumption|].
  exact (alignment_output_folder_forced command_line_forced options_forced H1).
Defined.

Lemma sink_failure_is_immediate_witness :
  reachable workflow32 started32
  ∧ (sink_opens (settings workflow32) = false
     → started32 = mkRunState workflow32 EmptyString 0 [] Failed [])
  ∧ (sink_opens (settings workflow32) = true →
     run_start workflow32
     = mkRunState workflow32 (frame_open (settings workflow32)) 0 []
         (Aligning (replicate (threads (parameters_ (settings workflow32))) (ALoop 0 false)))
         [])
  ∧ (outputFilePath_ (settings workflow32) = "-"%string
     ∨ outputFilePath_ (settings workflow32) = EmptyString →
     sink_opens (settings workflow32) = true).
Proof.
  assert (H1 : reachable workflow32 started32) by (exists [0; 1; 0]; reflexivity).
  split; [assumption|].
  exact (sink_failure_is_immediate workflow32 started32 H1).
Defined.

Lemma every_move_is_progress_witness :
  Workflow_new settings32 = Some workflow32
  ∧ reachable workflow32 started32
  ∧ (∀ t, tick t started32 = started32 ∨ work_left (tick t started32) < work_left started32)
  ∧ ∃ sched, length sched ≤ work_left started32
             ∧ run_over (exec sched started32) = true.
Proof.
  assert (H1 : Workflow_new settings32 = Some workflow32) by reflexivity.
  assert (H2 : reachable workflow32 started32) by (exists [0; 1; 0]; reflexivity).
  repeat (split; [assumption|]).
  exact (every_move_is_progress settings32 workflow32 started32 H1 H2).
Defined.

Lemma accesses_stay_in_bounds_witness :
  Workflow_new settings32 = Some workflow32
  ∧ reachable workflow32 finished32
  ∧ Forall (λ u, unprocessedGraphs_ u ≤ length (graphSpecPaths_ settings32))
      (unalignedSamples_ (workflow finished32))
  ∧ ungenotypedSamples finished32 ≤ table_rows settings32
  ∧ count is_align_call_any (trace finished32)
    = count is_align_return_any (trace finished32) + count is_align_throw (trace finished32)
  ∧ count is_geno_call (trace finished32)
    = count is_geno_return (trace finished32) + count is_geno_throw (trace finished32).
Proof.
  assert (H1 : Workflow_new settings32 = Some workflow32) by reflexivity.
  assert (H2 : reachable workflow32 finished32) by (exists round_robin; reflexivity).
  repeat (split; [assumption|]).
  exact (accesses_stay_in_bounds settings32 workflow32 finished32 H1 H2).
Defined.

Lemma rows_claimed_in_order_witness :
  reachable workflow32 finished32
  ∧ rev (omap claimed_row (trace finished32)) = seq 0 (ungenotypedSamples finished32).
Proof.
  assert (H1 : reachable workflow32 finished32) by (exists round_robin; reflexivity).
  split; [assumption|].
  exact (rows_claimed_in_order workflow32 finished32 H1).
Defined.

Lemma genotyping_exactly_once_witness :
  Workflow_new settings32 = Some workflow32
  ∧ reachable workflow32 finished32
  ∧ (∀ g, count (is_geno_claim_of g) (trace finished32) ≤ 1
          ∧ count (is_geno_call_of g) (trace finished32)
            ≤ count (is_geno_claim_of g) (trace finished32)
          ∧ count (is_geno_return_of g) (trace finished32)
            ≤ count (is_geno_call_of g) (trace finished32)
          ∧ (0 < count (is_geno_claim_of g) (trace finished32) → g < table_rows settings32))
  ∧ (1 ≤ threads (parameters_ settings32) → pool finished32 = Finished →
     ∀ g, count (is_geno_claim_of g) (trace finished32)
          = Nat.b2n (g <? table_rows settings32)
          ∧ count (is_geno_call_of g) (trace finished32)
            = Nat.b2n (g <? table_rows settings32)
          ∧ count (is_geno_return_of g) (trace finished32)
            = Nat.b2n (g <? table_rows settings32)
          ∧ (has_outputFile settings32 = true →
             count (is_write_of g) (trace finished32)
             = Nat.b2n (g <? table_rows settings32))).
Proof.
  assert (H1 : Workflow_new settings32 = Some workflow32) by reflexivity.
  assert (H2 : reachable workflow32 finished32) by (exists round_robin; reflexivity).
  repeat (split; [assumption|]).
  exact (genotyping_exactly_once settings32 workflow32 finished32 H1 H2).
Defined.

Lemma table_after_alignment_is_expected_witness :
  Workflow_new settings32 = Some workflow32
  ∧ reachable workflow32 finished32
  ∧ (count is_align_failure (trace finished32) = 0 →
     ∀ t i g path slot, EvAlignCall t i g path slot ∈ trace finished32 →
       graphSpecPaths_ settings32 !! g = Some path ∧ manifest_ settings32 !! i = Some slot)
  ∧ (1 ≤ threads (parameters_ settings32) → alignment_over finished32 →
     alignedSamples_ (workflow finished32) = expected_table settings32).
Proof.
  assert (H1 : Workflow_new settings32 = Some workflow32) by reflexivity.
  assert (H2 : reachable workflow32 finished32) by (exists round_robin; reflexivity).
  repeat (split; [assumption|]).
  exact (table_after_alignment_is_expected settings32 workflow32 finished32 H1 H2).
Defined.

Lemma genotyper_input_witness :
  Workflow_new settings32 = Some workflow32
  ∧ reachable workflow32 finished32
  ∧ EvGenoCall 0 1 "g1" row32 ∈ trace finished32
  ∧ 1 < table_rows settings32
  ∧ graphSpecPath_of settings32 1 = Some "g1"%string
  ∧ row32 = expected_row settings32 1.
Proof.
  assert (H1 : Workflow_new settings32 = Some workflow32) by reflexivity.
  assert (H2 : reachable workflow32 finished32) by (exists round_robin; reflexivity).
  assert (H3 : EvGenoCall 0 1 "g1" row32 ∈ trace finished32).
  { assert (Htr : trace finished32 = later32 ++ EvGenoCall 0 1 "g1" row32 :: earlier32)
      by (vm_compute; reflexivity).
    rewrite Htr. apply elem_of_app. right. left. }
  repeat (split; [assumption|]).
  exact (genotyper_input settings32 workflow32 finished32 0 1 "g1" row32 H1 H2 H3).
Defined.

Lemma combined_stream_content_witness :
  Workflow_new settings32 = Some workflow32
  ∧ reachable workflow32 finished32
  ∧ 1 ≤ threads (parameters_ settings32)
  ∧ pool finished32 = Finished
  ∧ has_outputFile settings32 = true
  ∧ fst <$> written (trace finished32) ≡ₚ seq 0 (table_rows settings32)
  ∧ Forall (λ r, expected_output settings32 r.1 = Some r.2) (written (trace finished32)).
Proof.
  assert (H1 : Workflow_new settings32 = Some workflow32) by reflexivity.
  assert (H2 : reachable workflow32 finished32) by (exists round_robin; reflexivity).
  assert (H3 : 1 ≤ threads (parameters_ settings32)) by (simpl; lia).
  assert (H4 : pool finished32 = Finished) by (vm_compute; reflexivity).
  assert (H5 : has_outputFile settings32 = true) by reflexivity.
  repeat (split; [assumption|]).
  exact (combined_stream_content settings32 workflow32 finished32 H1 H2 H3 H4 H5).
Defined.

Lemma output_files_written_witness :
  Workflow_new settings_folder = Some workflow_folder
  ∧ reachable workflow_folder finished_folder
  ∧ (outputFolderPath_ settings_folder = EmptyString → outputFiles finished_folder = [])
  ∧ (outputFolderPath_ settings_folder ≠ EmptyString →
     1 ≤ threads (parameters_ settings_folder) → pool finished_folder = Finished →
     Some <$> outputFiles finished_folder
     ≡ₚ expected_file settings_folder <$> seq 0 (table_rows settings_folder)).
Proof.
  assert (H1 : Workflow_new settings_folder = Some workflow_folder) by reflexivity.
  assert (H2 : reachable workflow_folder finished_folder)
    by (exists round_robin; reflexivity).
  repeat (split; [assumption|]).
  exact (output_files_written settings_folder workflow_folder finished_folder H1 H2).
Defined.

End Witness.

(** The failing collaborators. *)
Module Failing.

Import Example.

#[local] Existing Instance failing.

Lemma terminate_checked_after_claim_witness :
  terminate_ (workflow terminated13) = true
  ∧ (∀ w' pc evs, alignSamples_locked 1 0 false (workflow terminated13) = (w', pc, evs) →
       (pc = AReturned ∨ pc = AThrown)
       ∧ Forall (λ e, (∃ j g, e = EvAlignClaim 1 j g) ∨ ∃ j, e = EvReaderThrow 1 j) evs
       ∧ (pc = AReturned →
          count is_align_failure evs = 0
          ∧ unalignedSamples_ w'
            = take 0 (unalignedSamples_ (workflow terminated13))
              ++ ((λ u, if unprocessedGraphs_ u =? graphs_end (workflow terminated13) then u
                        else advance u)
                    <$> drop 0 (unalignedSamples_ (workflow terminated13)))))
  ∧ (∀ st' pc', genotypeGraphs_locked 1 None terminated13 = (st', pc') →
       pc' = GReturned
       ∧ ungenotypedSamples st'
         = (if ungenotypedSamples terminated13
               =? length (alignedSamples_ (workflow terminated13))
            then ungenotypedSamples terminated13 else S (ungenotypedSamples terminated13))
       ∧ count is_geno_call (trace st') = count is_geno_call (trace terminated13)).
Proof.
  assert (H1 : terminate_ (workflow terminated13) = true) by (vm_compute; reflexivity).
  split; [assumption|].
  exact (terminate_checked_after_claim 1 0 false None terminated13 H1).
Defined.

(** The termination flag is set and thread 1 still advances the cursor of
    the genotyping phase, from graph 1 to graph 2. *)
Lemma cursor_advances_after_termination : ¬ stops_claiming_once_terminated.
Proof.
  intros H.
  assert (H1 : Workflow_new settings13 = Some workflow13) by reflexivity.
  assert (H2 : reachable workflow13 terminated13)
    by (exists [0; 0; 0; 0; 0; 0; 0; 1; 0; 0; 0]; reflexivity).
  assert (H3 : terminate_ (workflow terminated13) = true) by (vm_compute; reflexivity).
  destruct (H settings13 workflow13 terminated13 1 H1 H2 H3) as [Hcursor _].
  vm_compute in Hcursor. discriminate Hcursor.
Qed.


(** ** Further properties *)

Lemma alignment_failure_stops_run_witness :
  Workflow_new settings_bad = Some workflow_bad
  ∧ reachable workflow_bad failed_alignment
  ∧ 0 < count is_align_failure (trace failed_alignment)
  ∧ count is_geno_event (trace failed_alignment) = 0
  ∧ written (trace failed_alignment) = []
  ∧ fos failed_alignment = frame_open settings_bad
  ∧ ((∃ ths, pool failed_alignment = Aligning ths ∧ 0 < count align_thrown ths)
     ∨ pool failed_alignment = Failed).
Proof.
  assert (H1 : Workflow_new settings_bad = Some workflow_bad) by reflexivity.
  assert (H2 : reachable workflow_bad failed_alignment)
    by (exists round_robin; reflexivity).
  assert (H3 : 0 < count is_align_failure (trace failed_alignment))
    by (vm_compute; lia).
  repeat (split; [assumption|]).
  exact (alignment_failure_stops_run settings_bad workflow_bad failed_alignment H1 H2 H3).
Defined.

Lemma termination_flag_iff_failure_witness :
  Workflow_new settings13 = Some workflow13
  ∧ reachable workflow13 terminated13
  ∧ (terminate_ (workflow terminated13) = true
     ↔ 0 < count is_align_throw (trace terminated13)
           + count is_geno_throw (trace terminated13))
  ∧ ∀ t, terminate_ (workflow terminated13) = true →
         terminate_ (workflow (tick t terminated13)) = true.
Proof.
  assert (H1 : Workflow_new settings13 = Some workflow13) by reflexivity.
  assert (H2 : reachable workflow13 terminated13)
    by (exists [0; 0; 0; 0; 0; 0; 0; 1; 0; 0; 0]; reflexivity).
  repeat (split; [assumption|]).
  exact (termination_flag_iff_failure settings13 workflow13 terminated13 H1 H2).
Defined.

Lemma failed_run_stream_witness :
  Workflow_new settings13 = Some workflow13
  ∧ reachable workflow13 failed13
  ∧ pool failed13 = Failed
  ∧ sink_opens settings13 = true
  ∧ fos failed13 = frame_open settings13 +:+ join "," (records (trace failed13))
  ∧ (has_outputFile settings13 = true →
     ∀ g, count (is_write_of g) (trace failed13) = count (is_geno_return_of g) (trace failed13)
          ∧ count (is_write_of g) (trace failed13) ≤ 1).
Proof.
  assert (H1 : Workflow_new settings13 = Some workflow13) by reflexivity.
  assert (H2 : reachable workflow13 failed13) by (exists round_robin; reflexivity).
  assert (H3 : pool failed13 = Failed) by (vm_compute; reflexivity).
  assert (H4 : sink_opens settings13 = true) by reflexivity.
  repeat (split; [assumption|]).
  exact (failed_run_stream settings13 workflow13 failed13 H1 H2 H3 H4).
Defined.

End Failing.

(** A file that cannot be read. *)
Module Unreadable.

Import Example.

#[local] Existing Instance unreadable.



End Unreadable.
